(** * stress-go: size parser, static storage allocator and the dynamic
      memory and storage controllers

    A shallow embedding of
      - [parseSize]                         (main.go),
      - [calculatePercentageSize], [generateDynamicLoad]  (pkg/memory),
      - [calculatePercentageSize], [performStorageOperations],
        [performDynamicStorageOperations], [GenerateLoad] (pkg/storage)
    and the properties of them that the specification states.

    Go's [int64] is a [Z] with the wrap-around written out ([wrap64]);
    [float64] is the binary64 instance of the executable IEEE 754
    specification [SpecFloat] (precision 53, [emax] 1024); strings are
    byte strings ([list ascii]), as Go strings are. *)

From Stdlib Require Import ZArith List Ascii String Bool Lia.
From Stdlib Require Import Floats.SpecFloat.
From stdpp Require Import base option list gmap.

Import ListNotations.
#[local] Open Scope Z_scope.

(* ------------------------------------------------------------------ *)
(** ** Machine integers *)

Module Int64.

Definition min_int : Z := - 2 ^ 63.
Definition max_int : Z := 2 ^ 63 - 1.

(** Two's complement wrap-around of a 64-bit signed integer. *)
Definition wrap64 (z : Z) : Z := (z + 2 ^ 63) mod 2 ^ 64 - 2 ^ 63.

Definition in_range (z : Z) : Prop := min_int <= z <= max_int.

Definition add (a b : Z) : Z := wrap64 (a + b).
Definition sub (a b : Z) : Z := wrap64 (a - b).
Definition neg (a : Z) : Z := wrap64 (- a).

(** Go's [/] on integers truncates toward zero. *)
Definition quot (a b : Z) : Z := wrap64 (Z.quot a b).

End Int64.

(* ------------------------------------------------------------------ *)
(** ** float64 *)

Module Float64.

Definition prec : Z := 53.
Definition emax : Z := 1024.

Abbreviation float64 := spec_float.

Definition mul (x y : float64) : float64 := SFmul prec emax x y.
Definition div (x y : float64) : float64 := SFdiv prec emax x y.
Definition opp (x : float64) : float64 := SFopp x.
Definition ltb (x y : float64) : bool := SFltb x y.

(** [float64(n)] for an integer [n]: the nearest binary64, ties to
    even. *)
Definition of_Z (n : Z) : float64 := binary_normalize prec emax n 0 false.

(** The quotient [n / d] of two positive integers rounded once to
    binary64. *)
Definition of_ratio (n d : positive) : float64 :=
  let '(mz, ez, lz) := SFdiv_core_binary prec emax (Zpos n) 0 (Zpos d) 0 in
  binary_round_aux prec emax false mz ez lz.

(** The integer part of a finite float, toward zero. *)
Definition trunc (x : float64) : option Z :=
  match x with
  | S754_zero _ => Some 0
  | S754_finite s m e =>
      let a := match e with
               | Zneg _ => Z.shiftr (Zpos m) (- e)
               | _ => Z.shiftl (Zpos m) e
               end in
      Some (if s then - a else a)
  | _ => None
  end.

(** [int64(x)]: truncation toward zero.  Go leaves the result of an
    out-of-range conversion to the implementation; the Makefile builds
    for amd64 only, where CVTTSD2SQ yields the "integer indefinite"
    value [-2^63] for NaN, infinities and out-of-range values. *)
Definition to_int64 (x : float64) : Z :=
  match trunc x with
  | Some z => if (Int64.min_int <=? z) && (z <=? Int64.max_int)
              then z else Int64.min_int
  | None => Int64.min_int
  end.

Definition f100 : float64 := of_Z 100.
Definition f0 : float64 := S754_zero false.

End Float64.

(* ------------------------------------------------------------------ *)
(** ** Go strings *)

Module GoString.

(** A Go string is a sequence of bytes. *)
Abbreviation gostring := (list ascii).

Definition str (s : string) : gostring := list_ascii_of_string s.

Definition code (c : ascii) : N := N_of_ascii c.

Definition eqb (a b : gostring) : bool := bool_decide (a = b).

(** [strings.HasSuffix(s, "%")] and [strings.TrimSuffix(s, "%")]. *)
Definition has_suffix_percent (s : gostring) : bool :=
  match rev s with
  | c :: _ => (code c =? 37)%N
  | [] => false
  end.

Definition trim_suffix_percent (s : gostring) : gostring :=
  if has_suffix_percent s then removelast s else s.

(** The white-space runes of [unicode.IsSpace] in UTF-8: U+0009..U+000D
    and U+0020 (one byte); U+0085 and U+00A0 (two bytes); U+1680,
    U+2000..U+200A, U+2028, U+2029, U+202F, U+205F and U+3000 (three
    bytes). *)
Definition is_space1 (a : N) : bool :=
  ((9 <=? a) && (a <=? 13) || (a =? 32))%N.

Definition is_space2 (a b : N) : bool :=
  ((a =? 194) && ((b =? 133) || (b =? 160)))%N.

Definition is_space3 (a b c : N) : bool :=
  ((a =? 225) && (b =? 154) && (c =? 128)
   || (a =? 226) && (b =? 128)
      && ((128 <=? c) && (c <=? 138) || (c =? 168) || (c =? 169)
          || (c =? 175))
   || (a =? 226) && (b =? 129) && (c =? 159)
   || (a =? 227) && (b =? 128) && (c =? 128))%N.

(** Length in bytes of the white-space rune that the byte sequence
    starts with; 0 when it starts with none. *)
Definition space_rune_len (s : gostring) : nat :=
  match map code s with
  | a :: r =>
      if is_space1 a then 1%nat else
      match r with
      | b :: r' =>
          if is_space2 a b then 2%nat else
          match r' with
          | c :: _ => if is_space3 a b c then 3%nat else 0%nat
          | [] => 0%nat
          end
      | [] => 0%nat
      end
  | [] => 0%nat
  end.

(** The same for the rune the sequence ends with, read on the reversed
    sequence: the last byte comes first. *)
Definition space_rune_len_rev (s : gostring) : nat :=
  match map code s with
  | a :: r =>
      if is_space1 a then 1%nat else
      match r with
      | b :: r' =>
          if is_space2 b a then 2%nat else
          match r' with
          | c :: _ => if is_space3 c b a then 3%nat else 0%nat
          | [] => 0%nat
          end
      | [] => 0%nat
      end
  | [] => 0%nat
  end.

Fixpoint drop_runes (len : gostring -> nat) (fuel : nat) (s : gostring)
  : gostring :=
  match fuel with
  | O => s
  | S fuel' =>
      match len s with
      | O => s
      | n => drop_runes len fuel' (skipn n s)
      end
  end.

(** [strings.TrimSpace]. *)
Definition trim_space (s : gostring) : gostring :=
  let l := drop_runes space_rune_len (length s) s in
  rev (drop_runes space_rune_len_rev (length l) (rev l)).

(** [strings.ToUpper] on the bytes that matter to the size grammar:
    ASCII letters are mapped to upper case.  Bytes of other runes are
    kept; Go maps such a rune to another rune outside ASCII, except
    U+0131 and U+017F whose upper cases, I and S, occur nowhere in
    the grammar either. *)
Definition upper_byte (c : ascii) : ascii :=
  let n := code c in
  if ((97 <=? n) && (n <=? 122))%N then ascii_of_N (n - 32) else c.

Definition to_upper (s : gostring) : gostring := map upper_byte s.

(** [\d] and [\s] of Go's regexp syntax. *)
Definition is_digit (c : ascii) : bool :=
  ((48 <=? code c) && (code c <=? 57))%N.

Definition is_re_space (c : ascii) : bool :=
  let n := code c in
  ((n =? 9) || (n =? 10) || (n =? 12) || (n =? 13) || (n =? 32))%N.

Fixpoint span (p : ascii -> bool) (s : gostring) : gostring * gostring :=
  match s with
  | c :: r => if p c then let '(a, b) := span p r in (c :: a, b)
              else ([], s)
  | [] => ([], [])
  end.

End GoString.

(* ------------------------------------------------------------------ *)
(** ** main.go: parseSize *)

Module SizeParser.
Import GoString Float64.

Inductive error : Type :=
| ErrInvalidPercentage (percentStr : gostring)
    (* "invalid percentage: %s" *)
| ErrPercentageRange (percent : float64)
    (* "percentage must be in range 0-100: %f" *)
| ErrInvalidSizeFormat (sizeStr : gostring)
    (* "invalid size format: %s" *)
| ErrParseFloat (s : gostring)
    (* the error of strconv.ParseFloat, returned as it is *)
| ErrUnsupportedUnit (unit : gostring).
    (* "unsupported unit: %s" *)

Inductive result : Type :=
| Ok (n : Z)
| Err (e : error).

(** The spec's [InvalidPercentage] covers both failures of the
    percentage branch. *)
Definition is_InvalidPercentage (r : result) : bool :=
  match r with
  | Err (ErrInvalidPercentage _) | Err (ErrPercentageRange _) => true
  | _ => false
  end.

Definition is_InvalidSizeFormat (r : result) : bool :=
  match r with Err (ErrInvalidSizeFormat _) => true | _ => false end.

Definition is_UnsupportedUnit (r : result) : bool :=
  match r with Err (ErrUnsupportedUnit _) => true | _ => false end.

(** The value of a digit string, most significant digit first. *)
Definition digits_value (ds : gostring) : N :=
  fold_left (fun acc c => (10 * acc + (code c - 48))%N) ds 0%N.

(** [strconv.ParseFloat(s, 64)] on a string of the form [\d+(\.\d+)?]:
    the decimal value rounded once to the nearest binary64, and
    [ErrRange] (here [None]) when that overflows. *)
Definition parse_decimal (s : gostring) : option float64 :=
  let '(ds, r) := span is_digit s in
  let fs := match r with _ :: fs => fs | [] => [] end in
  match digits_value (ds ++ fs) with
  | N0 => Some (S754_zero false)
  | Npos n =>
      match of_ratio n (Z.to_pos (10 ^ Z.of_nat (length fs))) with
      | S754_infinity _ | S754_nan => None
      | x => Some x
      end
  end.

(** [regexp.MustCompile(`^(\d+(?:\.\d+)?)\s*([KMGT]?B?)?$`)
      .FindStringSubmatch(u)]: the two groups, or [None] for [nil]. *)
Definition is_unit (u : gostring) : bool :=
  existsb (eqb u)
    (map str ["";"B";"K";"KB";"M";"MB";"G";"GB";"T";"TB"]%string).

Definition find_submatch (u : gostring) : option (gostring * gostring) :=
  let '(ds, r1) := span is_digit u in
  match ds with
  | [] => None
  | _ :: _ =>
      let '(num, r2) :=
        match r1 with
        | c :: r =>
            if (code c =? 46)%N then
              let '(fs, r') := span is_digit r in
              match fs with
              | [] => (ds, r1)
              | _ :: _ => (ds ++ c :: fs, r')
              end
            else (ds, r1)
        | [] => (ds, r1)
        end in
      let unit := snd (span is_re_space r2) in
      if is_unit unit then Some (num, unit) else None
  end.

(** The [switch unit] of parseSize; [None] is its [default] branch. *)
Definition unit_multiplier (unit : gostring) : option Z :=
  if eqb unit (str "") || eqb unit (str "B") then Some 1
  else if eqb unit (str "KB") || eqb unit (str "K") then Some 1024
  else if eqb unit (str "MB") || eqb unit (str "M") then Some (1024 * 1024)
  else if eqb unit (str "GB") || eqb unit (str "G")
    then Some (1024 * 1024 * 1024)
  else if eqb unit (str "TB") || eqb unit (str "T")
    then Some (1024 * 1024 * 1024 * 1024)
  else None.

Section WithParseFloat.

(** [strconv.ParseFloat(s, 64)] is Go's library, not this program:
    [None] stands for a non-nil error.  All that is used of it is
    what it does on the plain decimals the size pattern lets
    through. *)
Variable ParseFloat : gostring -> option float64.

Definition parseSize (sizeStr : gostring) : result :=
  let sizeStr := trim_space sizeStr in
  if has_suffix_percent sizeStr then
    let percentStr := trim_suffix_percent sizeStr in
    match ParseFloat percentStr with
    | None => Err (ErrInvalidPercentage percentStr)
    | Some percent =>
        if ltb percent (of_Z 0) || ltb (of_Z 100) percent
        then Err (ErrPercentageRange percent)
        else Ok (to_int64 (opp percent))
    end
  else
    match find_submatch (to_upper sizeStr) with
    | None => Err (ErrInvalidSizeFormat sizeStr)
    | Some (num, unit) =>
        match ParseFloat num with
        | None => Err (ErrParseFloat num)
        | Some value =>
            match unit_multiplier unit with
            | Some multiplier =>
                Ok (to_int64 (mul value (of_Z multiplier)))
            | None => Err (ErrUnsupportedUnit unit)
            end
        end
    end.

End WithParseFloat.

(** A [ParseFloat] that knows plain decimals only. *)
Definition is_decimal (s : gostring) : bool :=
  match find_submatch s with
  | Some (num, []) => eqb num s
  | _ => false
  end.

Definition ParseFloat_decimal (s : gostring) : option float64 :=
  if is_decimal s then parse_decimal s else None.

(** The size pattern said declaratively: [u] is a number, then white
    space of the pattern's [\s], then a unit; [num] and [unit] are the
    two groups. *)
Definition digits (ds : gostring) : Prop :=
  ds <> [] /\ Forall (fun c => is_digit c = true) ds.

Definition number (num : gostring) : Prop :=
  digits num
  \/ exists ds fs, digits ds /\ digits fs /\ num = ds ++ "."%char :: fs.

Definition size_pattern (u num unit : gostring) : Prop :=
  number num /\ is_unit unit = true
  /\ exists ws, Forall (fun c => is_re_space c = true) ws
                /\ u = num ++ ws ++ unit.

(** The exponent of 1024 that a unit stands for. *)
Definition unit_index (unit : gostring) : Z :=
  match unit with
  | [] => 0
  | c :: _ =>
      if (code c =? 75)%N then 1          (* K *)
      else if (code c =? 77)%N then 2     (* M *)
      else if (code c =? 71)%N then 3     (* G *)
      else if (code c =? 84)%N then 4     (* T *)
      else 0
  end.

(** The specification's words, "AbsoluteBytes = round(number *
    multiplier)", for the number [n / d]: the nearest integer, halves
    upward. *)
Definition spec_bytes (n d multiplier : Z) : Z :=
  (2 * (n * multiplier) + d) / (2 * d).

(** What is used of [strconv.ParseFloat]: on a number of the size
    pattern it is the decimal conversion. *)
Definition decimal_ParseFloat (ParseFloat : gostring -> option float64)
  : Prop :=
  forall num, number num -> ParseFloat num = parse_decimal num.

End SizeParser.

(* ------------------------------------------------------------------ *)
(** ** What the controllers share *)

Module Controller.

(** One turn of a controller's [for { select { ... } }] loop: the
    context is done, or the ticker fired in the environment [E]. *)
Inductive event (E : Type) : Type :=
| Done
| Tick (env : E).
Arguments Done {E}.
Arguments Tick {E} env.

(** How a run over a finite sequence of turns stands at its end. *)
Inductive outcome (S : Type) : Type :=
| Returned (final : S)     (* the function returned *)
| Running (current : S)    (* still in its loop, waiting for a turn *)
| Crashed (last : S).      (* a panic or a fatal error of the runtime *)
Arguments Returned {S} final.
Arguments Running {S} current.
Arguments Crashed {S} last.

Definition sum_sizes (l : list Z) : Z := fold_right Z.add 0 l.

(** The environments of the ticks a loop takes before its context is
    done. *)
Fixpoint ticks {E : Type} (evs : list (event E)) : list E :=
  match evs with
  | Tick e :: evs' => e :: ticks evs'
  | _ => []
  end.

(** The state a run stands at, however it stands. *)
Definition final {S : Type} (o : outcome S) : S :=
  match o with
  | Returned s | Running s | Crashed s => s
  end.

End Controller.

(* ------------------------------------------------------------------ *)
(** ** pkg/memory *)

Module Memory.
Import Float64 Controller.

Inductive error : Type :=
| ErrInsufficientFreeMemory    (* "insufficient free memory" *)
| ErrInvalidSize.              (* "calculated memory size is invalid" *)

(** "8GB as default" *)
Definition totalSystemMemory : Z := 8 * 1024 * 1024 * 1024.

(** The constant [0.95], converted to float64. *)
Definition safetyFactor : float64 := of_ratio 95 100.

(** [calculatePercentageSize]; [sys] is [memStats.Sys], a uint64 read
    from the Go runtime by [runtime.ReadMemStats]. *)
Definition calculatePercentageSize (percent : float64) (sys : Z)
  : error + Z :=
  let usedMemory := Int64.wrap64 sys in
  let freeMemory := Int64.sub totalSystemMemory usedMemory in
  if freeMemory <=? 0 then inl ErrInsufficientFreeMemory
  else
    let targetSize :=
      to_int64 (div (mul (of_Z freeMemory) percent) (of_Z 100)) in
    let targetSize := to_int64 (mul (of_Z targetSize) safetyFactor) in
    if targetSize <=? 0 then inl ErrInvalidSize
    else inr targetSize.

(** The environment of one tick. *)
Record env : Type := {
  sys : Z;           (* memStats.Sys at the tick *)
  alloc_ok : bool    (* whether [make([]byte, n)] gets its memory; the
                        Go runtime ends the process when it does not *)
}.

(** The controller's variables.  A buffer is represented by its
    length: the loop reads nothing else of it, and writing a byte of
    it does not change it. *)
Record state : Type := {
  buffers : list Z;
  totalAllocated : Z
}.

Definition empty : state := {| buffers := []; totalAllocated := 0 |}.

(** [make([]byte, n)], [initializeBuffer] and the [append]. *)
Definition allocate (e : env) (n : Z) (st : state) (total : Z)
  : option state :=
  if alloc_ok e
  then Some {| buffers := buffers st ++ [n]; totalAllocated := total |}
  else None.

(** The loop [for i := len(buffers) - 1; i > 0 && releasedSize <
    excessSize; i--]; [None] is an index out of range.  The result
    carries [releasedSize]. *)
Fixpoint release (i : nat) (excessSize releasedSize : Z) (st : state)
  : option (state * Z) :=
  match i with
  | O => Some (st, releasedSize)
  | S i' =>
      if releasedSize <? excessSize then
        bufferSize ← buffers st !! i;
        release i' excessSize (Int64.add releasedSize bufferSize)
          {| buffers := take i (buffers st);
             totalAllocated := Int64.sub (totalAllocated st) bufferSize |}
      else Some (st, releasedSize)
  end.

(** The body of [case <-ticker.C]; [None] is a crash of the process. *)
Definition tick (percent : float64) (e : env) (st : state)
  : option state :=
  match calculatePercentageSize percent (sys e) with
  | inl _ => Some st                                   (* continue *)
  | inr newTargetSize =>
      if totalAllocated st <? newTargetSize then
        let additionalSize :=
          Int64.sub newTargetSize (totalAllocated st) in
        if 0 <? additionalSize then
          allocate e additionalSize st
            (Int64.add (totalAllocated st) additionalSize)
        else Some st
      else if (newTargetSize <? totalAllocated st)
              && (1 <? length (buffers st))%nat then
        let excessSize := Int64.sub (totalAllocated st) newTargetSize in
        fst <$> release (length (buffers st) - 1) excessSize 0 st
      else Some st
  end.

(** What a tick prints after "[Memory] Error recalculating size:",
    if it does. *)
Definition tick_error (percent : float64) (e : env) : option error :=
  match calculatePercentageSize percent (sys e) with
  | inl err => Some err
  | inr _ => None
  end.

(** [case <-ctx.Done()]: every buffer reference is dropped. *)
Definition teardown (st : state) : state :=
  {| buffers := []; totalAllocated := totalAllocated st |}.

Fixpoint loop (percent : float64) (evs : list (event env)) (st : state)
  : outcome state :=
  match evs with
  | [] => Running st
  | Done :: _ => Returned (teardown st)
  | Tick e :: evs' =>
      match tick percent e st with
      | Some st' => loop percent evs' st'
      | None => Crashed st
      end
  end.

(** The initial allocation of [generateDynamicLoad]; [inl] is its
    early return. *)
Definition initialize (percent : float64) (e : env) : error + option state :=
  match calculatePercentageSize percent (sys e) with
  | inl err => inl err
  | inr targetSize =>
      inr (if 0 <? targetSize then allocate e targetSize empty targetSize
           else Some empty)
  end.

Definition generateDynamicLoad (percent : float64) (e0 : env)
    (evs : list (event env)) : outcome state :=
  match initialize percent e0 with
  | inl _ => Returned empty
  | inr None => Crashed empty
  | inr (Some st) => loop percent evs st
  end.

(** [initializeBuffer] on a buffer given with its bytes: the loop
    [for i := int64(0); i < size; i += 4096], from [i] on. *)
Fixpoint initialize_from (fuel : nat) (size i : Z) (buffer : list Z)
  : list Z :=
  match fuel with
  | O => buffer
  | S fuel' =>
      if i <? size then
        let buffer :=
          if i <? size
          then <[Z.to_nat i := Z.rem i 256 mod 256]> buffer
          else buffer in
        initialize_from fuel' size (Int64.add i 4096) buffer
      else buffer
  end.

Definition initializeBuffer (buffer : list Z) : list Z :=
  let size := Z.of_nat (length buffer) in
  initialize_from (Z.to_nat (size / 4096 + 1)) size 0 buffer.

(** [make([]byte, n)]: [n] zero bytes. *)
Definition make (n : Z) : list Z := replicate (Z.to_nat n) 0.

(** [generateStaticLoad]: one buffer of [size] bytes, held until the
    context is done; a tick writes one byte of it. *)
Fixpoint static_loop (evs : list (event unit)) (st : state)
  : outcome state :=
  match evs with
  | [] => Running st
  | Done :: _ => Returned (teardown st)
  | Tick _ :: evs' => static_loop evs' st
  end.

Definition generateStaticLoad (size : Z) (alloc : bool)
    (evs : list (event unit)) : outcome state :=
  if alloc
  then static_loop evs {| buffers := [size]; totalAllocated := size |}
  else Crashed empty.

(** What a run of the memory load meets. *)
Record run : Type := {
  first : env;
  dynamic_events : list (event env);
  static_events : list (event unit)
}.

Definition GenerateLoad (size : Z) (r : run) : outcome state :=
  if size <? 0 then
    generateDynamicLoad (of_Z (Int64.neg size)) (first r)
      (dynamic_events r)
  else generateStaticLoad size (alloc_ok (first r)) (static_events r).

End Memory.

(* ------------------------------------------------------------------ *)
(** ** The file system the storage allocator works on *)

Module FileSystem.

(** A file of the allocator is named by its family and number:
    [stress-file-%d.dat] or [dynamic-stress-file-%d.dat]. *)
Abbreviation name := (bool * nat)%type.
Definition static_file (i : nat) : name := (false, i).
Definition dynamic_file (i : nat) : name := (true, i).

(** [filepath.Join(dir, name)], directories being numbered. *)
Abbreviation path := (nat * name)%type.

(** The directories that exist, and the size of every file. *)
Record fs : Type := {
  dirs : gset nat;
  files : gmap path Z
}.

(** How the volume answers one [writeFile]. *)
Record write_env : Type := {
  create_ok : bool;   (* os.Create succeeds *)
  capacity : Z;       (* bytes the volume still takes *)
  sync_ok : bool      (* file.Sync succeeds *)
}.

Definition bufferSize : Z := 64 * 1024.

(** The loop [for written < size] of [writeFile]: the bytes written
    and whether a [file.Write] failed (a short write, the volume being
    full). *)
Fixpoint write_chunks (fuel : nat) (capacity size written : Z)
  : Z * bool :=
  match fuel with
  | O => (written, true)
  | S fuel' =>
      if written <? size then
        let writeSize :=
          if size <? Int64.add written bufferSize
          then Int64.sub size written else bufferSize in
        if writeSize <=? capacity then
          write_chunks fuel' (capacity - writeSize) size
            (Int64.add written writeSize)
        else (written + Z.max 0 capacity, false)
      else (written, true)
  end.

Definition chunks_needed (size : Z) : nat :=
  Z.to_nat (size / bufferSize + 1).

(** [writeFile]: the file system afterwards and whether the error is
    nil. *)
Definition writeFile (w : write_env) (p : path) (size : Z) (d : fs)
  : fs * bool :=
  if create_ok w && bool_decide (p.1 ∈ dirs d) then
    let '(written, ok) :=
      write_chunks (chunks_needed size) (capacity w) size 0 in
    ({| dirs := dirs d; files := <[p := written]> (files d) |},
     ok && sync_ok w)
  else (d, false).

(** [appendToFile]: [n] bytes of the request reach the file. *)
Definition appendToFile (n : Z) (p : path) (d : fs) : fs :=
  match files d !! p with
  | Some sz => {| dirs := dirs d; files := <[p := sz + n]> (files d) |}
  | None => d
  end.

(** [os.Stat(p)] then [info.Size()]. *)
Definition stat (p : path) (d : fs) : option Z := files d !! p.

(** [os.Remove(p)] on a file. *)
Definition remove (p : path) (d : fs) : fs :=
  {| dirs := dirs d; files := delete p (files d) |}.

(** [os.MkdirTemp]: the directory [t] the system picked. *)
Definition mkdirTemp (t : nat) (d : fs) : fs :=
  {| dirs := {[ t ]} ∪ dirs d; files := files d |}.

(** [os.RemoveAll(t)]: the directory and all it holds. *)
Definition removeAll (t : nat) (d : fs) : fs :=
  {| dirs := dirs d ∖ {[ t ]};
     files := filter (fun kv => kv.1.1 ≠ t) (files d) |}.

(** The bytes the files [l] take on the volume; a missing file counts
    for nothing. *)
Definition size_at (d : fs) (p : path) : Z := default 0 (files d !! p).

Definition disk_usage (d : fs) (l : list path) : Z :=
  Controller.sum_sizes (map (size_at d) l).

End FileSystem.

(* ------------------------------------------------------------------ *)
(** ** pkg/storage *)

Module Storage.
Import Float64 Controller FileSystem.

Inductive error : Type :=
| ErrProbe          (* os.Getwd or getDiskFreeSpace failed *)
| ErrInvalidSize    (* "calculated storage size is invalid" *)
| ErrInitialWrite   (* "initial file write error: %v" *)
| ErrFileWrite.     (* "file write error: %v" *)

(** The constant [0.90], converted to float64. *)
Definition safetyFactor : float64 := of_ratio 90 100.

(** [calculatePercentageSize]; [freeSpace] is what [os.Getwd] and
    [getDiskFreeSpace] answer at this call, [None] when either
    fails. *)
Definition calculatePercentageSize (percent : float64)
    (freeSpace : option Z) : error + Z :=
  match freeSpace with
  | None => inl ErrProbe
  | Some freeSpace =>
      let targetSize :=
        to_int64 (div (mul (of_Z freeSpace) percent) (of_Z 100)) in
      let targetSize := to_int64 (mul (of_Z targetSize) safetyFactor) in
      if targetSize <=? 0 then inl ErrInvalidSize
      else inr targetSize
  end.

(** *** performStorageOperations *)

Definition chunkSize : Z := 1024 * 1024.
Definition numFiles : nat := 10.

Definition fileSize_of (totalSize : Z) : Z :=
  let fileSize := Int64.quot totalSize (Z.of_nat numFiles) in
  if fileSize <? chunkSize then chunkSize else fileSize.

Definition filePaths (tempDir : nat) : list path :=
  map (fun i => (tempDir, static_file i)) (seq 0 numFiles).

(** What happens around the write of one file: whether the context is
    done when the loop looks at it, and how the volume answers. *)
Record write_turn : Type := {
  done_before : bool;
  volume : write_env
}.

Inductive write_status : Type :=
| Completed
| Cancelled                  (* [return nil] from the write loop *)
| Failed.                    (* [return fmt.Errorf(...)] *)

(** The loop [for i, filePath := range filePaths], from index [i]
    on; [turns i] is the turn of file [i]. *)
Fixpoint write_phase (fileSize : Z) (turns : nat -> write_turn)
    (i : nat) (paths : list path) (d : fs) : fs * write_status :=
  match paths with
  | [] => (d, Completed)
  | p :: paths' =>
      if done_before (turns i) then (d, Cancelled)
      else
        let '(d', ok) := writeFile (volume (turns i)) p fileSize d in
        if ok then write_phase fileSize turns (S i) paths' d'
        else (d', Failed)
  end.

(** One tick of the read/append loop: [appended] bytes of the
    [chunkSize/4] requested reach the file. *)
Definition static_tick (tempDir : nat) (appended : Z)
    (st : nat * fs) : nat * fs :=
  let '(operationCount, d) := st in
  let fileIndex := (operationCount mod numFiles)%nat in
  (S operationCount,
   appendToFile appended (tempDir, static_file fileIndex) d).

Fixpoint static_loop (tempDir : nat) (evs : list (event Z))
    (st : nat * fs) : outcome (nat * fs) :=
  match evs with
  | [] => Running st
  | Done :: _ => Returned st
  | Tick a :: evs' => static_loop tempDir evs' (static_tick tempDir a st)
  end.

Definition performStorageOperations (tempDir : nat) (totalSize : Z)
    (turns : nat -> write_turn) (evs : list (event Z)) (d : fs)
  : outcome (nat * fs) * option error :=
  match write_phase (fileSize_of totalSize) turns 0 (filePaths tempDir) d
  with
  | (d', Completed) => (static_loop tempDir evs (O, d'), None)
  | (d', Cancelled) => (Returned (O, d'), None)
  | (d', Failed) => (Returned (O, d'), Some ErrFileWrite)
  end.

(** *** performDynamicStorageOperations *)

(** The environment of one tick. *)
Record env : Type := {
  freeSpace : option Z;      (* the probe, [None] when it fails *)
  wvolume : write_env;       (* how the volume answers a [writeFile] *)
  remove_ok : path -> bool;  (* whether [os.Remove] of the file works *)
  now : Z;                   (* time.Now().Unix() *)
  appended : Z               (* bytes of the 1024 that get appended *)
}.

(** The controller's variables. *)
Record state : Type := {
  currentFiles : list path;
  totalWritten : Z;
  fileCounter : nat
}.

Definition empty : state :=
  {| currentFiles := []; totalWritten := 0; fileCounter := O |}.

(** The loop [for i := len(currentFiles) - 1; i > 0 && deletedSize <
    excessSize; i--]; [None] is an index out of range. *)
Fixpoint delete_files (e : env) (i : nat) (excessSize deletedSize : Z)
    (w : state * fs) : option (state * fs * Z) :=
  match i with
  | O => Some (w, deletedSize)
  | S i' =>
      if deletedSize <? excessSize then
        let '(st, d) := w in
        filePath ← currentFiles st !! i;
        match stat filePath d with
        | Some fileSize =>
            if remove_ok e filePath then
              delete_files e i' excessSize (Int64.add deletedSize fileSize)
                ({| currentFiles := take i (currentFiles st);
                    totalWritten := Int64.sub (totalWritten st) fileSize;
                    fileCounter := fileCounter st |},
                 remove filePath d)
            else delete_files e i' excessSize deletedSize w
        | None => delete_files e i' excessSize deletedSize w
        end
      else Some (w, deletedSize)
  end.

(** "Perform I/O operations on remaining files"; [None] is an index
    out of range. *)
Definition liveness (e : env) (w : state * fs) : option (state * fs) :=
  let '(st, d) := w in
  match currentFiles st with
  | [] => Some w
  | _ :: _ =>
      let fileIndex := Z.rem (now e) (Z.of_nat (length (currentFiles st))) in
      if fileIndex <? 0 then None
      else
        filePath ← currentFiles st !! Z.to_nat fileIndex;
        Some (st, appendToFile (appended e) filePath d)
  end.

(** The first half of a tick, "Adjust disk usage if needed". *)
Inductive adjusted : Type :=
| Skip (w : state * fs)     (* [continue]: the rest of the tick is left out *)
| Next (w : state * fs).

Definition world_of (a : adjusted) : state * fs :=
  match a with Skip w | Next w => w end.

Definition adjust (tempDir : nat) (percent : float64) (e : env)
    (w : state * fs) : option adjusted :=
  let '(st, d) := w in
  match calculatePercentageSize percent (freeSpace e) with
  | inl _ => Some (Skip w)
  | inr newTargetSize =>
      if totalWritten st <? newTargetSize then
        let additionalSize := Int64.sub newTargetSize (totalWritten st) in
        if 0 <? additionalSize then
          let filePath := (tempDir, dynamic_file (fileCounter st)) in
          let '(d', ok) := writeFile (wvolume e) filePath additionalSize d in
          if ok then
            Some (Next
              ({| currentFiles := currentFiles st ++ [filePath];
                  totalWritten :=
                    Int64.add (totalWritten st) additionalSize;
                  fileCounter := S (fileCounter st) |}, d'))
          else Some (Skip (st, d'))
        else Some (Next w)
      else if (newTargetSize <? totalWritten st)
              && (1 <? length (currentFiles st))%nat then
        let excessSize := Int64.sub (totalWritten st) newTargetSize in
        r ← delete_files e (length (currentFiles st) - 1) excessSize 0 w;
        Some (Next r.1)
      else Some (Next w)
  end.

(** The body of [case <-ticker.C]; [None] is a panic. *)
Definition tick (tempDir : nat) (percent : float64) (e : env)
    (w : state * fs) : option (state * fs) :=
  match adjust tempDir percent e w with
  | Some (Skip w') => Some w'
  | Some (Next w') => liveness e w'
  | None => None
  end.

(** What a tick prints after "[Storage] Error recalculating size:",
    if it does. *)
Definition tick_error (percent : float64) (e : env) : option error :=
  match calculatePercentageSize percent (freeSpace e) with
  | inl err => Some err
  | inr _ => None
  end.

Fixpoint loop (tempDir : nat) (percent : float64)
    (evs : list (event env)) (w : state * fs) : outcome (state * fs) :=
  match evs with
  | [] => Running w
  | Done :: _ => Returned w
  | Tick e :: evs' =>
      match tick tempDir percent e w with
      | Some w' => loop tempDir percent evs' w'
      | None => Crashed w
      end
  end.

(** "Initial calculation and file creation"; [inl] is an early
    return with an error. *)
Definition initialize (tempDir : nat) (percent : float64) (e : env)
    (d : fs) : (error * fs) + (state * fs) :=
  match calculatePercentageSize percent (freeSpace e) with
  | inl err => inl (err, d)
  | inr targetSize =>
      if 0 <? targetSize then
        let filePath := (tempDir, dynamic_file O) in
        let '(d', ok) := writeFile (wvolume e) filePath targetSize d in
        if ok then
          inr ({| currentFiles := [filePath];
                  totalWritten := targetSize;
                  fileCounter := 1 |}, d')
        else inl (ErrInitialWrite, d')
      else inr (empty, d)
  end.

Definition performDynamicStorageOperations (tempDir : nat)
    (percent : float64) (e0 : env) (evs : list (event env)) (d : fs)
  : outcome (state * fs) * option error :=
  match initialize tempDir percent e0 d with
  | inl (err, d') => (Returned (empty, d'), Some err)
  | inr w => (loop tempDir percent evs w, None)
  end.

(** *** GenerateLoad *)

(** What the run meets: the directory [os.MkdirTemp] makes ([None]
    when it fails), and the turns of whichever allocator runs. *)
Record run : Type := {
  tempDir : option nat;
  turns : nat -> write_turn;
  static_events : list (event Z);
  first : env;
  dynamic_events : list (event env)
}.

(** The file system an outcome ends with, the deferred
    [os.RemoveAll(tempDir)] done when the function is left (by a
    return or by a panic). *)
Definition leave {S : Type} (t : nat) (o : outcome (S * fs))
  : outcome fs :=
  match o with
  | Returned (_, d) => Returned (removeAll t d)
  | Crashed (_, d) => Crashed (removeAll t d)
  | Running (_, d) => Running d
  end.

Definition GenerateLoad (size : Z) (r : run) (d : fs) : outcome fs :=
  match tempDir r with
  | None => Returned d
  | Some t =>
      let d := mkdirTemp t d in
      if size <? 0 then
        let percent := of_Z (Int64.neg size) in
        leave t (performDynamicStorageOperations t percent (first r)
                   (dynamic_events r) d).1
      else
        leave t (performStorageOperations t size (turns r)
                   (static_events r) d).1
  end.

End Storage.

(* ------------------------------------------------------------------ *)
(** ** main.go: the loads run side by side *)

Module Orchestrator.
Import Controller FileSystem.

(** The sizes [parseSize] returned for [--memory] and [--storage];
    [None] for a flag that is not given. *)
Record config : Type := {
  memory : option Z;
  storage : option Z
}.

(** What the goroutines meet.  They share the context and nothing
    else: each has its own turns. *)
Record world : Type := {
  memory_run : Memory.run;
  storage_run : Storage.run;
  disk : fs
}.

(** The goroutines [main] starts for the memory and the storage load,
    each with how it ends. *)
Definition run_loads (c : config) (w : world)
  : option (outcome Memory.state) * option (outcome fs) :=
  (size ← memory c; Some (Memory.GenerateLoad size (memory_run w)),
   size ← storage c;
     Some (Storage.GenerateLoad size (storage_run w) (disk w))).

End Orchestrator.

(* ------------------------------------------------------------------ *)
(** ** The target, in the specification's words *)

Module TargetSpec.
Import Float64.

(** "target = probe.freeBytes() * percent/100 * safetyFactor": the
    product in float64, made an integer at the end. *)
Definition spec_target (freeBytes : Z) (percent safetyFactor : float64)
  : Z :=
  to_int64 (mul (div (mul (of_Z freeBytes) percent) (of_Z 100))
              safetyFactor).

(** What the code computes: an integer after the percentage, and
    again after the safety factor. *)
Definition twice_truncated (freeBytes : Z) (percent safetyFactor : float64)
  : Z :=
  to_int64
    (mul (of_Z (to_int64 (div (mul (of_Z freeBytes) percent) (of_Z 100))))
       safetyFactor).

End TargetSpec.

(* ------------------------------------------------------------------ *)
(** ** Invariants of the controllers *)

Module Invariant.
Import Controller.

(** The memory controller's invariant: the tracked total is the sum
    of the lengths of the held buffers, every buffer is non-empty,
    buffer 0 is there, and the total is an int64. *)
Record memory (st : Memory.state) : Prop := {
  mem_total : Memory.totalAllocated st = sum_sizes (Memory.buffers st);
  mem_sizes : Forall (fun n => 0 < n) (Memory.buffers st);
  mem_floor : is_Some (Memory.buffers st !! O);
  mem_range : Memory.totalAllocated st <= Int64.max_int
}.

(** What the storage controller's list and the volume have to do
    with each other: the temporary directory exists, file 0 is
    listed, the listed files are distinct files of that directory
    numbered below the counter, and each is on the volume. *)
Record storage (t : nat) (w : Storage.state * FileSystem.fs) : Prop := {
  sto_dir : t ∈ FileSystem.dirs w.2;
  sto_floor : is_Some (Storage.currentFiles w.1 !! O);
  sto_names : forall p, p ∈ Storage.currentFiles w.1 ->
      exists i, p = (t, FileSystem.dynamic_file i)
                /\ (i < Storage.fileCounter w.1)%nat;
  sto_nodup : NoDup (Storage.currentFiles w.1);
  sto_files : forall p, p ∈ Storage.currentFiles w.1 ->
      exists sz, FileSystem.files w.2 !! p = Some sz /\ 0 <= sz
}.

(** The int64 arithmetic of a tick does not wrap around: the tracked
    total and the bytes on the volume are far from the ends of the
    range. *)
Record no_overflow (w : Storage.state * FileSystem.fs) : Prop := {
  total_nonneg : 0 <= Storage.totalWritten w.1;
  total_small : Storage.totalWritten w.1 <= Int64.max_int;
  usage_small :
    FileSystem.disk_usage w.2 (Storage.currentFiles w.1) <= Int64.max_int
}.

(** Two volumes that differ at most in the directory [t] and the
    files in it. *)
Record same_outside (t : nat) (d d' : FileSystem.fs) : Prop := {
  outside_files : forall q : FileSystem.path,
      q.1 <> t -> FileSystem.files d' !! q = FileSystem.files d !! q;
  outside_dirs : forall t' : nat,
      t' <> t -> (t' ∈ FileSystem.dirs d' <-> t' ∈ FileSystem.dirs d)
}.

(** File 0 is listed first and holds at least [least] bytes. *)
Definition floor_held (f0 : FileSystem.path) (least : Z)
    (w : Storage.state * FileSystem.fs) : Prop :=
  Storage.currentFiles w.1 !! O = Some f0
  /\ exists sz, FileSystem.files w.2 !! f0 = Some sz /\ least <= sz.

(** Every listed file is a file of the directory [t]. *)
Definition listed_in (t : nat) (st : Storage.state) : Prop :=
  forall p : FileSystem.path, p ∈ Storage.currentFiles st -> p.1 = t.

(** A volume with less than 8 EiB free, on which an append adds
    bytes. *)
Record sane_volume (e : Storage.env) : Prop := {
  volume_capacity :
    FileSystem.capacity (Storage.wvolume e) + FileSystem.bufferSize
    <= Int64.max_int;
  volume_appends : 0 <= Storage.appended e
}.

(** A turn of the static write loop that goes well: the context is
    not done, and the volume creates the file, takes [fileSize] bytes
    and syncs. *)
Record good_turn (fileSize : Z) (t : Storage.write_turn) : Prop := {
  turn_not_done : Storage.done_before t = false;
  turn_create : FileSystem.create_ok (Storage.volume t) = true;
  turn_capacity : fileSize <= FileSystem.capacity (Storage.volume t);
  turn_sync : FileSystem.sync_ok (Storage.volume t) = true
}.

(** The files of [paths] written with [fileSize] bytes each. *)
Definition written (fileSize : Z) (paths : list FileSystem.path)
    (m : gmap FileSystem.path Z) : gmap FileSystem.path Z :=
  foldl (fun m p => <[p := fileSize]> m) m paths.

End Invariant.

(* ------------------------------------------------------------------ *)
(** ** The sign of a float64 *)

Module Sign.
Import Float64.

(** A float that is not above zero: NaN, a zero, or one with the sign
    bit set; and one that is not below zero. *)
Definition not_above (x : float64) : Prop :=
  match x with
  | S754_finite s _ _ | S754_infinity s => s = true
  | _ => True
  end.

Definition not_below (x : float64) : Prop :=
  match x with
  | S754_finite s _ _ | S754_infinity s => s = false
  | _ => True
  end.

End Sign.

(* ------------------------------------------------------------------ *)
(** ** Runs used as examples *)

Module Example.
Import Controller FileSystem.

Definition GiB : Z := 1024 * 1024 * 1024.

(** [--memory 50%] and [--storage 50%] reach the controllers as
    [float64(50)]. *)
Definition percent50 : Float64.float64 := Float64.of_Z 50.

Definition mem_env (sys : Z) : Memory.env :=
  {| Memory.sys := sys; Memory.alloc_ok := true |}.

(** The memory controller after it started with 1 GiB in use by the
    runtime and then saw none in use: two buffers. *)
Definition mem_two : Memory.state :=
  {| Memory.buffers := [3570191564; 510027367];
     Memory.totalAllocated := 4080218931 |}.

Definition good_volume : write_env :=
  {| create_ok := true; capacity := 2 ^ 40; sync_ok := true |}.

(** The static write loop left alone: no cancellation, a willing
    volume. *)
Definition good_turns (i : nat) : Storage.write_turn :=
  {| Storage.done_before := false; Storage.volume := good_volume |}.

Definition sto_env (free : Z) : Storage.env :=
  {| Storage.freeSpace := Some free;
     Storage.wvolume := good_volume;
     Storage.remove_ok := fun _ => true;
     Storage.now := 1000;
     Storage.appended := 1024 |}.

Definition file0 : path := (7%nat, dynamic_file 0).
Definition file1 : path := (7%nat, dynamic_file 1).

(** A volume with the temporary directory 7 and nothing else. *)
Definition disk0 : fs := mkdirTemp 7 {| dirs := ∅; files := ∅ |}.

(** The storage controller holding one file of 450 bytes, and two
    files of 450 and 900 bytes. *)
Definition sto_one : Storage.state * fs :=
  ({| Storage.currentFiles := [file0];
      Storage.totalWritten := 450;
      Storage.fileCounter := 1 |},
   {| dirs := {[ 7%nat ]}; files := {[ file0 := 450 ]} |}).

Definition sto_two : Storage.state * fs :=
  ({| Storage.currentFiles := [file0; file1];
      Storage.totalWritten := 1350;
      Storage.fileCounter := 2 |},
   {| dirs := {[ 7%nat ]};
      files := <[ file1 := 900 ]> {[ file0 := 450 ]} |}).

Definition disk_empty : fs := {| dirs := ∅; files := ∅ |}.

(** [--storage 50%]: the controller starts with 1000 bytes free, sees
    3000 free at its first tick, and then the deadline. *)
Definition sto_run : Storage.run :=
  {| Storage.tempDir := Some 7%nat;
     Storage.turns := good_turns;
     Storage.static_events := [Done];
     Storage.first := sto_env 1000;
     Storage.dynamic_events := [Tick (sto_env 3000); Done] |}.

(** [--memory 50%]: one tick, then the deadline. *)
Definition mem_run : Memory.run :=
  {| Memory.first := mem_env GiB;
     Memory.dynamic_events := [Tick (mem_env 0); Done];
     Memory.static_events := [Done] |}.

(** A tick whose liveness step picks file 1 of two: the clock is
    odd. *)
Definition sto_env_odd (free : Z) : Storage.env :=
  {| Storage.freeSpace := Some free;
     Storage.wvolume := good_volume;
     Storage.remove_ok := fun _ => true;
     Storage.now := 1001;
     Storage.appended := 1024 |}.

End Example.

(* ------------------------------------------------------------------ *)
(** ** More volumes and turns for the examples *)

Module Scenario.
Import Controller FileSystem Example.

(** A volume that takes 1000 bytes more. *)
Definition small_volume : write_env :=
  {| create_ok := true; capacity := 1000; sync_ok := true |}.

(** A volume with another directory, 3, and a file of 7 bytes in it. *)
Definition other_file : path := (3%nat, static_file 0).
Definition disk_other : fs :=
  {| dirs := {[ 3%nat ]}; files := {[ other_file := 7 ]} |}.

(** A tick on a volume of which 3000 bytes are reported free, but
    which takes 500 bytes more. *)
Definition sto_env_full (free : Z) : Storage.env :=
  {| Storage.freeSpace := Some free;
     Storage.wvolume :=
       {| create_ok := true; capacity := 500; sync_ok := true |};
     Storage.remove_ok := fun _ => true;
     Storage.now := 1000;
     Storage.appended := 1024 |}.

(** Three files held, and a tick at which file 2 cannot be removed. *)
Definition file2 : path := (7%nat, dynamic_file 2).

Definition sto_three : Storage.state * fs :=
  ({| Storage.currentFiles := [file0; file1; file2];
      Storage.totalWritten := 1450;
      Storage.fileCounter := 3 |},
   {| dirs := {[ 7%nat ]};
      files := <[ file2 := 100 ]> (<[ file1 := 900 ]> {[ file0 := 450 ]}) |}).

Definition sto_env_locked (free : Z) : Storage.env :=
  {| Storage.freeSpace := Some free;
     Storage.wvolume := good_volume;
     Storage.remove_ok := fun p => negb (bool_decide (p = file2));
     Storage.now := 1000;
     Storage.appended := 1024 |}.

(** A static write loop whose context is done when it reaches file
    [c]. *)
Definition cancel_turns (c : nat) (i : nat) : Storage.write_turn :=
  {| Storage.done_before := (c <=? i)%nat; Storage.volume := good_volume |}.

End Scenario.

(* ================================================================== *)
(** * Properties *)

Module Int64Facts.
Import Int64.

Lemma wrap64_id (z : Z) : in_range z -> wrap64 z = z.
Proof.
  unfold in_range, min_int, max_int, wrap64. intros H.
  rewrite Z.mod_small; lia.
Qed.

Lemma wrap64_range (z : Z) : in_range (wrap64 z).
Proof.
  unfold in_range, min_int, max_int, wrap64.
  pose proof (Z.mod_pos_bound (z + 2 ^ 63) (2 ^ 64)). lia.
Qed.

Lemma add_id (a b : Z) : in_range (a + b) -> add a b = a + b.
Proof. apply wrap64_id. Qed.

Lemma sub_id (a b : Z) : in_range (a - b) -> sub a b = a - b.
Proof. apply wrap64_id. Qed.

End Int64Facts.

Module Float64Facts.
Import Float64.

Lemma to_int64_range (x : float64) : Int64.in_range (to_int64 x).
Proof.
  unfold to_int64, Int64.in_range.
  destruct (trunc x) as [z|]; [|unfold Int64.min_int, Int64.max_int; lia].
  destruct (Int64.min_int <=? z) eqn:H1; destruct (z <=? Int64.max_int) eqn:H2;
    simpl; unfold Int64.min_int, Int64.max_int in *; lia.
Qed.

End Float64Facts.

Module ControllerFacts.
Import Controller.

(** Membership in a list written with [::], [++] and [[ ]]. *)
Ltac elems :=
  rewrite ?elem_of_app, ?elem_of_cons, ?list_elem_of_singleton, ?elem_of_nil;
  auto; tauto.

Lemma sum_sizes_app (l1 l2 : list Z) :
  sum_sizes (l1 ++ l2) = sum_sizes l1 + sum_sizes l2.
Proof. induction l1 as [|a l1 IH]; simpl; [reflexivity | rewrite IH; lia]. Qed.

Lemma sum_sizes_pos (l : list Z) :
  Forall (fun n => 0 < n) l -> 0 <= sum_sizes l.
Proof. induction 1; simpl; lia. Qed.

(** A list of [S i] elements is its first [i] elements and the one at
    index [i]. *)
Lemma split_last {A} (l : list A) (i : nat) :
  length l = S i -> exists x, l !! i = Some x /\ l = take i l ++ [x].
Proof.
  intros Hlen.
  destruct (lookup_lt_is_Some_2 l i) as [x Hx]; [lia|].
  exists x. split; [exact Hx|].
  rewrite <- (take_drop i l) at 1. f_equal.
  erewrite drop_S by exact Hx.
  rewrite drop_ge by lia. reflexivity.
Qed.

End ControllerFacts.

Module MemoryFacts.
Import Controller Memory Int64Facts Float64Facts ControllerFacts.

Lemma mem_target_range (percent : Float64.float64) (s t : Z) :
  calculatePercentageSize percent s = inr t -> 0 < t <= Int64.max_int.
Proof.
  unfold calculatePercentageSize.
  destruct (_ <=? 0); [discriminate|].
  match goal with |- context [Float64.to_int64 ?x <=? 0] =>
    pose proof (to_int64_range x) as Hr;
    generalize dependent (Float64.to_int64 x)
  end.
  intros z Hr. destruct (z <=? 0) eqn:Hle; [discriminate|].
  intros [= <-]. apply Z.leb_gt in Hle.
  unfold Int64.in_range in Hr. lia.
Qed.

(** The release loop on a state that holds [S i] non-empty buffers:
    it runs without an index error, keeps a non-empty prefix of the
    buffers, keeps the total in step, and stops as soon as enough is
    released or buffer 0 alone is left. *)
Lemma release_spec (i : nat) :
  forall (excess released : Z) (st : state),
    length (buffers st) = S i ->
    Forall (fun n => 0 < n) (buffers st) ->
    totalAllocated st = sum_sizes (buffers st) ->
    0 <= released ->
    released + totalAllocated st <= Int64.max_int ->
    exists st' released',
      release i excess released st = Some (st', released')
      /\ (exists k, (1 <= k <= S i)%nat
                    /\ buffers st' = take k (buffers st)
                    /\ (forall j, (k < j <= S i)%nat ->
                          released + sum_sizes (drop j (buffers st)) < excess))
      /\ totalAllocated st' = sum_sizes (buffers st')
      /\ totalAllocated st' + released' = totalAllocated st + released
      /\ (excess <= released' \/ length (buffers st') = 1%nat)
      /\ (released < excess -> (1 <= i)%nat ->
          (length (buffers st') <= i)%nat).
Proof.
  induction i as [|i IH]; intros excess released st Hlen Hpos Hsum Hrel Hmax.
  - exists st, released. simpl. split; [reflexivity|].
    split.
    { exists 1%nat. split; [lia|]. split.
      - rewrite take_ge; [reflexivity | lia].
      - intros j Hj. lia. }
    repeat split; lia.
  - simpl release. destruct (released <? excess) eqn:Hlt.
    + destruct (split_last (buffers st) (S i) Hlen) as (x & Hx & Hl).
      rewrite Hx. simpl.
      assert (Hpos' : Forall (fun n => 0 < n) (take (S i) (buffers st)) /\ 0 < x).
      { rewrite Hl in Hpos. apply Forall_app in Hpos as [H1 H2].
        split; [exact H1|]. inversion H2; assumption. }
      destruct Hpos' as [Hpos1 Hx0].
      assert (Hs : sum_sizes (buffers st)
                   = sum_sizes (take (S i) (buffers st)) + x).
      { rewrite Hl at 1. rewrite sum_sizes_app. simpl. lia. }
      pose proof (sum_sizes_pos _ Hpos1) as Hnn.
      assert (Ha : Int64.add released x = released + x).
      { apply add_id. unfold Int64.in_range, Int64.min_int, Int64.max_int in *. lia. }
      assert (Hb : Int64.sub (totalAllocated st) x = totalAllocated st - x).
      { apply sub_id. unfold Int64.in_range, Int64.min_int, Int64.max_int in *. lia. }
      rewrite Ha, Hb.
      set (st1 := {| buffers := take (S i) (buffers st);
                     totalAllocated := totalAllocated st - x |}).
      destruct (IH excess (released + x) st1) as
        (st' & rel' & Hr & (k & Hk & Hpre & Hmin) & Hsum' & Htot & Hstop & Hdec).
      { simpl. rewrite length_take. lia. }
      { exact Hpos1. }
      { simpl. lia. }
      { lia. }
      { simpl. lia. }
      exists st', rel'. split; [exact Hr|].
      split.
      { exists k. split; [lia|]. split.
        - rewrite Hpre. simpl. rewrite take_take. f_equal. lia.
        - intros j Hj. destruct (decide (j = S (S i))) as [->|Hne].
          + rewrite drop_ge by lia. simpl. apply Z.ltb_lt in Hlt. lia.
          + specialize (Hmin j ltac:(lia)). simpl in Hmin.
            rewrite Hl at 1. rewrite drop_app_le by (rewrite length_take; lia).
            rewrite sum_sizes_app. simpl. lia. }
      simpl in Htot.
      repeat split; try lia; try assumption.
      intros _ _. destruct Hk as [_ Hk].
      rewrite Hpre. simpl. rewrite length_take, length_take. lia.
    + exists st, released. split; [reflexivity|].
      apply Z.ltb_ge in Hlt.
      split.
      { exists (S (S i)). split; [lia|]. split.
        - rewrite take_ge; [reflexivity | lia].
        - intros j Hj. lia. }
      repeat split; try lia.
Qed.

(** A shrinking tick of the memory controller. *)
Lemma mem_tick_shrink (percent : Float64.float64) (e : env) (st : state)
    (target : Z) :
  Invariant.memory st ->
  calculatePercentageSize percent (sys e) = inr target ->
  target < totalAllocated st ->
  (2 <= length (buffers st))%nat ->
  exists st',
    tick percent e st = Some st'
    /\ (exists k, (1 <= k < length (buffers st))%nat
          /\ buffers st' = take k (buffers st)
          /\ (forall j, (k < j <= length (buffers st))%nat ->
                sum_sizes (drop j (buffers st)) < totalAllocated st - target))
    /\ totalAllocated st' = sum_sizes (buffers st')
    /\ (totalAllocated st' <= target \/ length (buffers st') = 1%nat)
    /\ (length (buffers st') < length (buffers st))%nat
    /\ buffers st' !! O = buffers st !! O.
Proof.
  intros [Htot Hpos _ Hmax] Hcalc Hlt Hlen.
  pose proof (mem_target_range _ _ _ Hcalc) as Ht.
  pose proof (sum_sizes_pos _ Hpos) as Hnn.
  unfold tick. rewrite Hcalc.
  destruct (totalAllocated st <? target) eqn:H1;
    [apply Z.ltb_lt in H1; lia|].
  destruct (target <? totalAllocated st) eqn:H2;
    [|apply Z.ltb_ge in H2; lia].
  destruct (1 <? length (buffers st))%nat eqn:H3;
    [|apply Nat.ltb_ge in H3; lia].
  simpl andb. cbv iota.
  assert (Hex : Int64.sub (totalAllocated st) target = totalAllocated st - target).
  { apply sub_id. unfold Int64.in_range, Int64.min_int, Int64.max_int in *. lia. }
  rewrite Hex.
  destruct (release_spec (length (buffers st) - 1) (totalAllocated st - target)
              0 st) as (st' & rel' & Hr & (k & Hk & Hpre & Hmin) & Hsum' & Hbal
                        & Hstop & Hdec); try assumption; try lia.
  exists st'. rewrite Hr. split; [reflexivity|].
  specialize (Hdec ltac:(lia) ltac:(lia)).
  assert (Hk' : (k < length (buffers st))%nat).
  { rewrite Hpre, length_take in Hdec. lia. }
  split.
  { exists k. split; [lia|]. split; [exact Hpre|].
    intros j Hj. specialize (Hmin j ltac:(lia)). lia. }
  split; [exact Hsum'|].
  split; [destruct Hstop; [left; lia | right; assumption]|].
  split; [lia|].
  rewrite Hpre. apply lookup_take_lt. lia.
Qed.

(** A growing tick of the memory controller. *)
Lemma mem_tick_grow (percent : Float64.float64) (e : env) (st : state)
    (target : Z) :
  Invariant.memory st ->
  calculatePercentageSize percent (sys e) = inr target ->
  totalAllocated st < target ->
  alloc_ok e = true ->
  tick percent e st
  = Some {| buffers := buffers st ++ [target - totalAllocated st];
            totalAllocated := target |}.
Proof.
  intros [Htot Hpos _ Hmax] Hcalc Hlt Hok.
  pose proof (mem_target_range _ _ _ Hcalc) as Ht.
  pose proof (sum_sizes_pos _ Hpos) as Hnn.
  unfold tick. rewrite Hcalc.
  destruct (totalAllocated st <? target) eqn:H1;
    [|apply Z.ltb_ge in H1; lia].
  assert (Hs : Int64.sub target (totalAllocated st) = target - totalAllocated st).
  { apply sub_id. unfold Int64.in_range, Int64.min_int, Int64.max_int in *. lia. }
  rewrite Hs.
  destruct (0 <? target - totalAllocated st) eqn:H2;
    [|apply Z.ltb_ge in H2; lia].
  unfold allocate. rewrite Hok.
  rewrite add_id
    by (unfold Int64.in_range, Int64.min_int, Int64.max_int in *; lia).
  do 2 f_equal. lia.
Qed.

(** A tick either leaves the buffers alone, or appends one buffer, or
    keeps a proper prefix of them: it never does two of these. *)
Lemma tick_cases (percent : Float64.float64) (e : env) (st st' : state) :
  Invariant.memory st ->
  tick percent e st = Some st' ->
  st' = st
  \/ (exists n, 0 < n /\ buffers st' = buffers st ++ [n]
                /\ totalAllocated st' = totalAllocated st + n
                /\ totalAllocated st' <= Int64.max_int)
  \/ (exists k, (1 <= k < length (buffers st))%nat
                /\ buffers st' = take k (buffers st)
                /\ totalAllocated st' = sum_sizes (buffers st')).
Proof.
  intros Hinv Htick.
  destruct (calculatePercentageSize percent (sys e)) as [err|target] eqn:Hcalc.
  { unfold tick in Htick. rewrite Hcalc in Htick. left. congruence. }
  pose proof (mem_target_range _ _ _ Hcalc) as Ht.
  destruct (Z.lt_trichotomy (totalAllocated st) target) as [Hlt|[Heq|Hgt]].
  - destruct (alloc_ok e) eqn:Hok.
    + rewrite (mem_tick_grow percent e st target Hinv Hcalc Hlt Hok) in Htick.
      injection Htick as <-. right. left.
      exists (target - totalAllocated st). simpl. repeat split; lia.
    + exfalso. revert Htick. unfold tick, allocate. rewrite Hcalc, Hok.
      destruct (totalAllocated st <? target) eqn:H1;
        [|apply Z.ltb_ge in H1; lia].
      destruct (0 <? _) eqn:H0; [discriminate|].
      destruct Hinv as [Htot Hpos _ Hmax].
      pose proof (sum_sizes_pos _ Hpos).
      rewrite sub_id in H0
        by (unfold Int64.in_range, Int64.min_int, Int64.max_int in *; lia).
      apply Z.ltb_ge in H0. lia.
  - left. revert Htick. unfold tick. rewrite Hcalc, Heq, Z.ltb_irrefl.
    simpl. congruence.
  - destruct (le_lt_dec 2 (length (buffers st))) as [Hlen|Hlen].
    + destruct (mem_tick_shrink percent e st target Hinv Hcalc Hgt Hlen)
        as (st2 & Hst2 & (k & Hk & Hpre & _) & Hsum & _).
      rewrite Hst2 in Htick. injection Htick as <-.
      right. right. exists k. auto.
    + left. revert Htick. unfold tick. rewrite Hcalc.
      destruct (_ <? target) eqn:H1; [apply Z.ltb_lt in H1; lia|].
      destruct (1 <? length (buffers st))%nat eqn:H3;
        [apply Nat.ltb_lt in H3; lia|].
      rewrite andb_false_r. congruence.
Qed.

Lemma tick_preserves (percent : Float64.float64) (e : env)
    (st st' : state) :
  Invariant.memory st ->
  tick percent e st = Some st' ->
  Invariant.memory st'.
Proof.
  intros Hinv Htick.
  destruct (tick_cases percent e st st' Hinv Htick)
    as [->|[(n & Hn & Hb & Ht & Hm)|(k & Hk & Hb & Ht)]]; [exact Hinv| |];
    destruct Hinv as [Htot Hpos [b0 Hb0] Hmax].
  - split.
    + rewrite Hb, sum_sizes_app, Ht, Htot. simpl. lia.
    + rewrite Hb. apply Forall_app. split; [exact Hpos|].
      constructor; [exact Hn | constructor].
    + exists b0. rewrite Hb. apply lookup_app_l_Some. exact Hb0.
    + exact Hm.
  - assert (Hpos' : Forall (fun n => 0 < n) (drop k (buffers st)))
      by (apply Forall_drop; exact Hpos).
    pose proof (sum_sizes_pos _ Hpos') as Hd.
    assert (Hsplit : sum_sizes (buffers st)
                     = sum_sizes (take k (buffers st))
                       + sum_sizes (drop k (buffers st))).
    { rewrite <- sum_sizes_app, take_drop. reflexivity. }
    split.
    + exact Ht.
    + rewrite Hb. apply Forall_take. exact Hpos.
    + exists b0. rewrite Hb, lookup_take_lt by lia. exact Hb0.
    + rewrite Ht, Hb. lia.
Qed.

Lemma initialize_establishes (percent : Float64.float64) (e : env)
    (st : state) :
  initialize percent e = inr (Some st) -> Invariant.memory st.
Proof.
  unfold initialize.
  destruct (calculatePercentageSize percent (sys e)) as [err|t] eqn:Hcalc;
    [discriminate|].
  pose proof (mem_target_range _ _ _ Hcalc) as Ht.
  destruct (0 <? t) eqn:H0; [|apply Z.ltb_ge in H0; lia].
  unfold allocate. destruct (alloc_ok e); [|discriminate].
  intros [= <-]. split; simpl.
  - lia.
  - constructor; [lia | constructor].
  - eexists; reflexivity.
  - lia.
Qed.

Lemma loop_preserves (percent : Float64.float64)
    (evs : list (event env)) :
  forall st st', Invariant.memory st ->
    loop percent evs st = Running st' -> Invariant.memory st'.
Proof.
  induction evs as [|[|e] evs IH]; intros st st' Hinv; simpl.
  - intros [= <-]. exact Hinv.
  - discriminate.
  - destruct (tick percent e st) as [st1|] eqn:Ht; [|discriminate].
    apply IH. eapply tick_preserves; eassumption.
Qed.

End MemoryFacts.

Module FileSystemFacts.
Import FileSystem Int64Facts.

(** A [writeFile] loop that reports no error has written exactly
    [size] bytes. *)
Lemma write_chunks_true (fuel : nat) :
  forall (cap size written w' : Z),
    0 <= written <= size ->
    size + bufferSize <= Int64.max_int ->
    size - written < Z.of_nat fuel * bufferSize ->
    write_chunks fuel cap size written = (w', true) ->
    w' = size.
Proof.
  unfold bufferSize.
  induction fuel as [|fuel IH]; intros cap size written w' Hw Hmax Hfuel.
  - simpl in Hfuel. lia.
  - simpl write_chunks. unfold bufferSize.
    destruct (written <? size) eqn:Hlt.
    + apply Z.ltb_lt in Hlt.
      rewrite add_id
        by (unfold Int64.in_range, Int64.min_int, Int64.max_int in *; lia).
      rewrite sub_id
        by (unfold Int64.in_range, Int64.min_int, Int64.max_int in *; lia).
      destruct (size <? written + 64 * 1024) eqn:Hc.
      * apply Z.ltb_lt in Hc.
        destruct (size - written <=? cap); [|discriminate].
        rewrite add_id
          by (unfold Int64.in_range, Int64.min_int, Int64.max_int in *; lia).
        replace (written + (size - written)) with size by lia.
        destruct fuel; simpl; [congruence|].
        rewrite Z.ltb_irrefl. congruence.
      * apply Z.ltb_ge in Hc.
        destruct (64 * 1024 <=? cap); [|discriminate].
        rewrite add_id
          by (unfold Int64.in_range, Int64.min_int, Int64.max_int in *; lia).
        apply IH; lia.
    + apply Z.ltb_ge in Hlt. intros [= <-]. lia.
Qed.

(** With room for [size] bytes the loop writes them all. *)
Lemma write_chunks_ok (fuel : nat) :
  forall (cap size written : Z),
    0 <= written <= size ->
    size + bufferSize <= Int64.max_int ->
    size - written < Z.of_nat fuel * bufferSize ->
    size - written <= cap ->
    write_chunks fuel cap size written = (size, true).
Proof.
  unfold bufferSize.
  induction fuel as [|fuel IH]; intros cap size written Hw Hmax Hfuel Hcap.
  - simpl in Hfuel. lia.
  - simpl write_chunks. unfold bufferSize.
    destruct (written <? size) eqn:Hlt.
    + apply Z.ltb_lt in Hlt.
      rewrite add_id
        by (unfold Int64.in_range, Int64.min_int, Int64.max_int in *; lia).
      rewrite sub_id
        by (unfold Int64.in_range, Int64.min_int, Int64.max_int in *; lia).
      destruct (size <? written + 64 * 1024) eqn:Hc.
      * apply Z.ltb_lt in Hc.
        destruct (size - written <=? cap) eqn:Hcc; [|apply Z.leb_gt in Hcc; lia].
        rewrite add_id
          by (unfold Int64.in_range, Int64.min_int, Int64.max_int in *; lia).
        replace (written + (size - written)) with size by lia.
        destruct fuel; simpl; [reflexivity|].
        rewrite Z.ltb_irrefl. reflexivity.
      * apply Z.ltb_ge in Hc.
        destruct (64 * 1024 <=? cap) eqn:Hcc; [|apply Z.leb_gt in Hcc; lia].
        rewrite add_id
          by (unfold Int64.in_range, Int64.min_int, Int64.max_int in *; lia).
        apply IH; lia.
    + apply Z.ltb_ge in Hlt. f_equal. lia.
Qed.

Lemma chunks_needed_enough (size : Z) :
  0 <= size -> size < Z.of_nat (chunks_needed size) * bufferSize.
Proof.
  intros H. unfold chunks_needed, bufferSize.
  pose proof (Z.div_pos size (64 * 1024) H ltac:(lia)).
  rewrite Z2Nat.id by lia.
  pose proof (Z.mod_pos_bound size (64 * 1024) ltac:(lia)).
  pose proof (Z.div_mod size (64 * 1024) ltac:(lia)). lia.
Qed.

(** [writeFile] without an error leaves a file of [size] bytes at [p]
    and touches nothing else. *)
Lemma writeFile_true (w : write_env) (p : path) (size : Z) (d d' : fs) :
  0 <= size -> size + bufferSize <= Int64.max_int ->
  writeFile w p size d = (d', true) ->
  d' = {| dirs := dirs d; files := <[p := size]> (files d) |}.
Proof.
  intros H0 Hmax. unfold writeFile.
  destruct (create_ok w && _); [|discriminate].
  destruct (write_chunks _ _ _ _) as [written ok] eqn:Hwc.
  destruct ok; simpl; [|discriminate].
  apply write_chunks_true in Hwc;
    [subst written | lia | assumption
     | pose proof (chunks_needed_enough size H0); lia].
  destruct (sync_ok w); [|discriminate]. congruence.
Qed.

Lemma writeFile_ok (w : write_env) (p : path) (size : Z) (d : fs) :
  0 <= size -> size + bufferSize <= Int64.max_int ->
  create_ok w = true -> p.1 ∈ dirs d -> size <= capacity w ->
  sync_ok w = true ->
  writeFile w p size d
  = ({| dirs := dirs d; files := <[p := size]> (files d) |}, true).
Proof.
  intros H0 Hmax Hc Hd Hcap Hs. unfold writeFile.
  rewrite Hc, bool_decide_eq_true_2 by exact Hd. simpl.
  rewrite write_chunks_ok;
    [rewrite Hs; reflexivity | lia | assumption
     | pose proof (chunks_needed_enough size H0); lia | lia].
Qed.

(** Whatever happens, [writeFile] changes at most the file [p]. *)
Lemma writeFile_frame (w : write_env) (p q : path) (size : Z) (d : fs) :
  q <> p -> files (writeFile w p size d).1 !! q = files d !! q.
Proof.
  intros Hne. unfold writeFile.
  destruct (create_ok w && _); [|reflexivity].
  destruct (write_chunks _ _ _ _) as [written ok]. simpl.
  apply lookup_insert_ne. congruence.
Qed.

Lemma writeFile_dirs (w : write_env) (p : path) (size : Z) (d : fs) :
  dirs (writeFile w p size d).1 = dirs d.
Proof.
  unfold writeFile. destruct (create_ok w && _); [|reflexivity].
  destruct (write_chunks _ _ _ _) as [written ok]. reflexivity.
Qed.

End FileSystemFacts.

Module StaticStorageFacts.
Import Controller FileSystem Storage Int64Facts FileSystemFacts.
Import ControllerFacts.

Lemma fileSize_of_max (totalSize : Z) :
  0 <= totalSize <= Int64.max_int ->
  fileSize_of totalSize = Z.max (totalSize / 10) (1024 * 1024).
Proof.
  intros H. unfold fileSize_of, Int64.quot, numFiles, chunkSize.
  change (Z.of_nat 10) with 10.
  rewrite Z.quot_div_nonneg by lia.
  pose proof (Z.div_pos totalSize 10 ltac:(lia) ltac:(lia)) as H0.
  pose proof (Z.div_le_upper_bound totalSize 10 totalSize ltac:(lia) ltac:(lia)) as H1.
  rewrite wrap64_id
    by (unfold Int64.in_range, Int64.min_int, Int64.max_int in *; lia).
  destruct (totalSize / 10 <? 1024 * 1024) eqn:Hc;
    [apply Z.ltb_lt in Hc | apply Z.ltb_ge in Hc]; lia.
Qed.

Lemma written_lookup (fileSize : Z) (paths : list path) :
  forall (m : gmap path Z) (q : path),
    Invariant.written fileSize paths m !! q
    = if bool_decide (q ∈ paths) then Some fileSize else m !! q.
Proof.
  unfold Invariant.written.
  induction paths as [|p paths IH]; intros m q.
  - rewrite bool_decide_eq_false_2 by apply not_elem_of_nil. reflexivity.
  - cbn [foldl]. rewrite IH.
    destruct (decide (q ∈ paths)) as [Hq|Hq].
    + rewrite !bool_decide_eq_true_2 by elems. reflexivity.
    + rewrite (bool_decide_eq_false_2 (q ∈ paths)) by exact Hq.
      destruct (decide (q = p)) as [->|Hne].
      * rewrite bool_decide_eq_true_2 by elems. apply lookup_insert_eq.
      * rewrite bool_decide_eq_false_2 by elems.
        apply lookup_insert_ne. congruence.
Qed.

(** The write loop, every turn going well, runs to its end and writes
    every path with [fileSize] bytes. *)
Lemma write_phase_ok (fileSize : Z) (turns : nat -> write_turn)
    (paths : list path) :
  forall (i : nat) (d : fs),
    0 <= fileSize -> fileSize + bufferSize <= Int64.max_int ->
    (forall j, (i <= j < i + length paths)%nat ->
               Invariant.good_turn fileSize (turns j)) ->
    (forall p, p ∈ paths -> p.1 ∈ dirs d) ->
    write_phase fileSize turns i paths d
    = ({| dirs := dirs d;
          files := Invariant.written fileSize paths (files d) |},
       Completed).
Proof.
  induction paths as [|p paths IH]; intros i d H0 Hmax Hgood Hdir.
  - simpl. destruct d; reflexivity.
  - simpl write_phase.
    destruct (Hgood i ltac:(simpl; lia)) as [Hnd Hc Hcap Hs].
    rewrite Hnd, writeFile_ok; try assumption;
      [|apply Hdir; elems].
    rewrite IH; try assumption.
    + reflexivity.
    + intros j Hj. apply Hgood. simpl. lia.
    + intros q Hq. simpl. apply Hdir. elems.
Qed.

Lemma filePaths_length (t : nat) : length (filePaths t) = 10%nat.
Proof. reflexivity. Qed.

Lemma filePaths_NoDup (t : nat) : NoDup (filePaths t).
Proof.
  unfold filePaths. apply NoDup_fmap_2.
  - intros i j [= ->]. reflexivity.
  - apply NoDup_seq.
Qed.

Lemma disk_usage_const (d : fs) (c : Z) (l : list path) :
  (forall p, p ∈ l -> files d !! p = Some c) ->
  disk_usage d l = Z.of_nat (length l) * c.
Proof.
  unfold disk_usage. induction l as [|p l IH]; intros H.
  - simpl. lia.
  - cbn [map sum_sizes fold_right length]. fold (sum_sizes (map (size_at d) l)).
    rewrite IH by (intros q Hq; apply H; elems).
    unfold size_at. rewrite (H p) by elems. simpl default. lia.
Qed.

End StaticStorageFacts.

Module DynamicStorageFacts.
Import Controller FileSystem Storage.
Import Int64Facts Float64Facts ControllerFacts FileSystemFacts.

Lemma sto_target_range (percent : Float64.float64) (f : option Z) (t : Z) :
  calculatePercentageSize percent f = inr t -> 0 < t <= Int64.max_int.
Proof.
  unfold calculatePercentageSize. destruct f as [f|]; [|discriminate].
  match goal with |- context [Float64.to_int64 ?x <=? 0] =>
    pose proof (to_int64_range x) as Hr;
    generalize dependent (Float64.to_int64 x)
  end.
  intros z Hr. destruct (z <=? 0) eqn:Hle; [discriminate|].
  intros [= <-]. apply Z.leb_gt in Hle.
  unfold Int64.in_range in Hr. lia.
Qed.

Lemma disk_usage_ext (d1 d2 : fs) (l : list path) :
  (forall p, p ∈ l -> files d1 !! p = files d2 !! p) ->
  disk_usage d1 l = disk_usage d2 l.
Proof.
  unfold disk_usage. induction l as [|p l IH]; intros H; simpl.
  - reflexivity.
  - rewrite IH by (intros q Hq; apply H; elems).
    unfold size_at. rewrite (H p) by elems. reflexivity.
Qed.

Lemma disk_usage_app (d : fs) (l1 l2 : list path) :
  disk_usage d (l1 ++ l2) = disk_usage d l1 + disk_usage d l2.
Proof. unfold disk_usage. rewrite map_app. apply sum_sizes_app. Qed.

Lemma disk_usage_nonneg (d : fs) (l : list path) :
  (forall p, p ∈ l -> exists sz, files d !! p = Some sz /\ 0 <= sz) ->
  0 <= disk_usage d l.
Proof.
  unfold disk_usage. induction l as [|p l IH]; intros H; simpl.
  - lia.
  - destruct (H p) as (sz & Hsz & H0); [elems|].
    unfold size_at at 1. rewrite Hsz. simpl.
    specialize (IH ltac:(intros q Hq; apply H; elems)). lia.
Qed.

Lemma lookup_after_remove (m : gmap path Z) (x q : path) (l : list path) :
  (if bool_decide (q ∈ l) then None else files (remove x {| dirs := ∅; files := m |}) !! q)
  = (if bool_decide (q ∈ l ++ [x]) then None else m !! q).
Proof.
  simpl. destruct (decide (q ∈ l)) as [Hq|Hq].
  - rewrite !bool_decide_eq_true_2 by elems. reflexivity.
  - rewrite (bool_decide_eq_false_2 (q ∈ l)) by exact Hq.
    destruct (decide (q = x)) as [->|Hne].
    + rewrite bool_decide_eq_true_2 by elems. apply lookup_delete_eq.
    + rewrite bool_decide_eq_false_2 by elems.
      apply lookup_delete_ne. congruence.
Qed.

Lemma disk_usage_single (d : fs) (p : path) (sz : Z) :
  files d !! p = Some sz -> disk_usage d [p] = sz.
Proof.
  intros H. unfold disk_usage, size_at. simpl. rewrite H. simpl. lia.
Qed.

(** The deletion loop on [S i] listed files that are all on the
    volume and all removable: no index error; a non-empty prefix of
    the list is kept and exactly the dropped files leave the volume;
    the tracked total goes down by their sizes; the loop stops as
    soon as enough is deleted or file 0 alone is left. *)
Lemma delete_files_spec (e : env) (i : nat) :
  forall (excess deleted : Z) (st : state) (d : fs),
    length (currentFiles st) = S i ->
    NoDup (currentFiles st) ->
    (forall p, p ∈ currentFiles st ->
       exists sz, files d !! p = Some sz /\ 0 <= sz) ->
    (forall p, p ∈ currentFiles st -> remove_ok e p = true) ->
    0 <= deleted ->
    deleted + disk_usage d (currentFiles st) <= Int64.max_int ->
    Int64.min_int <= totalWritten st - disk_usage d (currentFiles st) ->
    totalWritten st <= Int64.max_int ->
    exists st' d' deleted',
      delete_files e i excess deleted (st, d) = Some (st', d', deleted')
      /\ (exists k, (1 <= k <= S i)%nat
            /\ currentFiles st' = take k (currentFiles st)
            /\ (forall j, (k < j <= S i)%nat ->
                  deleted + disk_usage d (drop j (currentFiles st)) < excess)
            /\ deleted' = deleted + disk_usage d (drop k (currentFiles st))
            /\ (forall q, files d' !! q
                   = if bool_decide (q ∈ drop k (currentFiles st))
                     then None else files d !! q))
      /\ dirs d' = dirs d
      /\ fileCounter st' = fileCounter st
      /\ totalWritten st' + deleted' = totalWritten st + deleted
      /\ (excess <= deleted' \/ length (currentFiles st') = 1%nat)
      /\ (deleted < excess -> (1 <= i)%nat ->
          (length (currentFiles st') <= i)%nat).
Proof.
  induction i as [|i IH];
    intros excess deleted st d Hlen Hnd Hfiles Hrm Hdel Hmax Hmin Htot.
  - exists st, d, deleted. simpl. split; [reflexivity|].
    split.
    { exists 1%nat. split; [lia|]. split; [rewrite take_ge; [reflexivity|lia]|].
      split; [intros j Hj; lia|].
      rewrite drop_ge by lia. split; [unfold disk_usage; simpl; lia|].
      intros q. rewrite bool_decide_eq_false_2 by apply not_elem_of_nil.
      reflexivity. }
    repeat split; lia.
  - simpl delete_files. destruct (deleted <? excess) eqn:Hlt.
    + apply Z.ltb_lt in Hlt.
      destruct (split_last (currentFiles st) (S i) Hlen) as (x & Hx & Hl).
      set (l' := take (S i) (currentFiles st)) in *.
      rewrite Hx. simpl.
      assert (Hxl : x ∈ currentFiles st) by (rewrite Hl; elems).
      destruct (Hfiles x Hxl) as (sz & Hsz & Hsz0).
      unfold stat. rewrite Hsz, (Hrm x Hxl).
      assert (Hnd' : NoDup l' /\ x ∉ l').
      { rewrite Hl in Hnd. apply NoDup_app in Hnd as (H1 & H2 & _).
        split; [exact H1|]. intros Hin. apply (H2 x Hin). elems. }
      destruct Hnd' as [Hnd' Hxn].
      assert (Hsub : forall p, p ∈ l' -> p ∈ currentFiles st)
        by (intros p Hp; rewrite Hl; elems).
      assert (Hext : forall p, p ∈ l' ->
                files (remove x d) !! p = files d !! p).
      { intros p Hp. simpl. apply lookup_delete_ne. intros ->. auto. }
      assert (Hu : disk_usage d (currentFiles st) = disk_usage d l' + sz).
      { rewrite Hl at 1. rewrite disk_usage_app.
        rewrite (disk_usage_single d x sz Hsz). reflexivity. }
      assert (Hu0 : 0 <= disk_usage d l')
        by (apply disk_usage_nonneg; intros p Hp; apply Hfiles, Hsub, Hp).
      rewrite add_id
        by (unfold Int64.in_range, Int64.min_int, Int64.max_int in *; lia).
      rewrite sub_id
        by (unfold Int64.in_range, Int64.min_int, Int64.max_int in *; lia).
      set (st1 := {| currentFiles := l';
                     totalWritten := totalWritten st - sz;
                     fileCounter := fileCounter st |}).
      destruct (IH excess (deleted + sz) st1 (remove x d)) as
        (st' & d' & del' & Hr & (k & Hk & Hpre & Hstep & Hdel' & Hfs)
         & Hdirs & Hcnt & Hbal & Hstop & Hdec).
      { simpl. unfold l'. rewrite length_take. lia. }
      { exact Hnd'. }
      { intros p Hp. rewrite (Hext p Hp). apply Hfiles, Hsub, Hp. }
      { intros p Hp. apply Hrm, Hsub, Hp. }
      { lia. }
      { change (currentFiles st1) with l'.
        rewrite (disk_usage_ext _ d) by exact Hext. lia. }
      { change (currentFiles st1) with l'. change (totalWritten st1) with (totalWritten st - sz).
        rewrite (disk_usage_ext _ d) by exact Hext. lia. }
      { simpl. lia. }
      assert (Hdrop : forall j, (j <= S i)%nat ->
                drop j (currentFiles st) = drop j l' ++ [x]).
      { intros j Hj. rewrite Hl at 1. apply drop_app_le.
        unfold l'. rewrite length_take. lia. }
      assert (Hin : forall j p, p ∈ drop j l' -> p ∈ l').
      { intros j p Hp. rewrite <- (take_drop j l'). elems. }
      assert (Hext' : forall j,
                disk_usage (remove x d) (drop j l') = disk_usage d (drop j l')).
      { intros j. apply disk_usage_ext. intros p Hp. eapply Hext, Hin, Hp. }
      assert (Hud : forall j, (j <= S i)%nat ->
                disk_usage d (drop j (currentFiles st))
                = disk_usage d (drop j l') + sz).
      { intros j Hj. rewrite (Hdrop j Hj), disk_usage_app.
        rewrite (disk_usage_single d x sz Hsz). reflexivity. }
      change (currentFiles st1) with l' in *.
      change (totalWritten st1) with (totalWritten st - sz) in *.
      change (fileCounter st1) with (fileCounter st) in *.
      exists st', d', del'. split; [exact Hr|].
      split.
      { exists k. split; [lia|]. split.
        { rewrite Hpre. unfold l'. rewrite take_take. f_equal. lia. }
        split.
        { intros j Hj. destruct (decide (j = S (S i))) as [->|Hne].
          - rewrite drop_ge by lia. unfold disk_usage. simpl. lia.
          - rewrite Hud by lia. specialize (Hstep j ltac:(lia)).
            rewrite Hext' in Hstep. lia. }
        split.
        { rewrite Hud by lia. rewrite Hext' in Hdel'. lia. }
        intros q. rewrite Hfs, (Hdrop k) by lia.
        apply lookup_after_remove. }
      split; [rewrite Hdirs; reflexivity|].
      split; [exact Hcnt|].
      split; [lia|].
      split; [exact Hstop|].
      intros _ _. rewrite Hpre, length_take. unfold l'. rewrite length_take. lia.
    + apply Z.ltb_ge in Hlt.
      exists st, d, deleted. split; [reflexivity|].
      split.
      { exists (S (S i)). split; [lia|].
        split; [rewrite take_ge; [reflexivity|lia]|].
        split; [intros j Hj; lia|].
        rewrite drop_ge by lia.
        split; [unfold disk_usage; simpl; lia|].
        intros q. rewrite bool_decide_eq_false_2 by apply not_elem_of_nil.
      reflexivity. }
      repeat split; lia.
Qed.

(** The liveness step changes no variable of the controller and no
    directory, and with a clock that is not before 1970 it does not
    panic. *)
Lemma liveness_state (e : env) (w w' : state * fs) :
  liveness e w = Some w' -> w'.1 = w.1 /\ dirs w'.2 = dirs w.2.
Proof.
  destruct w as [st d]. unfold liveness.
  destruct (currentFiles st) as [|p l]; [intros [= <-]; auto|].
  destruct (_ <? 0); [discriminate|].
  destruct (_ !! _) as [q|]; simpl; [|discriminate].
  intros [= <-]. simpl. split; [reflexivity|].
  unfold appendToFile. destruct (files d !! q); reflexivity.
Qed.

Lemma liveness_runs (e : env) (w : state * fs) :
  0 <= now e -> is_Some (liveness e w).
Proof.
  intros Hnow. destruct w as [st d]. unfold liveness.
  destruct (currentFiles st) as [|p l] eqn:Hl; [eexists; reflexivity|].
  set (n := Z.of_nat (length (p :: l))).
  assert (Hn : 0 < n) by (unfold n; simpl; lia).
  pose proof (Z.rem_bound_pos (now e) n Hnow Hn) as Hb.
  generalize dependent (Z.rem (now e) n). intros r Hb.
  destruct (r <? 0) eqn:Hneg; [apply Z.ltb_lt in Hneg; lia|].
  destruct (lookup_lt_is_Some_2 (p :: l) (Z.to_nat r))
    as [q Hq]; [unfold n in Hb; lia|].
  rewrite Hq. simpl. eexists; reflexivity.
Qed.

(** A shrinking adjustment of the storage controller. *)
Lemma adjust_shrink (t : nat) (percent : Float64.float64) (e : env)
    (st : state) (d : fs) (target : Z) :
  Invariant.storage t (st, d) ->
  Invariant.no_overflow (st, d) ->
  (forall p, p ∈ currentFiles st -> remove_ok e p = true) ->
  calculatePercentageSize percent (freeSpace e) = inr target ->
  target < totalWritten st ->
  (2 <= length (currentFiles st))%nat ->
  exists st' d',
    adjust t percent e (st, d) = Some (Next (st', d'))
    /\ (exists k, (1 <= k < length (currentFiles st))%nat
          /\ currentFiles st' = take k (currentFiles st)
          /\ (forall j, (k < j <= length (currentFiles st))%nat ->
                disk_usage d (drop j (currentFiles st))
                < totalWritten st - target)
          /\ totalWritten st'
             = totalWritten st - disk_usage d (drop k (currentFiles st))
          /\ (forall q, files d' !! q
                 = if bool_decide (q ∈ drop k (currentFiles st))
                   then None else files d !! q))
    /\ dirs d' = dirs d
    /\ fileCounter st' = fileCounter st
    /\ (totalWritten st' <= target \/ length (currentFiles st') = 1%nat)
    /\ (length (currentFiles st') < length (currentFiles st))%nat
    /\ currentFiles st' !! O = currentFiles st !! O.
Proof.
  intros [Hdir Hfloor Hnames Hnd Hfiles] [H0 Hsmall Hus] Hrm Hcalc Hlt Hlen.
  simpl in *.
  pose proof (sto_target_range _ _ _ Hcalc) as Ht.
  pose proof (disk_usage_nonneg d _ Hfiles) as Hu0.
  unfold adjust. rewrite Hcalc.
  destruct (totalWritten st <? target) eqn:H1;
    [apply Z.ltb_lt in H1; lia|].
  destruct (target <? totalWritten st) eqn:H2;
    [|apply Z.ltb_ge in H2; lia].
  destruct (1 <? length (currentFiles st))%nat eqn:H3;
    [|apply Nat.ltb_ge in H3; lia].
  simpl andb. cbv iota.
  rewrite sub_id
    by (unfold Int64.in_range, Int64.min_int, Int64.max_int in *; lia).
  destruct (delete_files_spec e (length (currentFiles st) - 1)
              (totalWritten st - target) 0 st d)
    as (st' & d' & del' & Hr & (k & Hk & Hpre & Hstep & Hdel & Hfs)
        & Hdirs & Hcnt & Hbal & Hstop & Hdec);
    try assumption; try lia.
  { unfold Int64.min_int, Int64.max_int in *. lia. }
  exists st', d'. rewrite Hr. simpl. split; [reflexivity|].
  specialize (Hdec ltac:(lia) ltac:(lia)).
  assert (Hk' : (k < length (currentFiles st))%nat).
  { rewrite Hpre, length_take in Hdec. lia. }
  split.
  { exists k. split; [lia|]. split; [exact Hpre|].
    split; [intros j Hj; specialize (Hstep j ltac:(lia)); lia|].
    split; [lia | exact Hfs]. }
  split; [exact Hdirs|]. split; [exact Hcnt|].
  split; [destruct Hstop; [left; lia | right; assumption]|].
  split; [lia|].
  rewrite Hpre. apply lookup_take_lt. lia.
Qed.

(** A growing adjustment of the storage controller whose write
    reports no error. *)
Lemma adjust_grow (t : nat) (percent : Float64.float64) (e : env)
    (st : state) (d : fs) (target : Z) :
  let filePath := (t, dynamic_file (fileCounter st)) in
  Invariant.storage t (st, d) ->
  0 <= totalWritten st ->
  calculatePercentageSize percent (freeSpace e) = inr target ->
  totalWritten st < target ->
  target + bufferSize <= Int64.max_int ->
  (writeFile (wvolume e) filePath (target - totalWritten st) d).2 = true ->
  adjust t percent e (st, d)
  = Some (Next ({| currentFiles := currentFiles st ++ [filePath];
                   totalWritten := target;
                   fileCounter := S (fileCounter st) |},
                {| dirs := dirs d;
                   files := <[filePath := target - totalWritten st]>
                              (files d) |}))
  /\ filePath ∉ currentFiles st.
Proof.
  intros filePath [Hdir Hfloor Hnames Hnd Hfiles] H0 Hcalc Hlt Hmax Hw.
  simpl in *.
  pose proof (sto_target_range _ _ _ Hcalc) as Ht.
  split.
  - unfold adjust. rewrite Hcalc.
    destruct (totalWritten st <? target) eqn:H1;
      [|apply Z.ltb_ge in H1; lia].
    rewrite sub_id
      by (unfold Int64.in_range, Int64.min_int, Int64.max_int in *; lia).
    destruct (0 <? target - totalWritten st) eqn:H2;
      [|apply Z.ltb_ge in H2; lia].
    fold filePath.
    destruct (writeFile (wvolume e) filePath (target - totalWritten st) d)
      as [d' ok] eqn:Hwf.
    simpl in Hw. subst ok.
    apply writeFile_true in Hwf; [|lia|unfold bufferSize in *; lia].
    subst d'.
    rewrite add_id
      by (unfold Int64.in_range, Int64.min_int, Int64.max_int in *; lia).
    do 4 f_equal. lia.
  - intros Hin. destruct (Hnames _ Hin) as (i & Heq & Hi).
    unfold filePath, dynamic_file in Heq. injection Heq as Heq. lia.
Qed.

(** Whatever the volume does, the deletion loop leaves a non-empty
    prefix of the list (the whole list when nothing could be
    removed). *)
Lemma delete_files_prefix (e : env) (i : nat) :
  forall (excess deleted : Z) (st st' : state) (d d' : fs) (del' : Z),
    delete_files e i excess deleted (st, d) = Some (st', d', del') ->
    exists k, (1 <= k)%nat /\ currentFiles st' = take k (currentFiles st).
Proof.
  induction i as [|i IH]; intros excess deleted st st' d d' del'; simpl.
  - intros [= <- <- <-]. exists (S (length (currentFiles st))).
    split; [lia|]. rewrite take_ge; [reflexivity | lia].
  - destruct (deleted <? excess).
    + destruct (currentFiles st !! S i) as [x|]; simpl; [|discriminate].
      destruct (stat x d) as [sz|]; [destruct (remove_ok e x)|].
      * intros H. apply IH in H as (k & Hk & ->). simpl.
        exists (Nat.min k (S i)). split; [lia|]. apply take_take.
      * apply IH.
      * apply IH.
    + intros [= <- <- <-]. exists (S (length (currentFiles st))).
      split; [lia|]. rewrite take_ge; [reflexivity | lia].
Qed.

(** An adjustment leaves the list alone, or appends one file to it,
    or keeps a non-empty prefix of it: growing and shrinking never
    happen in one tick. *)
Lemma adjust_cases (t : nat) (percent : Float64.float64) (e : env)
    (w : state * fs) (a : adjusted) :
  adjust t percent e w = Some a ->
  currentFiles (world_of a).1 = currentFiles w.1
  \/ (exists p, currentFiles (world_of a).1 = currentFiles w.1 ++ [p])
  \/ (exists k, (1 <= k)%nat
                /\ currentFiles (world_of a).1 = take k (currentFiles w.1)).
Proof.
  destruct w as [st d]. unfold adjust.
  destruct (calculatePercentageSize _ _) as [err|target];
    [intros [= <-]; left; reflexivity|].
  destruct (totalWritten st <? target).
  - destruct (0 <? _); [|intros [= <-]; left; reflexivity].
    destruct (writeFile _ _ _ _) as [d' ok]. destruct ok.
    + intros [= <-]. right. left. eexists. reflexivity.
    + intros [= <-]. left. reflexivity.
  - destruct (_ && _); [|intros [= <-]; left; reflexivity].
    destruct (delete_files _ _ _ _ _) as [[[st' d'] del']|] eqn:Hdel;
      simpl; [|discriminate].
    intros [= <-]. right. right. simpl.
    eapply delete_files_prefix. exact Hdel.
Qed.

(** The variables after a tick are those after its adjustment. *)
Lemma tick_state (t : nat) (percent : Float64.float64) (e : env)
    (w w' : state * fs) :
  tick t percent e w = Some w' ->
  exists a, adjust t percent e w = Some a /\ w'.1 = (world_of a).1.
Proof.
  unfold tick. destruct (adjust t percent e w) as [[w1|w1]|]; [| |discriminate].
  - intros [= <-]. eexists. split; reflexivity.
  - intros H. apply liveness_state in H as [H _].
    eexists. split; [reflexivity | exact H].
Qed.

(** The liveness step brings no deleted file back. *)
Lemma liveness_absent (e : env) (w w' : state * fs) (q : path) :
  liveness e w = Some w' ->
  files w.2 !! q = None -> files w'.2 !! q = None.
Proof.
  destruct w as [st d]. unfold liveness.
  destruct (currentFiles st) as [|p l]; [intros [= <-]; auto|].
  destruct (_ <? 0); [discriminate|].
  destruct (_ !! _) as [x|]; simpl; [|discriminate].
  intros [= <-]. simpl. unfold appendToFile.
  destruct (files d !! x) as [sz|] eqn:Hx; [|auto].
  simpl. intros Hq. rewrite lookup_insert_ne; [exact Hq | congruence].
Qed.

(** A shrinking tick of the storage controller. *)
Lemma sto_tick_shrink (t : nat) (percent : Float64.float64) (e : env)
    (st : state) (d : fs) (target : Z) :
  Invariant.storage t (st, d) ->
  Invariant.no_overflow (st, d) ->
  (forall p, p ∈ currentFiles st -> remove_ok e p = true) ->
  0 <= now e ->
  calculatePercentageSize percent (freeSpace e) = inr target ->
  target < totalWritten st ->
  (2 <= length (currentFiles st))%nat ->
  exists st' d',
    tick t percent e (st, d) = Some (st', d')
    /\ (exists k, (1 <= k < length (currentFiles st))%nat
          /\ currentFiles st' = take k (currentFiles st)
          /\ (forall j, (k < j <= length (currentFiles st))%nat ->
                disk_usage d (drop j (currentFiles st))
                < totalWritten st - target)
          /\ totalWritten st'
             = totalWritten st - disk_usage d (drop k (currentFiles st))
          /\ (forall q, q ∈ drop k (currentFiles st) ->
                 files d' !! q = None))
    /\ (totalWritten st' <= target \/ length (currentFiles st') = 1%nat)
    /\ (length (currentFiles st') < length (currentFiles st))%nat
    /\ currentFiles st' !! O = currentFiles st !! O.
Proof.
  intros Hinv Hno Hrm Hnow Hcalc Hlt Hlen.
  destruct (adjust_shrink t percent e st d target Hinv Hno Hrm Hcalc Hlt Hlen)
    as (st1 & d1 & Ha & (k & Hk & Hpre & Hmin & Htot & Hfs) & _ & _
        & Hstop & Hdec & H0).
  destruct (liveness_runs e (st1, d1) Hnow) as [[st' d'] Hlive].
  destruct (liveness_state _ _ _ Hlive) as [Hst _]. simpl in Hst. subst st'.
  exists st1, d'. unfold tick. rewrite Ha. split; [exact Hlive|].
  split; [|auto].
  exists k. repeat (split; [assumption|]).
  intros q Hq. apply (liveness_absent _ _ _ q Hlive). simpl.
  rewrite Hfs, bool_decide_eq_true_2 by exact Hq. reflexivity.
Qed.

(** A growing tick of the storage controller whose write reports no
    error. *)
Lemma sto_tick_grow (t : nat) (percent : Float64.float64) (e : env)
    (st : state) (d : fs) (target : Z) :
  let filePath := (t, dynamic_file (fileCounter st)) in
  Invariant.storage t (st, d) ->
  0 <= totalWritten st ->
  0 <= now e ->
  calculatePercentageSize percent (freeSpace e) = inr target ->
  totalWritten st < target ->
  target + bufferSize <= Int64.max_int ->
  (writeFile (wvolume e) filePath (target - totalWritten st) d).2 = true ->
  let st' := {| currentFiles := currentFiles st ++ [filePath];
                totalWritten := target;
                fileCounter := S (fileCounter st) |} in
  exists d1 d',
    adjust t percent e (st, d) = Some (Next (st', d1))
    /\ stat filePath d1 = Some (target - totalWritten st)
    /\ (forall q, q <> filePath -> files d1 !! q = files d !! q)
    /\ tick t percent e (st, d) = Some (st', d')
    /\ filePath ∉ currentFiles st.
Proof.
  intros filePath Hinv H0 Hnow Hcalc Hlt Hmax Hw st'.
  destruct (adjust_grow t percent e st d target Hinv H0 Hcalc Hlt Hmax Hw)
    as [Ha Hfresh].
  fold filePath in Ha. fold st' in Ha.
  match type of Ha with _ = Some (Next (_, ?d1)) =>
    destruct (liveness_runs e (st', d1) Hnow) as [[st2 d'] Hlive];
    exists d1, d'
  end.
  destruct (liveness_state _ _ _ Hlive) as [Hst _].
  simpl in Hst. subst st2.
  split; [exact Ha|].
  split; [apply lookup_insert_eq|].
  split; [intros q Hq; simpl; apply lookup_insert_ne; congruence|].
  split; [unfold tick; rewrite Ha; exact Hlive | exact Hfresh].
Qed.

End DynamicStorageFacts.

(* ------------------------------------------------------------------ *)
(** ** The dynamic controllers' ticks *)

Module DynamicController.
Import Controller FileSystem Example ControllerFacts.

Lemma mem_two_invariant : Invariant.memory mem_two.
Proof.
  split; simpl.
  - reflexivity.
  - repeat constructor.
  - eexists; reflexivity.
  - unfold Int64.max_int. lia.
Qed.

Lemma sto_invariant (w : Storage.state * fs) :
  (w = sto_one \/ w = sto_two) -> Invariant.storage 7 w.
Proof.
  intros Hw. split.
  - destruct Hw as [-> | ->]; simpl; apply elem_of_singleton; reflexivity.
  - destruct Hw as [-> | ->]; eexists; reflexivity.
  - intros p Hp. destruct Hw as [-> | ->]; simpl in Hp;
      rewrite ?elem_of_cons, ?elem_of_nil in Hp;
      repeat (destruct Hp as [-> | Hp]); try contradiction;
      [exists 0%nat | exists 0%nat | exists 1%nat]; simpl; split;
      (reflexivity || lia).
  - destruct Hw as [-> | ->]; simpl; repeat constructor;
      rewrite ?elem_of_cons, ?elem_of_nil; unfold file0, file1, dynamic_file;
      intros H; repeat (destruct H as [H|H]); try discriminate; auto.
  - intros p Hp. destruct Hw as [-> | ->]; simpl in Hp;
      rewrite ?elem_of_cons, ?elem_of_nil in Hp;
      repeat (destruct Hp as [-> | Hp]); try contradiction;
      [exists 450 | exists 450 | exists 900]; simpl; split;
      (reflexivity || lia).
Qed.

Lemma sto_no_overflow (w : Storage.state * fs) :
  (w = sto_one \/ w = sto_two) -> Invariant.no_overflow w.
Proof.
  intros [-> | ->]; split; simpl; unfold Int64.max_int; try lia;
    vm_compute; discriminate.
Qed.

(** Claim C1, as the code has it.  In a tick whose recomputed target
    is below the held total while at least two segments are held, the
    controller (memory: buffers; storage: files, every listed file
    being removable) drops segments from the tail, most recent first:
    it keeps the first [k >= 1] segments, where no shorter tail frees
    [held - target]; the total goes down by what was dropped.
    Afterwards the held total is AT MOST the target, or segment 0
    alone is left; the segment count went down by at least one and
    segment 0 is the same. *)
Theorem shrink_tick :
  (forall (percent : Float64.float64) (e : Memory.env) (st : Memory.state)
          (target : Z),
      Invariant.memory st ->
      Memory.calculatePercentageSize percent (Memory.sys e) = inr target ->
      target < Memory.totalAllocated st ->
      (2 <= length (Memory.buffers st))%nat ->
      exists st',
        Memory.tick percent e st = Some st'
        /\ (exists k, (1 <= k < length (Memory.buffers st))%nat
              /\ Memory.buffers st' = take k (Memory.buffers st)
              /\ (forall j, (k < j <= length (Memory.buffers st))%nat ->
                    sum_sizes (drop j (Memory.buffers st))
                    < Memory.totalAllocated st - target))
        /\ Memory.totalAllocated st' = sum_sizes (Memory.buffers st')
        /\ (Memory.totalAllocated st' <= target
            \/ length (Memory.buffers st') = 1%nat)
        /\ (length (Memory.buffers st') < length (Memory.buffers st))%nat
        /\ Memory.buffers st' !! O = Memory.buffers st !! O)
  /\ (forall (t : nat) (percent : Float64.float64) (e : Storage.env)
             (st : Storage.state) (d : fs) (target : Z),
      Invariant.storage t (st, d) ->
      Invariant.no_overflow (st, d) ->
      (forall p, p ∈ Storage.currentFiles st -> Storage.remove_ok e p = true) ->
      0 <= Storage.now e ->
      Storage.calculatePercentageSize percent (Storage.freeSpace e)
      = inr target ->
      target < Storage.totalWritten st ->
      (2 <= length (Storage.currentFiles st))%nat ->
      exists st' d',
        Storage.tick t percent e (st, d) = Some (st', d')
        /\ (exists k, (1 <= k < length (Storage.currentFiles st))%nat
              /\ Storage.currentFiles st' = take k (Storage.currentFiles st)
              /\ (forall j, (k < j <= length (Storage.currentFiles st))%nat ->
                    disk_usage d (drop j (Storage.currentFiles st))
                    < Storage.totalWritten st - target)
              /\ Storage.totalWritten st'
                 = Storage.totalWritten st
                   - disk_usage d (drop k (Storage.currentFiles st))
              /\ (forall q, q ∈ drop k (Storage.currentFiles st) ->
                     files d' !! q = None))
        /\ (Storage.totalWritten st' <= target
            \/ length (Storage.currentFiles st') = 1%nat)
        /\ (length (Storage.currentFiles st')
            < length (Storage.currentFiles st))%nat
        /\ Storage.currentFiles st' !! O = Storage.currentFiles st !! O).
Proof.
  split.
  - intros. apply MemoryFacts.mem_tick_shrink; assumption.
  - intros. apply DynamicStorageFacts.sto_tick_shrink; assumption.
Qed.

(** [shrink_tick] at work: the memory controller holding two buffers
    when the target falls to 3825205248, and the storage controller
    holding two files when the target falls to 900. *)
Lemma shrink_tick_witness :
  (exists st', Memory.tick percent50 (mem_env (GiB / 2)) mem_two = Some st'
               /\ (length (Memory.buffers st') < 2)%nat)
  /\ (exists st' d', Storage.tick 7 percent50 (sto_env 2000) sto_two
                     = Some (st', d')
                     /\ (length (Storage.currentFiles st') < 2)%nat).
Proof.
  split.
  - destruct (proj1 shrink_tick percent50 (mem_env (GiB / 2)) mem_two
                3825205248) as (st' & Ht & _ & _ & _ & Hlen & _).
    + exact mem_two_invariant.
    + vm_compute. reflexivity.
    + simpl. lia.
    + simpl. lia.
    + exists st'. split; [exact Ht | exact Hlen].
  - destruct (proj2 shrink_tick 7%nat percent50 (sto_env 2000)
                (sto_two.1) (sto_two.2) 900) as (st' & d' & Ht & _ & _ & Hlen & _).
    + apply sto_invariant. right. reflexivity.
    + apply sto_no_overflow. right. reflexivity.
    + reflexivity.
    + simpl. lia.
    + vm_compute. reflexivity.
    + simpl. lia.
    + simpl. lia.
    + exists st', d'. split; [exact Ht | exact Hlen].
Defined.

(** Claim C1 as stated fails: the memory controller that grew to
    4080218931 bytes in two buffers and then computes the target
    3825205248 releases its second buffer, and holds 3570191564
    bytes, less than the target. *)
Lemma shrink_tick_below_target :
  Memory.generateDynamicLoad percent50 (mem_env GiB) [Tick (mem_env 0)]
  = Running mem_two
  /\ Memory.calculatePercentageSize percent50 (GiB / 2) = inr 3825205248
  /\ 3825205248 < Memory.totalAllocated mem_two
  /\ (2 <= length (Memory.buffers mem_two))%nat
  /\ Memory.tick percent50 (mem_env (GiB / 2)) mem_two
     = Some {| Memory.buffers := [3570191564];
               Memory.totalAllocated := 3570191564 |}
  /\ ~ (3570191564 >= 3825205248).
Proof.
  repeat split; try (vm_compute; reflexivity); simpl; lia.
Qed.

(** Claim C2.  In a tick whose recomputed target is above the held
    total and whose allocation (memory) or file write (storage)
    succeeds, the controller appends exactly one segment of
    [target - held] bytes: afterwards the held total is the target and
    there is one segment more.  And in no tick does a controller both
    grow and shrink: what it holds afterwards is what it held, or that
    with one segment appended, or a non-empty prefix of it. *)
Theorem grow_tick :
  (forall (percent : Float64.float64) (e : Memory.env) (st : Memory.state)
          (target : Z),
      Invariant.memory st ->
      Memory.calculatePercentageSize percent (Memory.sys e) = inr target ->
      Memory.totalAllocated st < target ->
      Memory.alloc_ok e = true ->
      exists st',
        Memory.tick percent e st = Some st'
        /\ Memory.buffers st'
           = Memory.buffers st ++ [target - Memory.totalAllocated st]
        /\ Memory.totalAllocated st' = target
        /\ length (Memory.buffers st') = S (length (Memory.buffers st)))
  /\ (forall (t : nat) (percent : Float64.float64) (e : Storage.env)
             (st : Storage.state) (d : fs) (target : Z),
      let filePath := (t, dynamic_file (Storage.fileCounter st)) in
      Invariant.storage t (st, d) ->
      0 <= Storage.totalWritten st ->
      0 <= Storage.now e ->
      Storage.calculatePercentageSize percent (Storage.freeSpace e)
      = inr target ->
      Storage.totalWritten st < target ->
      target + bufferSize <= Int64.max_int ->
      (writeFile (Storage.wvolume e) filePath
         (target - Storage.totalWritten st) d).2 = true ->
      exists st' d1 d',
        Storage.adjust t percent e (st, d) = Some (Storage.Next (st', d1))
        /\ Storage.tick t percent e (st, d) = Some (st', d')
        /\ Storage.currentFiles st' = Storage.currentFiles st ++ [filePath]
        /\ (filePath ∉ Storage.currentFiles st)
        /\ stat filePath d1 = Some (target - Storage.totalWritten st)
        /\ (forall q, q <> filePath -> files d1 !! q = files d !! q)
        /\ Storage.totalWritten st' = target
        /\ length (Storage.currentFiles st')
           = S (length (Storage.currentFiles st)))
  /\ (forall (percent : Float64.float64) (e : Memory.env)
             (st st' : Memory.state),
      Invariant.memory st ->
      Memory.tick percent e st = Some st' ->
      Memory.buffers st' = Memory.buffers st
      \/ (exists n, Memory.buffers st' = Memory.buffers st ++ [n])
      \/ (exists k, (1 <= k)%nat
                    /\ Memory.buffers st' = take k (Memory.buffers st)))
  /\ (forall (t : nat) (percent : Float64.float64) (e : Storage.env)
             (w w' : Storage.state * fs),
      Storage.tick t percent e w = Some w' ->
      Storage.currentFiles w'.1 = Storage.currentFiles w.1
      \/ (exists p, Storage.currentFiles w'.1
                    = Storage.currentFiles w.1 ++ [p])
      \/ (exists k, (1 <= k)%nat
                    /\ Storage.currentFiles w'.1
                       = take k (Storage.currentFiles w.1))).
Proof.
  split; [|split; [|split]].
  - intros percent e st target Hinv Hcalc Hlt Hok.
    eexists. split; [apply MemoryFacts.mem_tick_grow; eassumption|].
    simpl. rewrite length_app. simpl. repeat split. lia.
  - intros t percent e st d target filePath Hinv H0 Hnow Hcalc Hlt Hmax Hw.
    destruct (DynamicStorageFacts.sto_tick_grow t percent e st d target
                Hinv H0 Hnow Hcalc Hlt Hmax Hw)
      as (d1 & d' & Ha & Hstat & Hframe & Ht & Hfresh).
    eexists _, d1, d'. split; [exact Ha|]. split; [exact Ht|].
    simpl. rewrite length_app. simpl.
    repeat split; try assumption. lia.
  - intros percent e st st' Hinv Ht.
    destruct (MemoryFacts.tick_cases percent e st st' Hinv Ht)
      as [->|[(n & _ & Hb & _)|(k & Hk & Hb & _)]].
    + left. reflexivity.
    + right. left. exists n. exact Hb.
    + right. right. exists k. split; [lia | exact Hb].
  - intros t percent e w w' Ht.
    destruct (DynamicStorageFacts.tick_state t percent e w w' Ht)
      as (a & Ha & ->).
    eapply DynamicStorageFacts.adjust_cases. exact Ha.
Qed.

(** [grow_tick] at work: the memory controller holding 3570191564
    bytes when the target rises to 4080218931, and the storage
    controller holding 450 bytes when the target rises to 1350. *)
Lemma grow_tick_witness :
  (exists st', Memory.tick percent50 (mem_env 0)
                 {| Memory.buffers := [3570191564];
                    Memory.totalAllocated := 3570191564 |} = Some st'
               /\ Memory.buffers st' = [3570191564; 510027367]
               /\ Memory.totalAllocated st' = 4080218931)
  /\ (exists st' d', Storage.tick 7 percent50 (sto_env 3000) sto_one
                     = Some (st', d')
                     /\ Storage.currentFiles st' = [file0; file1]
                     /\ Storage.totalWritten st' = 1350).
Proof.
  split.
  - destruct (proj1 grow_tick percent50 (mem_env 0)
                {| Memory.buffers := [3570191564];
                   Memory.totalAllocated := 3570191564 |} 4080218931)
      as (st' & Ht & Hb & Htot & _).
    + split; simpl;
        [reflexivity | repeat constructor | eexists; reflexivity
         | unfold Int64.max_int; lia].
    + vm_compute. reflexivity.
    + simpl. lia.
    + reflexivity.
    + exists st'. split; [exact Ht|]. split; [exact Hb | exact Htot].
  - destruct (proj1 (proj2 grow_tick) 7%nat percent50 (sto_env 3000)
                (sto_one.1) (sto_one.2) 1350)
      as (st' & d1 & d' & _ & Ht & Hb & _ & _ & _ & Htot & _).
    + apply sto_invariant. left. reflexivity.
    + simpl. lia.
    + simpl. lia.
    + vm_compute. reflexivity.
    + simpl. lia.
    + unfold bufferSize, Int64.max_int. lia.
    + vm_compute. reflexivity.
    + exists st', d'. split; [exact Ht|]. split; [exact Hb | exact Htot].
Defined.

End DynamicController.

(* ------------------------------------------------------------------ *)
(** ** The static storage allocator *)

Module StaticStorage.
Import Controller FileSystem Storage Example.
Import StaticStorageFacts.

(** Claim C10.  For a request of [totalSize >= 0] bytes whose write
    loop runs to its end (the context is not done before a file, and
    the volume takes every file), the static allocator writes exactly
    the 10 files [stress-file-0.dat] .. [stress-file-9.dat] of its
    temporary directory, each of [max (totalSize / 10) 1 MiB] bytes
    ([/] on integers), and nothing else.  Below 10 MiB requested that
    is 10 MiB, more than the request; from 10 MiB on it is
    [10 * (totalSize / 10)], at most 9 bytes below the request. *)
Theorem static_files_written (t : nat) (totalSize : Z)
    (turns : nat -> write_turn) (d : fs) :
  let fileSize := fileSize_of totalSize in
  0 <= totalSize <= Int64.max_int ->
  t ∈ dirs d ->
  (forall i, (i < numFiles)%nat -> Invariant.good_turn fileSize (turns i)) ->
  exists d',
    write_phase fileSize turns 0 (filePaths t) d = (d', Completed)
    /\ performStorageOperations t totalSize turns [] d
       = (Running (O, d'), None)
    /\ fileSize = Z.max (totalSize / 10) (1024 * 1024)
    /\ length (filePaths t) = 10%nat
    /\ NoDup (filePaths t)
    /\ (forall p, files d' !! p
           = if bool_decide (p ∈ filePaths t) then Some fileSize
             else files d !! p)
    /\ disk_usage d' (filePaths t) = 10 * fileSize
    /\ (totalSize < 10 * (1024 * 1024) ->
        10 * fileSize = 10 * (1024 * 1024) /\ totalSize < 10 * fileSize)
    /\ (10 * (1024 * 1024) <= totalSize ->
        10 * fileSize = 10 * (totalSize / 10)
        /\ totalSize - 9 <= 10 * fileSize <= totalSize).
Proof.
  intros fileSize Hsize Hdir Hgood.
  pose proof (fileSize_of_max totalSize Hsize) as Hmax.
  fold fileSize in Hmax.
  pose proof (Z.div_pos totalSize 10 ltac:(lia) ltac:(lia)) as Hq0.
  pose proof (Z.div_le_upper_bound totalSize 10 totalSize
                ltac:(lia) ltac:(lia)) as Hq1.
  pose proof (Z.mod_pos_bound totalSize 10 ltac:(lia)) as Hm.
  pose proof (Z.div_mod totalSize 10 ltac:(lia)) as Hdm.
  assert (Hw : write_phase fileSize turns 0 (filePaths t) d
               = ({| dirs := dirs d;
                     files := Invariant.written fileSize (filePaths t)
                                (files d) |}, Completed)).
  { apply write_phase_ok.
    - lia.
    - unfold bufferSize, Int64.max_int in *. lia.
    - intros j Hj. apply Hgood. rewrite filePaths_length in Hj.
      unfold numFiles. lia.
    - intros p Hp. unfold filePaths in Hp.
      apply list_elem_of_fmap in Hp as (i & -> & _). exact Hdir. }
  eexists. split; [exact Hw|].
  split; [unfold performStorageOperations; fold fileSize; rewrite Hw;
          reflexivity|].
  split; [exact Hmax|].
  split; [apply filePaths_length|].
  split; [apply filePaths_NoDup|].
  split; [intros p; apply written_lookup|].
  split.
  { rewrite (disk_usage_const _ fileSize), filePaths_length; [lia|].
    intros p Hp. cbn [files]. rewrite written_lookup.
    rewrite bool_decide_eq_true_2 by exact Hp. reflexivity. }
  split; intros Hc; lia.
Qed.

(** [static_files_written] at work: 5000000 bytes requested, 10 MiB
    written. *)
Lemma static_files_written_witness :
  exists d',
    write_phase (fileSize_of 5000000) good_turns 0 (filePaths 7) disk0
    = (d', Completed)
    /\ disk_usage d' (filePaths 7) = 10485760.
Proof.
  destruct (static_files_written 7 5000000 good_turns disk0)
    as (d' & Hw & _ & _ & _ & _ & _ & Hu & _).
  - unfold Int64.max_int. lia.
  - apply elem_of_union_l, elem_of_singleton. reflexivity.
  - intros i _. split; [reflexivity | reflexivity | | reflexivity].
    vm_compute. discriminate.
  - exists d'. split; [exact Hw|]. rewrite Hu. reflexivity.
Defined.

End StaticStorage.

(* ------------------------------------------------------------------ *)
(** ** Release on exit *)

Module Cleanup.
Import Controller FileSystem Example.

Lemma removeAll_clean (t : nat) (d : fs) :
  (t ∉ dirs (removeAll t d))
  /\ (forall p : path, p.1 = t -> files (removeAll t d) !! p = None).
Proof.
  split.
  - simpl. intros H. apply elem_of_difference in H as [_ H].
    apply H, elem_of_singleton. reflexivity.
  - intros p Hp. simpl. apply map_lookup_filter_None. right.
    intros x _ Hne. simpl in Hne. contradiction.
Qed.

Lemma removeAll_frame (t : nat) (d : fs) (p : path) :
  p.1 <> t -> files (removeAll t d) !! p = files d !! p.
Proof.
  intros Hp. simpl. destruct (files d !! p) as [x|] eqn:Hx.
  - apply map_lookup_filter_Some. split; [exact Hx | exact Hp].
  - apply map_lookup_filter_None. left. exact Hx.
Qed.

Lemma leave_clean {S : Type} (t : nat) (o : outcome (S * fs)) (d' : fs) :
  Storage.leave t o = Returned d' \/ Storage.leave t o = Crashed d' ->
  (t ∉ dirs d') /\ (forall p : path, p.1 = t -> files d' !! p = None).
Proof.
  destruct o as [[s d]|[s d]|[s d]]; simpl;
    intros [H|H]; try discriminate; injection H as <-;
    apply removeAll_clean.
Qed.

(** A loop that meets [Done] is left. *)
Lemma memory_loop_done (percent : Float64.float64)
    (evs : list (event Memory.env)) :
  Done ∈ evs ->
  forall st st', Memory.loop percent evs st <> Running st'.
Proof.
  induction evs as [|[|e] evs IH]; intros Hin st st'; simpl.
  - apply elem_of_nil in Hin. contradiction.
  - discriminate.
  - destruct (Memory.tick percent e st); [|discriminate].
    apply IH. apply elem_of_cons in Hin as [Hin|Hin];
      [discriminate | exact Hin].
Qed.

Lemma memory_static_loop_done (evs : list (event unit)) :
  Done ∈ evs ->
  forall st st', Memory.static_loop evs st <> Running st'.
Proof.
  induction evs as [|[|e] evs IH]; intros Hin st st'; simpl.
  - apply elem_of_nil in Hin. contradiction.
  - discriminate.
  - apply IH. apply elem_of_cons in Hin as [Hin|Hin];
      [discriminate | exact Hin].
Qed.

Lemma storage_loop_done (t : nat) (percent : Float64.float64)
    (evs : list (event Storage.env)) :
  Done ∈ evs ->
  forall w w', Storage.loop t percent evs w <> Running w'.
Proof.
  induction evs as [|[|e] evs IH]; intros Hin w w'; simpl.
  - apply elem_of_nil in Hin. contradiction.
  - discriminate.
  - destruct (Storage.tick t percent e w); [|discriminate].
    apply IH. apply elem_of_cons in Hin as [Hin|Hin];
      [discriminate | exact Hin].
Qed.

Lemma storage_static_loop_done (t : nat) (evs : list (event Z)) :
  Done ∈ evs ->
  forall w w', Storage.static_loop t evs w <> Running w'.
Proof.
  induction evs as [|[|e] evs IH]; intros Hin w w'; simpl.
  - apply elem_of_nil in Hin. contradiction.
  - discriminate.
  - apply IH. apply elem_of_cons in Hin as [Hin|Hin];
      [discriminate | exact Hin].
Qed.

(** The memory loops return with no buffer held. *)
Lemma memory_loop_released (percent : Float64.float64)
    (evs : list (event Memory.env)) :
  forall st st', Memory.loop percent evs st = Returned st' ->
                 Memory.buffers st' = [].
Proof.
  induction evs as [|[|e] evs IH]; intros st st'; simpl.
  - discriminate.
  - intros [= <-]. reflexivity.
  - destruct (Memory.tick percent e st); [apply IH | discriminate].
Qed.

Lemma memory_static_loop_released (evs : list (event unit)) :
  forall st st', Memory.static_loop evs st = Returned st' ->
                 Memory.buffers st' = [].
Proof.
  induction evs as [|[|e] evs IH]; intros st st'; simpl.
  - discriminate.
  - intros [= <-]. reflexivity.
  - apply IH.
Qed.

(** Claim C6.  However [storage.GenerateLoad] is left (a return
    after the deadline or a cancellation, an early return with an
    error, or a panic), its temporary directory and every file in it
    are gone; once its context is done it is left; and when
    [os.MkdirTemp] fails it returns at once with the volume as it
    was.  The memory load generators, static and dynamic, return
    with no buffer held, and return once their context is done. *)
Theorem released_on_exit :
  (forall (size : Z) (r : Storage.run) (d d' : fs) (t : nat),
      Storage.tempDir r = Some t ->
      Storage.GenerateLoad size r d = Returned d'
      \/ Storage.GenerateLoad size r d = Crashed d' ->
      (t ∉ dirs d') /\ (forall p : path, p.1 = t -> files d' !! p = None))
  /\ (forall (size : Z) (r : Storage.run) (d d' : fs),
      Done ∈ Storage.static_events r ->
      Done ∈ Storage.dynamic_events r ->
      Storage.GenerateLoad size r d <> Running d')
  /\ (forall (size : Z) (r : Storage.run) (d : fs),
      Storage.tempDir r = None ->
      Storage.GenerateLoad size r d = Returned d)
  /\ (forall (size : Z) (r : Memory.run) (st : Memory.state),
      Memory.GenerateLoad size r = Returned st ->
      Memory.buffers st = [])
  /\ (forall (size : Z) (r : Memory.run) (st : Memory.state),
      Done ∈ Memory.static_events r ->
      Done ∈ Memory.dynamic_events r ->
      Memory.GenerateLoad size r <> Running st).
Proof.
  split; [|split; [|split; [|split]]].
  - intros size r d d' t Ht. unfold Storage.GenerateLoad. rewrite Ht.
    destruct (size <? 0); apply leave_clean.
  - intros size r d d' Hs Hd. unfold Storage.GenerateLoad.
    destruct (Storage.tempDir r) as [t|]; [|discriminate].
    destruct (size <? 0).
    + unfold Storage.performDynamicStorageOperations.
      destruct (Storage.initialize _ _ _ _) as [[err d1]|w]; simpl;
        [discriminate|].
      destruct (Storage.loop _ _ _ w) as [[s1 d1]|[s1 d1]|[s1 d1]] eqn:Hl;
        simpl; try discriminate.
      exfalso. eapply storage_loop_done; eassumption.
    + unfold Storage.performStorageOperations.
      destruct (Storage.write_phase _ _ _ _ _) as [d1 [| |]]; simpl;
        try discriminate.
      destruct (Storage.static_loop _ _ _) as [[s1 d2]|[s1 d2]|[s1 d2]] eqn:Hl;
        simpl; try discriminate.
      exfalso. eapply storage_static_loop_done; eassumption.
  - intros size r d Ht. unfold Storage.GenerateLoad. rewrite Ht. reflexivity.
  - intros size r st. unfold Memory.GenerateLoad.
    destruct (size <? 0).
    + unfold Memory.generateDynamicLoad.
      destruct (Memory.initialize _ _) as [err|[st0|]].
      * intros [= <-]. reflexivity.
      * apply memory_loop_released.
      * discriminate.
    + unfold Memory.generateStaticLoad.
      destruct (Memory.alloc_ok _); [|discriminate].
      apply memory_static_loop_released.
  - intros size r st Hs Hd. unfold Memory.GenerateLoad.
    destruct (size <? 0).
    + unfold Memory.generateDynamicLoad.
      destruct (Memory.initialize _ _) as [err|[st0|]]; try discriminate.
      apply memory_loop_done. exact Hd.
    + unfold Memory.generateStaticLoad.
      destruct (Memory.alloc_ok _); [|discriminate].
      apply memory_static_loop_done. exact Hs.
Qed.

(** [released_on_exit] at work on a run of [--storage 50%] and one of
    [--memory 50%]. *)
Lemma released_on_exit_witness :
  (exists d', Storage.GenerateLoad (-50) sto_run disk_empty = Returned d'
              /\ (7%nat ∉ dirs d') /\ files d' !! file0 = None
              /\ files d' !! file1 = None)
  /\ (exists st, Memory.GenerateLoad (-50) mem_run = Returned st
                 /\ Memory.buffers st = []).
Proof.
  split.
  - destruct (Storage.GenerateLoad (-50) sto_run disk_empty)
      as [d'|d'|d'] eqn:Hrun.
    + destruct (proj1 released_on_exit (-50) sto_run disk_empty d' 7%nat)
        as [Hdir Hfiles].
      * reflexivity.
      * left. exact Hrun.
      * exists d'. split; [reflexivity|]. split; [exact Hdir|].
        split; apply Hfiles; reflexivity.
    + exfalso. revert Hrun. vm_compute. discriminate.
    + exfalso. revert Hrun. vm_compute. discriminate.
  - destruct (Memory.GenerateLoad (-50) mem_run) as [st|st|st] eqn:Hrun.
    + exists st. split; [reflexivity|].
      apply (proj1 (proj2 (proj2 (proj2 released_on_exit))) (-50) mem_run).
      exact Hrun.
    + exfalso. revert Hrun. vm_compute. discriminate.
    + exfalso. revert Hrun. vm_compute. discriminate.
Defined.

End Cleanup.

(* ------------------------------------------------------------------ *)
(** ** A target that is not positive *)

Module Exhaustion.
Import Controller FileSystem Example.

(** Claim C5, as the code has it.  A dynamic controller whose FIRST
    computation of the target fails (free memory or the computed size
    not positive, or the probe failing) returns early, holding
    nothing: the memory controller with the error printed, the
    storage controller with the error handed to [GenerateLoad], which
    prints it, removes the temporary directory and returns.  A
    controller whose computation fails AT A TICK prints the error and
    goes on with the next turn of its loop, holding what it held.
    Neither ends the process nor touches the other load: what the
    storage load does is the same whatever the memory load meets, and
    the other way round. *)
Theorem target_not_positive :
  (forall (percent : Float64.float64) (e : Memory.env) (err : Memory.error)
          (evs : list (event Memory.env)),
      Memory.calculatePercentageSize percent (Memory.sys e) = inl err ->
      Memory.initialize percent e = inl err
      /\ Memory.generateDynamicLoad percent e evs = Returned Memory.empty)
  /\ (forall (t : nat) (percent : Float64.float64) (e : Storage.env)
             (err : Storage.error) (evs : list (event Storage.env)) (d : fs),
      Storage.calculatePercentageSize percent (Storage.freeSpace e)
      = inl err ->
      Storage.performDynamicStorageOperations t percent e evs d
      = (Returned (Storage.empty, d), Some err))
  /\ (forall (size : Z) (r : Storage.run) (t : nat) (err : Storage.error)
             (d : fs),
      size < 0 ->
      Storage.tempDir r = Some t ->
      Storage.calculatePercentageSize (Float64.of_Z (Int64.neg size))
        (Storage.freeSpace (Storage.first r)) = inl err ->
      Storage.GenerateLoad size r d = Returned (removeAll t (mkdirTemp t d)))
  /\ (forall (percent : Float64.float64) (e : Memory.env) (err : Memory.error)
             (st : Memory.state) (evs : list (event Memory.env)),
      Memory.tick_error percent e = Some err ->
      Memory.tick percent e st = Some st
      /\ Memory.loop percent (Tick e :: evs) st = Memory.loop percent evs st)
  /\ (forall (t : nat) (percent : Float64.float64) (e : Storage.env)
             (err : Storage.error) (w : Storage.state * fs)
             (evs : list (event Storage.env)),
      Storage.tick_error percent e = Some err ->
      Storage.tick t percent e w = Some w
      /\ Storage.loop t percent (Tick e :: evs) w
         = Storage.loop t percent evs w)
  /\ (forall (c : Orchestrator.config) (w : Orchestrator.world)
             (m : Memory.run) (s : Storage.run),
      (Orchestrator.run_loads c w).2
      = (Orchestrator.run_loads c
           {| Orchestrator.memory_run := m;
              Orchestrator.storage_run := Orchestrator.storage_run w;
              Orchestrator.disk := Orchestrator.disk w |}).2
      /\ (Orchestrator.run_loads c w).1
         = (Orchestrator.run_loads c
              {| Orchestrator.memory_run := Orchestrator.memory_run w;
                 Orchestrator.storage_run := s;
                 Orchestrator.disk := Orchestrator.disk w |}).1).
Proof.
  split; [|split; [|split; [|split; [|split]]]].
  - intros percent e err evs H.
    unfold Memory.generateDynamicLoad, Memory.initialize. rewrite H.
    split; reflexivity.
  - intros t percent e err evs d H.
    unfold Storage.performDynamicStorageOperations, Storage.initialize.
    rewrite H. reflexivity.
  - intros size r t err d Hneg Ht H.
    unfold Storage.GenerateLoad. rewrite Ht.
    destruct (size <? 0) eqn:Hs; [|apply Z.ltb_ge in Hs; lia].
    unfold Storage.performDynamicStorageOperations, Storage.initialize.
    rewrite H. reflexivity.
  - intros percent e err st evs H. unfold Memory.tick_error in H.
    assert (Ht : Memory.tick percent e st = Some st).
    { unfold Memory.tick.
      destruct (Memory.calculatePercentageSize percent (Memory.sys e));
        [reflexivity | discriminate]. }
    split; [exact Ht|]. simpl. rewrite Ht. reflexivity.
  - intros t percent e err w evs H. unfold Storage.tick_error in H.
    assert (Ht : Storage.tick t percent e w = Some w).
    { unfold Storage.tick, Storage.adjust. destruct w as [st d].
      destruct (Storage.calculatePercentageSize percent (Storage.freeSpace e));
        [reflexivity | discriminate]. }
    split; [exact Ht|]. simpl. rewrite Ht. reflexivity.
  - intros c w m s. split; reflexivity.
Qed.

(** [target_not_positive] at work: with 8 GiB in use by the runtime
    the memory controller returns at once; with no free space at a
    tick the storage controller keeps its file. *)
Lemma target_not_positive_witness :
  Memory.generateDynamicLoad percent50 (mem_env (8 * GiB)) [Tick (mem_env 0)]
  = Returned Memory.empty
  /\ Storage.tick 7 percent50 (sto_env 0) sto_one = Some sto_one.
Proof.
  split.
  - apply (proj1 target_not_positive percent50 (mem_env (8 * GiB))
             Memory.ErrInsufficientFreeMemory).
    vm_compute. reflexivity.
  - apply (proj1 (proj2 (proj2 (proj2 (proj2 target_not_positive))))
             7%nat percent50 (sto_env 0) Storage.ErrInvalidSize
             sto_one []).
    vm_compute. reflexivity.
Defined.

(** Claim C5 as stated fails: the storage controller that finds no
    free space at a tick computes no positive target, and does not
    exit; at the next tick it grows. *)
Lemma tick_failure_goes_on :
  Storage.calculatePercentageSize percent50 (Some 0)
  = inl Storage.ErrInvalidSize
  /\ exists w',
      Storage.loop 7 percent50 [Tick (sto_env 0); Tick (sto_env 3000)]
        sto_one = Running w'
      /\ Storage.currentFiles w'.1 = [file0; file1].
Proof.
  split; [vm_compute; reflexivity|].
  eexists. split; [vm_compute; reflexivity | reflexivity].
Qed.

End Exhaustion.

(* ------------------------------------------------------------------ *)
(** ** The tracked total *)

Module TrackedTotal.
Import Controller FileSystem Example.

(** The memory controller keeps its invariant wherever it is
    observed in its loop: the tracked total is the sum of the buffer
    lengths, and buffer 0 is there. *)
Lemma memory_invariant (percent : Float64.float64) (e0 : Memory.env)
    (evs : list (event Memory.env)) (st : Memory.state) :
  Memory.generateDynamicLoad percent e0 evs = Running st ->
  Invariant.memory st.
Proof.
  unfold Memory.generateDynamicLoad.
  destruct (Memory.initialize percent e0) as [err|[st0|]] eqn:Hinit;
    try discriminate.
  apply MemoryFacts.loop_preserves.
  eapply MemoryFacts.initialize_establishes. exact Hinit.
Qed.

(** Claim C3 does not hold of the storage controller.  It starts on
    [--storage 50%] with 1000 bytes free and writes file 0 of 450
    bytes.  One tick later, the target unchanged, the liveness step
    has appended 1024 bytes to file 0: 1474 bytes are held, 450 are
    tracked.  In another run the second tick sees 3000 bytes free,
    file 1 of 900 bytes is written and the liveness step appends 1024
    bytes to it; the third tick sees 2000 bytes free and deletes
    file 1, taking its 1924 bytes off the tracked 1350: the tracked
    total is -574 while file 0 is held. *)
Theorem storage_total_drifts :
  (exists st d,
      Storage.performDynamicStorageOperations 7 percent50 (sto_env 1000)
        [Tick (sto_env 1000)] disk0 = (Running (st, d), None)
      /\ Storage.currentFiles st = [file0]
      /\ Storage.totalWritten st = 450
      /\ disk_usage d (Storage.currentFiles st) = 1474)
  /\ (exists st d,
      Storage.performDynamicStorageOperations 7 percent50 (sto_env 1000)
        [Tick (sto_env_odd 3000); Tick (sto_env 2000)] disk0
      = (Running (st, d), None)
      /\ Storage.currentFiles st = [file0]
      /\ Storage.totalWritten st = -574
      /\ disk_usage d (Storage.currentFiles st) = 1474).
Proof.
  split; eexists _, _; (split; [vm_compute; reflexivity|]);
    repeat split; vm_compute; reflexivity.
Qed.

End TrackedTotal.

(* ------------------------------------------------------------------ *)
(** ** The size pattern *)

Module PatternFacts.
Import GoString SizeParser.

Lemma span_spec (p : ascii -> bool) (s : gostring) :
  forall a b, span p s = (a, b) ->
    s = a ++ b /\ Forall (fun c => p c = true) a
    /\ (b = [] \/ exists c b', b = c :: b' /\ p c = false).
Proof.
  induction s as [|c s IH]; intros a b; simpl.
  - intros [= <- <-]. repeat split; auto.
  - destruct (p c) eqn:Hc.
    + destruct (span p s) as [a' b'] eqn:Hs. intros [= <- <-].
      destruct (IH a' b' eq_refl) as (-> & Hall & Hb).
      repeat split; auto.
    + intros [= <- <-]. repeat split; auto.
      right. exists c, s. auto.
Qed.

Lemma span_app (p : ascii -> bool) (a b : gostring) :
  Forall (fun c => p c = true) a ->
  (b = [] \/ exists c b', b = c :: b' /\ p c = false) ->
  span p (a ++ b) = (a, b).
Proof.
  intros Ha Hb. induction Ha as [|c a Hc Ha IH]; simpl.
  - destruct Hb as [->|(c & b' & -> & Hc)]; simpl; [reflexivity|].
    rewrite Hc. reflexivity.
  - rewrite Hc, IH. reflexivity.
Qed.

Lemma code_inj (c c' : ascii) : code c = code c' -> c = c'.
Proof.
  unfold code. intros H.
  rewrite <- (ascii_N_embedding c), <- (ascii_N_embedding c'), H.
  reflexivity.
Qed.

Lemma is_unit_cases (u : gostring) :
  is_unit u = true ->
  u = str "" \/ u = str "B" \/ u = str "K" \/ u = str "KB" \/ u = str "M"
  \/ u = str "MB" \/ u = str "G" \/ u = str "GB" \/ u = str "T"
  \/ u = str "TB".
Proof.
  unfold is_unit. cbn [map existsb]. unfold eqb.
  rewrite !orb_true_iff, !bool_decide_eq_true.
  intuition (auto; discriminate).
Qed.

(** A unit starts with none of the characters that come before it in
    the pattern. *)
Lemma unit_head (u : gostring) :
  is_unit u = true ->
  u = [] \/ exists c u', u = c :: u' /\ is_digit c = false
                        /\ is_re_space c = false /\ code c <> 46%N.
Proof.
  intros H. apply is_unit_cases in H.
  repeat (destruct H as [->|H]); try subst u;
    first [left; reflexivity
          | right; eexists _, _; split; [reflexivity|];
            repeat split; (reflexivity || discriminate)].
Qed.

(** What [find_submatch] returns matches the pattern. *)
Lemma find_submatch_sound (u num unit : gostring) :
  find_submatch u = Some (num, unit) -> size_pattern u num unit.
Proof.
  unfold find_submatch.
  destruct (span is_digit u) as [ds r1] eqn:Hds.
  destruct (span_spec _ _ _ _ Hds) as (Hu & Hdig & Hr1).
  destruct ds as [|d ds]; [discriminate|].
  assert (Hd : digits (d :: ds)) by (split; [discriminate | exact Hdig]).
  set (pick := match r1 with
               | c :: r =>
                   if (code c =? 46)%N then
                     let '(fs, r') := span is_digit r in
                     match fs with
                     | [] => (d :: ds, r1)
                     | _ :: _ => ((d :: ds) ++ c :: fs, r')
                     end
                   else (d :: ds, r1)
               | [] => (d :: ds, r1)
               end).
  assert (Hpick : exists r2, pick = (fst pick, r2) /\ number (fst pick)
                             /\ u = fst pick ++ r2).
  { unfold pick. destruct r1 as [|c r]; [eexists; repeat split; [left|]; auto|].
    destruct (code c =? 46)%N eqn:Hc;
      [|eexists; repeat split; [left|]; auto].
    destruct (span is_digit r) as [fs r'] eqn:Hfs.
    destruct (span_spec _ _ _ _ Hfs) as (Hr & Hfdig & _).
    destruct fs as [|f fs]; [eexists; repeat split; [left|]; auto|].
    exists r'. split; [reflexivity|]. cbn [fst]. split.
    - right. exists (d :: ds), (f :: fs).
      split; [exact Hd|]. split; [split; [discriminate | exact Hfdig]|].
      apply N.eqb_eq in Hc. f_equal. f_equal. apply code_inj. exact Hc.
    - rewrite Hu, Hr, <- app_assoc. reflexivity. }
  destruct Hpick as (r2 & Hp & Hnum & Hu2). rewrite Hp.
  destruct (span is_re_space r2) as [ws un] eqn:Hws.
  destruct (span_spec _ _ _ _ Hws) as (Hr2 & Hsp & _).
  cbn [snd]. destruct (is_unit un) eqn:Hun; [|discriminate].
  intros [= <- <-]. split; [exact Hnum|]. split; [exact Hun|].
  exists ws. split; [exact Hsp|]. rewrite Hu2, Hr2. reflexivity.
Qed.

(** Whatever matches the pattern is what [find_submatch] returns. *)
Lemma find_submatch_complete (u num unit : gostring) :
  size_pattern u num unit -> find_submatch u = Some (num, unit).
Proof.
  intros (Hnum & Hun & ws & Hws & ->).
  pose proof (unit_head unit Hun) as Hhead.
  assert (Hrest : ws ++ unit = []
                  \/ exists c r, ws ++ unit = c :: r /\ is_digit c = false
                                 /\ code c <> 46%N).
  { destruct Hws as [|w ws Hw Hws]; simpl.
    - destruct Hhead as [->|(c & u' & -> & H1 & _ & H3)]; [left; reflexivity|].
      right. exists c, u'. auto.
    - right. exists w, (ws ++ unit). split; [reflexivity|].
      unfold is_re_space, is_digit in *.
      destruct (code w =? 9)%N eqn:E1; [apply N.eqb_eq in E1; rewrite E1; split; [reflexivity|discriminate]|].
      destruct (code w =? 10)%N eqn:E2; [apply N.eqb_eq in E2; rewrite E2; split; [reflexivity|discriminate]|].
      destruct (code w =? 12)%N eqn:E3; [apply N.eqb_eq in E3; rewrite E3; split; [reflexivity|discriminate]|].
      destruct (code w =? 13)%N eqn:E4; [apply N.eqb_eq in E4; rewrite E4; split; [reflexivity|discriminate]|].
      destruct (code w =? 32)%N eqn:E5; [apply N.eqb_eq in E5; rewrite E5; split; [reflexivity|discriminate]|].
      discriminate. }
  assert (Hsp : span is_re_space (ws ++ unit) = (ws, unit)).
  { apply span_app; [exact Hws|].
    destruct Hhead as [->|(c & u' & -> & _ & H2 & _)]; [left; reflexivity|].
    right. exists c, u'. auto. }
  unfold find_submatch.
  destruct Hnum as [[Hne Hdig]|(ds & fs & [Hne Hdig] & [Hfne Hfdig] & ->)].
  - rewrite (span_app is_digit num (ws ++ unit) Hdig)
      by (destruct Hrest as [->|(c & r & -> & H1 & _)];
          [left; reflexivity | right; exists c, r; auto]).
    destruct num as [|d num]; [contradiction|].
    destruct Hrest as [Hr|(c & r & Hr & _ & Hdot)]; rewrite Hr.
    + rewrite Hr in Hsp. rewrite Hsp. cbn [snd]. rewrite Hun. reflexivity.
    + apply N.eqb_neq in Hdot. rewrite Hdot.
      rewrite Hr in Hsp. rewrite Hsp. cbn [snd]. rewrite Hun. reflexivity.
  - rewrite <- app_assoc. cbn [app].
    rewrite (span_app is_digit ds ("."%char :: fs ++ ws ++ unit) Hdig)
      by (right; eexists _, _; split; reflexivity).
    destruct ds as [|d ds]; [contradiction|].
    change (code "."%char =? 46)%N with true. cbv iota.
    rewrite (span_app is_digit fs (ws ++ unit) Hfdig)
      by (destruct Hrest as [->|(c & r & -> & H1 & _)];
          [left; reflexivity | right; exists c, r; auto]).
    destruct fs as [|f fs]; [contradiction|].
    rewrite Hsp. cbn [snd]. rewrite Hun. reflexivity.
Qed.

Lemma no_percent_suffix (l : gostring) :
  Forall (fun c => code c <> 37%N) l -> has_suffix_percent l = false.
Proof.
  intros H. unfold has_suffix_percent.
  destruct (rev l) as [|c r] eqn:Hr; [reflexivity|].
  apply N.eqb_neq.
  assert (Hin : In c l) by (apply in_rev; rewrite Hr; left; reflexivity).
  rewrite Forall_forall in H. apply H. apply list_elem_of_In. exact Hin.
Qed.

Lemma upper_byte_percent (c : ascii) :
  (code (upper_byte c) =? 37)%N = (code c =? 37)%N.
Proof.
  unfold upper_byte.
  destruct ((97 <=? code c) && (code c <=? 122))%N eqn:H; [|reflexivity].
  apply andb_true_iff in H as [H1 H2].
  apply N.leb_le in H1. apply N.leb_le in H2.
  unfold code at 1. rewrite N_ascii_embedding by lia.
  destruct (N.eqb_spec (code c - 32) 37); destruct (N.eqb_spec (code c) 37);
    try reflexivity; lia.
Qed.

Lemma has_suffix_percent_upper (t : gostring) :
  has_suffix_percent (to_upper t) = has_suffix_percent t.
Proof.
  unfold has_suffix_percent, to_upper. rewrite <- map_rev.
  destruct (rev t) as [|c r]; [reflexivity|]. simpl.
  apply upper_byte_percent.
Qed.

Lemma digit_not_percent (c : ascii) : is_digit c = true -> code c <> 37%N.
Proof.
  unfold is_digit. intros H. apply andb_true_iff in H as [H _].
  apply N.leb_le in H. lia.
Qed.

Lemma space_not_percent (c : ascii) : is_re_space c = true -> code c <> 37%N.
Proof.
  unfold is_re_space. intros H Hc. rewrite Hc in H. discriminate.
Qed.

Lemma pattern_no_percent (u num unit : gostring) :
  size_pattern u num unit -> has_suffix_percent u = false.
Proof.
  intros (Hnum & Hun & ws & Hws & ->). apply no_percent_suffix.
  apply Forall_app. split; [|apply Forall_app; split].
  - destruct Hnum as [[_ H]|(ds & fs & [_ Hd] & [_ Hf] & ->)].
    + eapply Forall_impl; [exact H | apply digit_not_percent].
    + apply Forall_app. split;
        [eapply Forall_impl; [exact Hd | apply digit_not_percent]|].
      constructor; [discriminate|].
      eapply Forall_impl; [exact Hf | apply digit_not_percent].
  - eapply Forall_impl; [exact Hws | apply space_not_percent].
  - apply is_unit_cases in Hun.
    repeat (destruct Hun as [->|Hun]); try subst unit;
      repeat constructor; discriminate.
Qed.

(** The [switch] finds every unit the pattern lets through: its
    [default] branch is dead code. *)
Lemma unit_multiplier_unit (unit : gostring) :
  is_unit unit = true ->
  unit_multiplier unit = Some (1024 ^ unit_index unit).
Proof.
  intros H. apply is_unit_cases in H.
  repeat (destruct H as [->|H]); try subst unit; reflexivity.
Qed.

Lemma ParseFloat_decimal_ok : decimal_ParseFloat ParseFloat_decimal.
Proof.
  intros num Hnum. unfold ParseFloat_decimal, is_decimal.
  rewrite (find_submatch_complete num num []).
  - unfold eqb. rewrite bool_decide_eq_true_2 by reflexivity. reflexivity.
  - split; [exact Hnum|]. split; [reflexivity|].
    exists []. split; [constructor|]. rewrite !app_nil_r. reflexivity.
Qed.

End PatternFacts.


(* ------------------------------------------------------------------ *)
(** ** parseSize *)

Module ParserFacts.
Import GoString Float64 SizeParser PatternFacts.

Lemma has_suffix_percent_last (r : gostring) (c : ascii) :
  has_suffix_percent (r ++ [c]) = (code c =? 37)%N.
Proof. unfold has_suffix_percent. rewrite rev_unit. reflexivity. Qed.

Lemma has_suffix_percent_inv (t : gostring) :
  has_suffix_percent t = true -> exists r, t = r ++ ["%"%char].
Proof.
  unfold has_suffix_percent. intros H.
  destruct (rev t) as [|c r] eqn:Hr; [discriminate|].
  exists (rev r). apply N.eqb_eq in H.
  rewrite <- (rev_involutive t), Hr. simpl. do 2 f_equal.
  apply code_inj. exact H.
Qed.

(** The percentage branch. *)
Lemma parseSize_percent (ParseFloat : gostring -> option float64)
    (s r : gostring) :
  trim_space s = r ++ ["%"%char] ->
  parseSize ParseFloat s
  = match ParseFloat r with
    | None => Err (ErrInvalidPercentage r)
    | Some percent =>
        if ltb percent (of_Z 0) || ltb (of_Z 100) percent
        then Err (ErrPercentageRange percent)
        else Ok (to_int64 (opp percent))
    end.
Proof.
  intros Ht. unfold parseSize, trim_suffix_percent. rewrite Ht.
  rewrite has_suffix_percent_last. change (code "%"%char =? 37)%N with true.
  cbv iota. rewrite removelast_last. reflexivity.
Qed.

(** The absolute branch on a string that matches the pattern. *)
Lemma parseSize_pattern (ParseFloat : gostring -> option float64)
    (s num unit : gostring) :
  size_pattern (to_upper (trim_space s)) num unit ->
  parseSize ParseFloat s
  = match ParseFloat num with
    | None => Err (ErrParseFloat num)
    | Some value =>
        Ok (to_int64 (mul value (of_Z (1024 ^ unit_index unit))))
    end.
Proof.
  intros Hp. unfold parseSize.
  rewrite <- has_suffix_percent_upper, (pattern_no_percent _ _ _ Hp).
  rewrite (find_submatch_complete _ _ _ Hp).
  destruct Hp as (_ & Hun & _).
  rewrite (unit_multiplier_unit unit Hun). reflexivity.
Qed.

(** The absolute branch on a string that does not match. *)
Lemma parseSize_no_match (ParseFloat : gostring -> option float64)
    (s : gostring) :
  has_suffix_percent (trim_space s) = false ->
  (forall num unit, ~ size_pattern (to_upper (trim_space s)) num unit) ->
  parseSize ParseFloat s = Err (ErrInvalidSizeFormat (trim_space s)).
Proof.
  intros Hs Hno. unfold parseSize. rewrite Hs.
  destruct (find_submatch (to_upper (trim_space s))) as [[num unit]|] eqn:Hf;
    [|reflexivity].
  exfalso. apply (Hno num unit). apply find_submatch_sound. exact Hf.
Qed.

(** No input makes [parseSize] fail with "unsupported unit". *)
Lemma parseSize_never_unsupported (ParseFloat : gostring -> option float64)
    (s : gostring) :
  is_UnsupportedUnit (parseSize ParseFloat s) = false.
Proof.
  unfold parseSize.
  destruct (has_suffix_percent (trim_space s)).
  - destruct (ParseFloat _) as [p|]; [|reflexivity].
    destruct (_ || _); reflexivity.
  - destruct (find_submatch _) as [[num unit]|] eqn:Hf; [|reflexivity].
    apply find_submatch_sound in Hf as (_ & Hun & _).
    rewrite (unit_multiplier_unit unit Hun).
    destruct (ParseFloat num); reflexivity.
Qed.

(** Only the percentage branch fails with "invalid percentage". *)
Lemma parseSize_invalid_percentage (ParseFloat : gostring -> option float64)
    (s : gostring) :
  is_InvalidPercentage (parseSize ParseFloat s) = true ->
  has_suffix_percent (trim_space s) = true.
Proof.
  unfold parseSize.
  destruct (has_suffix_percent (trim_space s)); [reflexivity|].
  destruct (find_submatch _) as [[num unit]|]; [|discriminate].
  destruct (ParseFloat num); [|discriminate].
  destruct (unit_multiplier unit); discriminate.
Qed.

End ParserFacts.

(* ------------------------------------------------------------------ *)
(** ** A percentage between 0 and 100 *)

Module PercentFacts.
Import Float64.

Lemma digits2_pos_bound (m : positive) :
  Zpos m < 2 ^ Zpos (digits2_pos m).
Proof.
  induction m as [m IH|m IH|]; cbn [digits2_pos];
    rewrite ?Pos2Z.inj_succ, ?Z.pow_succ_r by lia; lia.
Qed.

(** The mantissa of a binary64 has at most 53 bits. *)
Lemma valid_mantissa (s : bool) (m : positive) (e : Z) :
  valid_binary prec emax (S754_finite s m e) = true -> Zpos m < 2 ^ 53.
Proof.
  unfold valid_binary, bounded, canonical_mantissa, fexp, emin, prec, emax.
  intros H. apply andb_true_iff in H as [H _]. apply Z.eqb_eq in H.
  pose proof (digits2_pos_bound m) as Hm.
  assert (Hd : Zpos (digits2_pos m) <= 53) by lia.
  pose proof (Z.pow_le_mono_r 2 _ 53 ltac:(lia) Hd). lia.
Qed.

Lemma hundred : of_Z 100 = S754_finite false 7036874417766400 (-46).
Proof. reflexivity. Qed.

(** A float that is neither below 0 nor above 100 is a zero, a NaN, or
    a positive number of at most 100. *)
Lemma between_0_100 (p : float64) :
  ltb p (of_Z 0) = false -> ltb (of_Z 100) p = false ->
  match p with
  | S754_zero _ | S754_nan => True
  | S754_infinity _ => False
  | S754_finite s m e =>
      s = false /\ e <= -46
      /\ (e = -46 -> Zpos m <= 7036874417766400)
  end.
Proof.
  rewrite hundred. change (of_Z 0) with (S754_zero false).
  unfold ltb, SFltb, SFcompare. destruct p as [s|s| |s m e]; auto.
  - destruct s; discriminate.
  - destruct s; [discriminate|]. intros _.
    destruct (Z.compare (-46) e) eqn:Hc; try discriminate.
    + apply Z.compare_eq in Hc. subst e.
      change (PosDef.Pos.compare_cont Eq 7036874417766400 m)
        with (Pos.compare 7036874417766400 m).
      destruct (Pos.compare 7036874417766400 m) eqn:E; try discriminate;
        intros _; (split; [reflexivity|]); (split; [lia|]); intros _.
      * apply Pos.compare_eq in E. subst m. reflexivity.
      * apply Pos.compare_gt_iff in E. apply Z.lt_le_incl. exact E.
    + apply Z.compare_gt_iff in Hc. intros _.
      split; [reflexivity|]. split; lia.
Qed.

(** What [parseSize] returns for such a percentage. *)
Lemma to_int64_percent (p : float64) :
  valid_binary prec emax p = true ->
  ltb p (of_Z 0) = false -> ltb (of_Z 100) p = false ->
  p <> S754_nan ->
  -100 <= to_int64 (opp p) <= 0
  /\ trunc p = Some (- to_int64 (opp p)).
Proof.
  intros Hv H0 H100 Hnan.
  pose proof (between_0_100 p H0 H100) as Hp.
  destruct p as [s|s| |s m e]; try contradiction.
  - simpl. unfold to_int64. simpl. split; [lia | reflexivity].
  - destruct Hp as (-> & He & Hm).
    pose proof (valid_mantissa _ _ _ Hv) as Hm53.
    destruct e as [|e|e]; try lia.
    unfold to_int64, opp, SFopp, trunc. cbn [negb].
    rewrite Z.shiftr_div_pow2 by lia.
    set (a := Zpos m / 2 ^ (- Zneg e)).
    assert (Ha : 0 <= a <= 100).
    { unfold a. split; [apply Z.div_pos; lia|].
      destruct (Z.eq_dec (Zneg e) (-46)) as [E|E].
      - rewrite E. specialize (Hm E).
        apply Z.div_le_upper_bound; lia.
      - assert (Hk : 47 <= - Zneg e) by lia.
        pose proof (Z.pow_le_mono_r 2 47 (- Zneg e) ltac:(lia) Hk) as Hpow.
        apply Z.lt_le_incl, Z.le_lt_trans with 64; [|lia].
        apply Z.lt_succ_r. apply Z.div_lt_upper_bound; lia. }
    assert (Hr : (Int64.min_int <=? - a) && (- a <=? Int64.max_int) = true).
    { apply andb_true_iff. unfold Int64.min_int, Int64.max_int.
      split; apply Z.leb_le; lia. }
    rewrite Hr. split; [lia|]. f_equal. lia.
Qed.

End PercentFacts.

(* ------------------------------------------------------------------ *)
(** ** Multiplying by a power of 1024 *)

Module PowerFacts.
Import Float64.

Lemma digits_shifted (m : positive) :
  digits2_pos (4503599627370496 * m) = Pos.iter Pos.succ (digits2_pos m) 52.
Proof. reflexivity. Qed.

Lemma shr_shifted (m : positive) :
  SpecFloat.iter_pos shr_1 52
    {| shr_m := Zpos (4503599627370496 * m); shr_r := false; shr_s := false |}
  = {| shr_m := Zpos m; shr_r := false; shr_s := false |}.
Proof. reflexivity. Qed.

Lemma mul_pow2 (k : Z) (s : bool) (m : positive) (e : Z) :
  0 <= k <= 4 ->
  digits2_pos m = 53%positive ->
  -1074 <= e -> e + 10 * k <= 971 ->
  mul (S754_finite s m e) (of_Z (1024 ^ k)) = S754_finite s m (e + 10 * k).
Proof.
  intros Hk Hd Hlo Hhi.
  assert (Hof : of_Z (1024 ^ k) = S754_finite false 4503599627370496 (10 * k - 52)).
  { assert (H : k = 0 \/ k = 1 \/ k = 2 \/ k = 3 \/ k = 4) by lia.
    repeat (destruct H as [->|H]); try subst k; reflexivity. }
  rewrite Hof. unfold mul, SFmul.
  rewrite xorb_false_r, Pos.mul_comm.
  unfold binary_round_aux, shr_fexp, Zdigits2.
  rewrite digits_shifted, Hd.
  change (Pos.iter Pos.succ 53%positive 52) with 105%positive.
  unfold fexp, emin, prec, emax.
  replace (Z.max (105 + (e + (10 * k - 52)) - 53) (3 - 1024 - 53) - (e + (10 * k - 52)))
    with 52 by lia.
  unfold shr. cbn [shr_record_of_loc]. rewrite shr_shifted.
  cbn [shr_m loc_of_shr_record round_nearest_even shr_record_of_loc].
  rewrite Hd.
  replace (Z.max (53 + (e + (10 * k - 52) + 52) - 53) (3 - 1024 - 53) - (e + (10 * k - 52) + 52))
    with 0 by lia.
  cbn [shr_m].
  replace (e + (10 * k - 52) + 52) with (e + 10 * k) by lia.
  destruct (e + 10 * k <=? 1024 - 53) eqn:Hle; [reflexivity|].
  apply Z.leb_gt in Hle. lia.
Qed.

End PowerFacts.

(* ------------------------------------------------------------------ *)
(** ** The storage controller's invariant along a run *)

Module StorageInvariantFacts.
Import Controller FileSystem Storage.
Import Int64Facts ControllerFacts FileSystemFacts DynamicStorageFacts.

(** The write loop never writes more than the volume takes. *)
Lemma write_chunks_bounds (fuel : nat) :
  forall (cap size written : Z),
    0 <= written -> size <= Int64.max_int ->
    written + Z.max 0 cap + bufferSize <= Int64.max_int ->
    written <= (write_chunks fuel cap size written).1
               <= written + Z.max 0 cap.
Proof.
  unfold bufferSize.
  induction fuel as [|fuel IH]; intros cap size written Hw Hs Hmax;
    cbn [write_chunks]; [simpl; lia|].
  unfold bufferSize.
  destruct (written <? size) eqn:Hlt; [|simpl; lia].
  apply Z.ltb_lt in Hlt.
  rewrite add_id
    by (unfold Int64.in_range, Int64.min_int, Int64.max_int in *; lia).
  rewrite sub_id
    by (unfold Int64.in_range, Int64.min_int, Int64.max_int in *; lia).
  set (writeSize := if size <? written + 64 * 1024
                    then size - written else 64 * 1024).
  assert (Hws : 0 < writeSize <= 64 * 1024).
  { unfold writeSize. destruct (size <? written + 64 * 1024) eqn:Hc;
      [apply Z.ltb_lt in Hc|]; lia. }
  destruct (writeSize <=? cap) eqn:Hcap; [|simpl; lia].
  apply Z.leb_le in Hcap.
  rewrite add_id
    by (unfold Int64.in_range, Int64.min_int, Int64.max_int in *; lia).
  specialize (IH (cap - writeSize) size (written + writeSize)
                ltac:(lia) Hs ltac:(lia)).
  lia.
Qed.

(** After [writeFile], with or without an error, the file it wrote, if
    any, has a size that is not negative. *)
Lemma writeFile_size (w : write_env) (p : path) (size : Z) (d : fs) :
  size <= Int64.max_int ->
  capacity w + bufferSize <= Int64.max_int ->
  (writeFile w p size d).2 = true ->
  exists sz, files (writeFile w p size d).1 !! p = Some sz /\ 0 <= sz.
Proof.
  intros Hs Hcap. unfold writeFile.
  destruct (create_ok w && _); [|discriminate].
  pose proof (write_chunks_bounds (chunks_needed size) (capacity w) size 0
                ltac:(lia) Hs
                ltac:(unfold bufferSize, Int64.max_int in *; lia)) as Hb.
  destruct (write_chunks _ _ _ _) as [written ok]. simpl in *.
  intros _. exists written. split; [apply lookup_insert_eq | lia].
Qed.

Lemma lookup_not_in_take {A} (l : list A) (j : nat) (x : A) :
  NoDup l -> l !! j = Some x -> x ∉ take j l.
Proof.
  intros Hnd Hx Hin.
  rewrite <- (take_drop_middle l j x Hx) in Hnd.
  apply NoDup_app in Hnd as (_ & Hdis & _).
  apply (Hdis x Hin). elems.
Qed.

Lemma elem_take {A} (l : list A) (k : nat) (q : A) :
  q ∈ take k l -> q ∈ l.
Proof. intros H. rewrite <- (take_drop k l). elems. Qed.

(** Whatever the volume does, the deletion loop keeps a non-empty
    prefix of the list and leaves the kept files as they are. *)
Lemma delete_files_keeps (e : env) (i : nat) :
  forall (excess deleted : Z) (st st' : state) (d d' : fs) (del' : Z),
    NoDup (currentFiles st) ->
    delete_files e i excess deleted (st, d) = Some (st', d', del') ->
    (exists k, (1 <= k)%nat /\ currentFiles st' = take k (currentFiles st))
    /\ dirs d' = dirs d
    /\ fileCounter st' = fileCounter st
    /\ (forall q, q ∈ currentFiles st' -> files d' !! q = files d !! q).
Proof.
  induction i as [|i IH]; intros excess deleted st st' d d' del' Hnd;
    cbn [delete_files].
  - intros [= <- <- <-]. split; [|auto].
    exists (S (length (currentFiles st))). split; [lia|].
    rewrite take_ge; [reflexivity | lia].
  - destruct (deleted <? excess).
    + destruct (currentFiles st !! S i) as [x|] eqn:Hx; simpl; [|discriminate].
      destruct (stat x d) as [sz|]; [destruct (remove_ok e x)|].
      * intros H. apply IH in H as ((k & Hk & Hpre) & Hdirs & Hcnt & Hfiles);
          [|simpl; eapply sublist_NoDup; [exact Hnd | apply sublist_take]].
        simpl in *. split; [|split; [exact Hdirs|split; [exact Hcnt|]]].
        { exists (Nat.min k (S i)). split; [lia|].
          rewrite Hpre. apply take_take. }
        intros q Hq. rewrite (Hfiles q Hq).
        apply lookup_delete_ne. intros ->.
        apply (lookup_not_in_take _ _ _ Hnd Hx).
        rewrite Hpre in Hq. eapply elem_take. exact Hq.
      * apply IH. exact Hnd.
      * apply IH. exact Hnd.
    + intros [= <- <- <-]. split; [|auto].
      exists (S (length (currentFiles st))). split; [lia|].
      rewrite take_ge; [reflexivity | lia].
Qed.

(** The liveness step keeps the invariant when what it appends is not
    negative. *)
Lemma liveness_preserves (t : nat) (e : env) (w w' : state * fs) :
  0 <= appended e ->
  Invariant.storage t w -> liveness e w = Some w' -> Invariant.storage t w'.
Proof.
  intros Happ [Hdir Hfloor Hnames Hnd Hfiles] Hlive.
  destruct (liveness_state _ _ _ Hlive) as [Hst Hdirs].
  destruct w as [st d], w' as [st' d']. simpl in *. subst st'.
  split; simpl; try assumption.
  - rewrite Hdirs. exact Hdir.
  - intros p Hp. destruct (Hfiles p Hp) as (sz & Hsz & H0).
    clear Hfloor Hnames Hnd Hp Hfiles.
    revert Hlive. unfold liveness.
    destruct (currentFiles st) as [|p0 l]; [intros [= <-]; eauto|].
    destruct (_ <? 0); [discriminate|].
    match goal with |- context [?a !! ?i ≫= _] =>
      destruct (a !! i) as [x|] end; simpl; [|discriminate].
    intros [= <-]. unfold appendToFile.
    destruct (files d !! x) as [sx|] eqn:Hsx; [|eauto].
    simpl. destruct (decide (p = x)) as [->|Hne].
    + rewrite lookup_insert_eq. exists (sx + appended e).
      split; [reflexivity|].
      rewrite Hsz in Hsx. injection Hsx as <-. lia.
    + rewrite lookup_insert_ne by congruence. eauto.
Qed.

(** So does the adjustment, on a volume with less than 8 EiB free,
    whether its writes and removals work or not. *)
Lemma adjust_preserves (t : nat) (percent : Float64.float64) (e : env)
    (w : state * fs) (a : adjusted) :
  capacity (wvolume e) + bufferSize <= Int64.max_int ->
  Invariant.storage t w ->
  adjust t percent e w = Some a ->
  Invariant.storage t (world_of a).
Proof.
  intros Hcap Hinv. pose proof Hinv as [Hdir Hfloor Hnames Hnd Hfiles].
  destruct w as [st d]. simpl in *. unfold adjust.
  destruct (calculatePercentageSize _ _) as [err|target];
    [intros [= <-]; exact Hinv|].
  destruct (totalWritten st <? target).
  - destruct (0 <? _); [|intros [= <-]; exact Hinv].
    set (p := (t, dynamic_file (fileCounter st))).
    set (size := Int64.sub target (totalWritten st)).
    assert (Hfresh : p ∉ currentFiles st).
    { intros Hin. destruct (Hnames _ Hin) as (i & Heq & Hi).
      unfold p, dynamic_file in Heq. injection Heq as Heq. lia. }
    assert (Hframe : forall q, q ∈ currentFiles st ->
              files (writeFile (wvolume e) p size d).1 !! q = files d !! q).
    { intros q Hq. apply writeFile_frame. intros ->. auto. }
    pose proof (writeFile_dirs (wvolume e) p size d) as Hdirs.
    pose proof (writeFile_size (wvolume e) p size d) as Hsize.
    destruct (writeFile (wvolume e) p size d) as [d' ok] eqn:Hwf.
    simpl in *. destruct ok; intros [= <-]; split; simpl.
    + rewrite Hdirs. exact Hdir.
    + destruct Hfloor as [x Hx]. exists x. apply lookup_app_l_Some. exact Hx.
    + intros q Hq. apply elem_of_app in Hq as [Hq|Hq].
      * destruct (Hnames q Hq) as (i & -> & Hi). exists i. split; [reflexivity|lia].
      * apply list_elem_of_singleton in Hq as ->.
        exists (fileCounter st). split; [reflexivity | lia].
    + apply NoDup_app. split; [exact Hnd|]. split.
      * intros q Hq Hq'. apply list_elem_of_singleton in Hq' as ->. auto.
      * apply NoDup_singleton.
    + intros q Hq. apply elem_of_app in Hq as [Hq|Hq].
      * rewrite (Hframe q Hq). apply Hfiles. exact Hq.
      * apply list_elem_of_singleton in Hq as ->. apply Hsize; [|exact Hcap|reflexivity].
        pose proof (wrap64_range (target - totalWritten st)) as Hr.
        unfold size, Int64.sub, Int64.in_range in *. lia.
    + rewrite Hdirs. exact Hdir.
    + exact Hfloor.
    + exact Hnames.
    + exact Hnd.
    + intros q Hq. rewrite (Hframe q Hq). apply Hfiles. exact Hq.
  - destruct (_ && _); [|intros [= <-]; exact Hinv].
    destruct (delete_files _ _ _ _ _) as [[[st' d'] del']|] eqn:Hdel;
      simpl; [|discriminate].
    intros [= <-]. simpl.
    destruct (delete_files_keeps _ _ _ _ _ _ _ _ _ Hnd Hdel)
      as ((k & Hk & Hpre) & Hdirs & Hcnt & Hkeep).
    split; simpl.
    + rewrite Hdirs. exact Hdir.
    + rewrite Hpre, lookup_take_lt by lia. exact Hfloor.
    + intros q Hq. rewrite Hcnt. apply Hnames.
      rewrite Hpre in Hq. eapply elem_take. exact Hq.
    + rewrite Hpre. eapply sublist_NoDup; [exact Hnd | apply sublist_take].
    + intros q Hq. rewrite (Hkeep q Hq). apply Hfiles.
      rewrite Hpre in Hq. eapply elem_take. exact Hq.
Qed.

Lemma sto_tick_preserves (t : nat) (percent : Float64.float64) (e : env)
    (w w' : state * fs) :
  capacity (wvolume e) + bufferSize <= Int64.max_int ->
  0 <= appended e ->
  Invariant.storage t w ->
  tick t percent e w = Some w' ->
  Invariant.storage t w'.
Proof.
  intros Hcap Happ Hinv. unfold tick.
  destruct (adjust t percent e w) as [a|] eqn:Ha; [|discriminate].
  pose proof (adjust_preserves t percent e w a Hcap Hinv Ha) as Hinv'.
  destruct a as [w1|w1]; simpl in Hinv'.
  - intros [= <-]. exact Hinv'.
  - apply liveness_preserves; assumption.
Qed.

Lemma sto_initialize_establishes (t : nat) (percent : Float64.float64)
    (e : env) (d : fs) (w : state * fs) :
  capacity (wvolume e) + bufferSize <= Int64.max_int ->
  t ∈ dirs d ->
  initialize t percent e d = inr w ->
  Invariant.storage t w.
Proof.
  intros Hcap Hdir. unfold initialize.
  destruct (calculatePercentageSize _ _) as [err|target] eqn:Hcalc;
    [discriminate|].
  pose proof (sto_target_range _ _ _ Hcalc) as Ht.
  destruct (0 <? target) eqn:H0; [|apply Z.ltb_ge in H0; lia].
  set (p := (t, dynamic_file 0)).
  pose proof (writeFile_dirs (wvolume e) p target d) as Hdirs.
  pose proof (writeFile_size (wvolume e) p target d ltac:(lia) Hcap) as Hsize.
  destruct (writeFile (wvolume e) p target d) as [d' ok] eqn:Hwf.
  simpl in *. destruct ok; [|discriminate]. intros [= <-]. split; simpl.
  - rewrite Hdirs. exact Hdir.
  - eexists. reflexivity.
  - intros q Hq. apply list_elem_of_singleton in Hq as ->.
    exists 0%nat. split; [reflexivity | lia].
  - apply NoDup_singleton.
  - intros q Hq. apply list_elem_of_singleton in Hq as ->.
    apply Hsize. reflexivity.
Qed.

Lemma sto_loop_preserves (t : nat) (percent : Float64.float64)
    (evs : list (event env)) :
  (forall e, Tick e ∈ evs -> Invariant.sane_volume e) ->
  forall w w', Invariant.storage t w ->
    loop t percent evs w = Running w' -> Invariant.storage t w'.
Proof.
  induction evs as [|[|e] evs IH]; intros Hsane w w' Hinv; simpl.
  - intros [= <-]. exact Hinv.
  - discriminate.
  - destruct (tick t percent e w) as [w1|] eqn:Ht; [|discriminate].
    destruct (Hsane e ltac:(elems)) as [Hcap Happ].
    apply IH; [intros e' He'; apply Hsane; elems|].
    eapply sto_tick_preserves; eassumption.
Qed.

(** Wherever the storage controller is observed in its loop, file 0 is
    listed, the listed files are distinct files of the temporary
    directory, and each is on the volume. *)
Lemma storage_invariant (t : nat) (percent : Float64.float64) (e0 : env)
    (evs : list (event env)) (d : fs) (w : state * fs) :
  t ∈ dirs d ->
  Invariant.sane_volume e0 ->
  (forall e, Tick e ∈ evs -> Invariant.sane_volume e) ->
  performDynamicStorageOperations t percent e0 evs d = (Running w, None) ->
  Invariant.storage t w.
Proof.
  intros Hdir [Hcap _] Hsane. unfold performDynamicStorageOperations.
  destruct (initialize t percent e0 d) as [[err d']|w0] eqn:Hinit;
    [discriminate|].
  intros [= Hloop]. eapply sto_loop_preserves; [exact Hsane| |exact Hloop].
  eapply sto_initialize_establishes; eassumption.
Qed.

End StorageInvariantFacts.

(* ------------------------------------------------------------------ *)
(** ** Whole numbers below 2^53 *)

Module IntegerFacts.
Import Float64.

Lemma iter_xO_value (n j : positive) :
  Zpos (Pos.iter xO n j) = Zpos n * 2 ^ Zpos j.
Proof.
  induction j as [|j IH] using Pos.peano_ind.
  - simpl. lia.
  - rewrite Pos.iter_succ, Pos2Z.inj_succ, Z.pow_succ_r by lia.
    rewrite Pos2Z.inj_xO, IH. lia.
Qed.

Lemma iter_xO_digits (n j : positive) :
  digits2_pos (Pos.iter xO n j) = (digits2_pos n + j)%positive.
Proof.
  induction j as [|j IH] using Pos.peano_ind.
  - simpl. lia.
  - rewrite Pos.iter_succ. cbn [digits2_pos]. rewrite IH. lia.
Qed.

Lemma shiftl_iter_xO (n j : positive) :
  Z.shiftl (Zpos n) (Zpos j) = Zpos (Pos.iter xO n j).
Proof.
  rewrite Z.shiftl_mul_pow2 by lia. symmetry. apply iter_xO_value.
Qed.

Lemma div_eucl_1 (a : Z) : Z.div_eucl a 1 = (a, 0).
Proof.
  pose proof (Z.div_1_r a) as Hq. pose proof (Z.mod_1_r a) as Hr.
  unfold Z.div, Z.modulo in *.
  destruct (Z.div_eucl a 1) as [q r]. simpl in *. congruence.
Qed.

(** halving an even mantissa loses nothing *)
Lemma shr_1_even (p : positive) :
  shr_1 {| shr_m := Zpos (xO p); shr_r := false; shr_s := false |}
  = {| shr_m := Zpos p; shr_r := false; shr_s := false |}.
Proof. reflexivity. Qed.

Lemma digits2_pos_lower (n : positive) :
  2 ^ (Zpos (digits2_pos n) - 1) <= Zpos n.
Proof.
  induction n as [n IH|n IH|]; cbn [digits2_pos];
    rewrite ?Pos2Z.inj_succ;
    try (replace (Z.succ (Zpos (digits2_pos n)) - 1)
           with (Z.succ (Zpos (digits2_pos n) - 1)) by lia;
         rewrite Z.pow_succ_r by lia);
    simpl; lia.
Qed.

(** [float64(n)] for a whole number below 2^53, read from its decimal
    digits: the mantissa is [n] shifted to 53 bits. *)
Lemma of_ratio_whole (n : positive) :
  Zpos n < 2 ^ 53 ->
  exists m : positive,
    of_ratio n 1 = S754_finite false m (Zpos (digits2_pos n) - 53)
    /\ digits2_pos m = 53%positive
    /\ Zpos m = Zpos n * 2 ^ (53 - Zpos (digits2_pos n)).
Proof.
  intros Hn. set (D := digits2_pos n).
  assert (HD : Zpos D <= 53).
  { pose proof (digits2_pos_lower n) as Hl. fold D in Hl.
    destruct (Z_le_gt_dec (Zpos D) 53) as [H|H]; [exact H|exfalso].
    pose proof (Z.pow_le_mono_r 2 53 (Zpos D - 1) ltac:(lia) ltac:(lia)). lia. }
  assert (Hcore : SFdiv_core_binary prec emax (Zpos n) 0 1 0
                  = (Z.shiftl (Zpos n) (54 - Zpos D), Zpos D - 54, loc_Exact)).
  { unfold SFdiv_core_binary, Zdigits2, fexp, emin, prec, emax. fold D.
    cbn [digits2_pos].
    replace (Z.min (Z.max (Z.pos D + 0 - (1 + 0) - 53) (3 - 1024 - 53)) (0 - 0))
      with (Zpos D - 54) by lia.
    replace (0 - 0 - (Zpos D - 54)) with (54 - Zpos D) by lia.
    destruct (54 - Zpos D) as [|j|j] eqn:Hj; try lia.
    rewrite div_eucl_1. reflexivity. }
  unfold of_ratio. rewrite Hcore.
  destruct (54 - Zpos D) as [|j|j] eqn:Hj; try lia.
  rewrite shiftl_iter_xO.
  unfold binary_round_aux, shr_fexp, Zdigits2.
  rewrite iter_xO_digits. fold D.
  unfold fexp, emin, prec, emax.
  replace (Z.max (Zpos (D + j) + (Zpos D - 54) - 53) (3 - 1024 - 53)
           - (Zpos D - 54)) with 1 by lia.
  unfold shr. cbn [shr_record_of_loc SpecFloat.iter_pos].
  (* the mantissa is even: one more bit than 53 *)
  assert (Heven : exists m, Pos.iter xO n j = xO m
                            /\ digits2_pos m = 53%positive
                            /\ Zpos m = Zpos n * 2 ^ (53 - Zpos D)).
  { destruct (Pos.eq_dec j 1%positive) as [->|Hj1].
    - exists n. simpl. split; [reflexivity|]. fold D.
      split; [lia|]. replace (53 - Zpos D) with 0 by lia. lia.
    - destruct (Pos.succ_pred_or j) as [H|H]; [contradiction|].
      exists (Pos.iter xO n (Pos.pred j)).
      split; [rewrite <- H at 1; apply Pos.iter_succ|].
      split; [rewrite iter_xO_digits; fold D; lia|].
      rewrite iter_xO_value. f_equal. f_equal. lia. }
  destruct Heven as (m & Hm & Hd & Hv). rewrite Hm, shr_1_even.
  cbn [shr_m loc_of_shr_record round_nearest_even shr_record_of_loc].
  rewrite Hd.
  replace (Z.max (53 + (Zpos D - 54 + 1) - 53) (3 - 1024 - 53)
           - (Zpos D - 54 + 1)) with 0 by lia.
  cbn [shr_m].
  replace (Zpos D - 54 + 1) with (Zpos D - 53) by lia.
  destruct (Zpos D - 53 <=? 1024 - 53) eqn:Hle; [|apply Z.leb_gt in Hle; lia].
  exists m. auto.
Qed.

Lemma pow_1024 (k : Z) : 0 <= k -> 1024 ^ k = 2 ^ (10 * k).
Proof. intros Hk. rewrite Z.pow_mul_r by lia. reflexivity. Qed.

(** The integer part of [m * 2^e] when that is the whole number
    [n * 2^(10 k)]. *)
Lemma trunc_whole (m : positive) (n D k : Z) :
  1 <= D <= 53 -> 0 <= k -> 0 < n ->
  Zpos m = n * 2 ^ (53 - D) ->
  trunc (S754_finite false m (D - 53 + 10 * k)) = Some (n * 1024 ^ k).
Proof.
  intros HD Hk Hn Hm. unfold trunc. rewrite pow_1024 by lia. f_equal.
  destruct (D - 53 + 10 * k) as [|E|E] eqn:HE.
  - rewrite Z.shiftl_0_r, Hm. replace (53 - D) with (10 * k) by lia.
    reflexivity.
  - rewrite Z.shiftl_mul_pow2, Hm by lia.
    rewrite <- Z.mul_assoc, <- Z.pow_add_r by lia.
    replace (53 - D + Zpos E) with (10 * k) by lia. reflexivity.
  - rewrite Z.shiftr_div_pow2, Hm by lia.
    replace (53 - D) with (10 * k + (- Zneg E)) by lia.
    rewrite Z.pow_add_r, Z.mul_assoc by lia.
    apply Z.div_mul. pose proof (Z.pow_pos_nonneg 2 (- Zneg E)). lia.
Qed.

Import GoString SizeParser.

Lemma parse_decimal_whole (ds : gostring) :
  digits ds ->
  parse_decimal ds
  = match digits_value ds with
    | N0 => Some (S754_zero false)
    | Npos n =>
        match of_ratio n 1 with
        | S754_infinity _ | S754_nan => None
        | x => Some x
        end
    end.
Proof.
  intros [_ Hd]. unfold parse_decimal.
  rewrite <- (app_nil_r ds) at 1.
  rewrite (PatternFacts.span_app is_digit ds [] Hd) by (left; reflexivity).
  rewrite app_nil_r. reflexivity.
Qed.

(** A whole number of bytes, kilobytes, ... is returned exactly. *)
Lemma parseSize_whole (ParseFloat : gostring -> option float64)
    (s ds unit : gostring) :
  decimal_ParseFloat ParseFloat ->
  digits ds ->
  size_pattern (to_upper (trim_space s)) ds unit ->
  Z.of_N (digits_value ds) < 2 ^ 53 ->
  Z.of_N (digits_value ds) * 1024 ^ unit_index unit < 2 ^ 63 ->
  parseSize ParseFloat s
  = Ok (Z.of_N (digits_value ds) * 1024 ^ unit_index unit).
Proof.
  intros HPF Hds Hp Hn Hprod.
  rewrite (ParserFacts.parseSize_pattern ParseFloat s ds unit Hp).
  rewrite (HPF ds (or_introl Hds)), (parse_decimal_whole ds Hds).
  assert (Hk : 0 <= unit_index unit <= 4).
  { unfold unit_index. destruct unit as [|c u]; [lia|].
    repeat (match goal with |- context [if ?b then _ else _] => destruct b end);
      lia. }
  destruct (digits_value ds) as [|n].
  - assert (Hz : mul (S754_zero false) (of_Z (1024 ^ unit_index unit))
                 = S754_zero false).
    { assert (H : unit_index unit = 0 \/ unit_index unit = 1
                  \/ unit_index unit = 2 \/ unit_index unit = 3
                  \/ unit_index unit = 4) by lia.
      repeat (destruct H as [->|H]); try rewrite H; reflexivity. }
    rewrite Hz. reflexivity.
  - change (Z.of_N (Npos n)) with (Zpos n) in *.
    destruct (of_ratio_whole n Hn) as (m & Hr & Hd & Hm).
    rewrite Hr.
    pose proof (digits2_pos_lower n) as Hlow.
    assert (HD : 1 <= Zpos (digits2_pos n) <= 53).
    { split; [lia|].
      destruct (Z_le_gt_dec (Zpos (digits2_pos n)) 53) as [H|H]; [exact H|].
      exfalso.
      pose proof (Z.pow_le_mono_r 2 53 (Zpos (digits2_pos n) - 1)
                    ltac:(lia) ltac:(lia)). lia. }
    rewrite PowerFacts.mul_pow2 by (auto; lia).
    unfold to_int64.
    rewrite (trunc_whole m (Zpos n) (Zpos (digits2_pos n)) (unit_index unit))
      by (auto; lia).
    assert (H0 : 0 <= Zpos n * 1024 ^ unit_index unit).
    { pose proof (Z.pow_nonneg 1024 (unit_index unit)). lia. }
    assert (Hr' : (Int64.min_int <=? Zpos n * 1024 ^ unit_index unit)
                  && (Zpos n * 1024 ^ unit_index unit <=? Int64.max_int)
                  = true).
    { apply andb_true_iff. unfold Int64.min_int, Int64.max_int.
      split; apply Z.leb_le; lia. }
    rewrite Hr'. reflexivity.
Qed.

End IntegerFacts.

(* ------------------------------------------------------------------ *)
(** ** What the storage load leaves alone *)

Module FrameFacts.
Import Controller FileSystem Storage ControllerFacts FileSystemFacts.
Import Invariant.

Lemma same_outside_refl (t : nat) (d : fs) : same_outside t d d.
Proof. split; intros; reflexivity. Qed.

Lemma same_outside_trans (t : nat) (d1 d2 d3 : fs) :
  same_outside t d1 d2 -> same_outside t d2 d3 -> same_outside t d1 d3.
Proof.
  intros [F1 D1] [F2 D2]. split.
  - intros q Hq. rewrite (F2 q Hq). apply F1. exact Hq.
  - intros t' Ht'. rewrite (D2 t' Ht'). apply D1. exact Ht'.
Qed.

Lemma writeFile_outside (w : write_env) (p : path) (size : Z) (d : fs) :
  same_outside p.1 d (writeFile w p size d).1.
Proof.
  split.
  - intros q Hq. apply writeFile_frame. intros ->. contradiction.
  - intros t' _. rewrite writeFile_dirs. reflexivity.
Qed.

Lemma appendToFile_outside (n : Z) (p : path) (d : fs) :
  same_outside p.1 d (appendToFile n p d).
Proof.
  unfold appendToFile. destruct (files d !! p) as [sz|];
    [|apply same_outside_refl].
  split; simpl; [|reflexivity].
  intros q Hq. apply lookup_insert_ne. intros ->. contradiction.
Qed.

Lemma remove_outside (p : path) (d : fs) : same_outside p.1 d (remove p d).
Proof.
  split; simpl; [|reflexivity].
  intros q Hq. apply lookup_delete_ne. intros ->. contradiction.
Qed.

Lemma mkdirTemp_outside (t : nat) (d : fs) : same_outside t d (mkdirTemp t d).
Proof.
  split; simpl; [reflexivity|].
  intros t' Ht'. rewrite elem_of_union, elem_of_singleton. tauto.
Qed.

Lemma removeAll_outside (t : nat) (d : fs) : same_outside t d (removeAll t d).
Proof.
  split.
  - intros q Hq. simpl. destruct (files d !! q) as [x|] eqn:Hx.
    + apply map_lookup_filter_Some. split; [exact Hx | exact Hq].
    + apply map_lookup_filter_None. left. exact Hx.
  - intros t' Ht'. simpl. rewrite elem_of_difference, elem_of_singleton. tauto.
Qed.

(** The static allocator. *)
Lemma write_phase_outside (t : nat) (fileSize : Z)
    (turns : nat -> write_turn) (paths : list path) :
  (forall p, p ∈ paths -> p.1 = t) ->
  forall (i : nat) (d : fs),
    same_outside t d (write_phase fileSize turns i paths d).1.
Proof.
  induction paths as [|p paths IH]; intros Hin i d; cbn [write_phase].
  - apply same_outside_refl.
  - destruct (done_before (turns i)); [apply same_outside_refl|].
    pose proof (writeFile_outside (volume (turns i)) p fileSize d) as Hw.
    rewrite (Hin p) in Hw by elems.
    destruct (writeFile (volume (turns i)) p fileSize d) as [d' ok].
    simpl in Hw. destruct ok; [|exact Hw].
    eapply same_outside_trans; [exact Hw|].
    apply IH. intros q Hq. apply Hin. elems.
Qed.

Lemma static_loop_outside (t : nat) (evs : list (event Z)) :
  forall st : nat * fs,
    same_outside t st.2 (final (static_loop t evs st)).2.
Proof.
  induction evs as [|[|a] evs IH]; intros [n d]; cbn [static_loop final];
    try apply same_outside_refl.
  eapply same_outside_trans; [|apply IH].
  simpl. apply (appendToFile_outside a (t, static_file (n mod numFiles)) d).
Qed.

(** The dynamic controller. *)
Lemma delete_files_outside (t : nat) (e : env) (i : nat) :
  forall (excess deleted : Z) (st st' : state) (d d' : fs) (del' : Z),
    listed_in t st ->
    delete_files e i excess deleted (st, d) = Some (st', d', del') ->
    same_outside t d d' /\ listed_in t st'.
Proof.
  induction i as [|i IH]; intros excess deleted st st' d d' del' Hin;
    cbn [delete_files].
  - intros [= <- <- <-]. split; [apply same_outside_refl | exact Hin].
  - destruct (deleted <? excess);
      [|intros [= <- <- <-]; split; [apply same_outside_refl | exact Hin]].
    destruct (currentFiles st !! S i) as [x|] eqn:Hx; simpl; [|discriminate].
    destruct (stat x d) as [sz|]; [destruct (remove_ok e x)|];
      try (apply IH; exact Hin).
    intros H. apply IH in H as [Hout Hin'].
    + split; [|exact Hin'].
      eapply same_outside_trans; [|exact Hout].
      pose proof (remove_outside x d) as Hr.
      rewrite (Hin x) in Hr; [exact Hr|].
      eapply list_elem_of_lookup_2. exact Hx.
    + intros p Hp. simpl in Hp. apply Hin.
      rewrite <- (take_drop (S i) (currentFiles st)). elems.
Qed.

Lemma liveness_outside (t : nat) (e : env) (w w' : state * fs) :
  listed_in t w.1 -> liveness e w = Some w' ->
  same_outside t w.2 w'.2 /\ w'.1 = w.1.
Proof.
  destruct w as [st d]. unfold liveness. simpl. intros Hin.
  destruct (currentFiles st) as [|p l] eqn:Hl;
    [intros [= <-]; split; [apply same_outside_refl | reflexivity]|].
  destruct (_ <? 0); [discriminate|].
  match goal with |- context [?a !! ?i ≫= _] =>
    destruct (a !! i) as [x|] eqn:Hx end; simpl; [|discriminate].
  intros [= <-]. simpl. split; [|reflexivity].
  pose proof (appendToFile_outside (appended e) x d) as Ha.
  rewrite (Hin x) in Ha; [exact Ha|].
  rewrite Hl. eapply list_elem_of_lookup_2. exact Hx.
Qed.

Lemma adjust_outside (t : nat) (percent : Float64.float64) (e : env)
    (w : state * fs) (a : adjusted) :
  listed_in t w.1 -> adjust t percent e w = Some a ->
  same_outside t w.2 (world_of a).2 /\ listed_in t (world_of a).1.
Proof.
  destruct w as [st d]. simpl. intros Hin. unfold adjust.
  destruct (calculatePercentageSize _ _) as [err|target];
    [intros [= <-]; split; [apply same_outside_refl | exact Hin]|].
  destruct (totalWritten st <? target).
  - destruct (0 <? _);
      [|intros [= <-]; split; [apply same_outside_refl | exact Hin]].
    match goal with |- context [writeFile ?v ?p ?n d] =>
      pose proof (writeFile_outside v p n d) as Hw;
      destruct (writeFile v p n d) as [d' ok]
    end.
    simpl in Hw. destruct ok; intros [= <-]; simpl; (split; [exact Hw|]);
      [|exact Hin].
    intros p Hp. simpl in Hp. apply elem_of_app in Hp as [Hp|Hp];
      [apply Hin; exact Hp|].
    apply list_elem_of_singleton in Hp as ->. reflexivity.
  - destruct (_ && _);
      [|intros [= <-]; split; [apply same_outside_refl | exact Hin]].
    destruct (delete_files _ _ _ _ _) as [[[st' d'] del']|] eqn:Hdel;
      simpl; [|discriminate].
    intros [= <-]. simpl. eapply delete_files_outside; eassumption.
Qed.

Lemma tick_outside (t : nat) (percent : Float64.float64) (e : env)
    (w w' : state * fs) :
  listed_in t w.1 -> tick t percent e w = Some w' ->
  same_outside t w.2 w'.2 /\ listed_in t w'.1.
Proof.
  intros Hin. unfold tick.
  destruct (adjust t percent e w) as [a|] eqn:Ha; [|discriminate].
  destruct (adjust_outside t percent e w a Hin Ha) as [Hout Hin'].
  destruct a as [w1|w1]; simpl in *.
  - intros [= <-]. auto.
  - intros Hl. destruct (liveness_outside t e w1 w' Hin' Hl) as [Hout' Hst].
    split; [eapply same_outside_trans; eassumption|].
    rewrite Hst. exact Hin'.
Qed.

Lemma loop_outside (t : nat) (percent : Float64.float64)
    (evs : list (event env)) :
  forall w : state * fs,
    listed_in t w.1 ->
    same_outside t w.2 (final (loop t percent evs w)).2.
Proof.
  induction evs as [|[|e] evs IH]; intros w Hin; cbn [loop final];
    try apply same_outside_refl.
  destruct (tick t percent e w) as [w'|] eqn:Ht;
    [|apply same_outside_refl].
  destruct (tick_outside t percent e w w' Hin Ht) as [Hout Hin'].
  eapply same_outside_trans; [exact Hout|]. apply IH. exact Hin'.
Qed.

Lemma dynamic_outside (t : nat) (percent : Float64.float64) (e0 : env)
    (evs : list (event env)) (d : fs) :
  same_outside t d
    (final (performDynamicStorageOperations t percent e0 evs d).1).2.
Proof.
  unfold performDynamicStorageOperations, initialize.
  destruct (calculatePercentageSize _ _) as [err|target];
    [apply same_outside_refl|].
  destruct (0 <? target).
  - pose proof (writeFile_outside (wvolume e0) (t, dynamic_file 0) target d)
      as Hw.
    destruct (writeFile _ _ _ _) as [d' ok]. simpl in Hw.
    destruct ok; [|exact Hw]. cbn [fst].
    eapply same_outside_trans; [exact Hw|].
    apply (loop_outside t percent evs (_, d')).
    intros p Hp. simpl in Hp. apply list_elem_of_singleton in Hp as ->.
    reflexivity.
  - cbn [fst]. apply (loop_outside t percent evs (empty, d)).
    intros p Hp. simpl in Hp. apply elem_of_nil in Hp. contradiction.
Qed.

Lemma static_outside (t : nat) (totalSize : Z) (turns : nat -> write_turn)
    (evs : list (event Z)) (d : fs) :
  same_outside t d
    (final (performStorageOperations t totalSize turns evs d).1).2.
Proof.
  unfold performStorageOperations.
  pose proof (write_phase_outside t (fileSize_of totalSize) turns
                (filePaths t)) as Hw.
  specialize (Hw ltac:(intros p Hp; unfold filePaths in Hp;
                       apply list_elem_of_fmap in Hp as (i & -> & _);
                       reflexivity) 0%nat d).
  destruct (write_phase _ _ _ _ _) as [d' [| |]]; simpl in *; try exact Hw.
  eapply same_outside_trans; [exact Hw|].
  apply (static_loop_outside t evs (0%nat, d')).
Qed.

Lemma leave_outside {S : Type} (t : nat) (d : fs) (o : outcome (S * fs)) :
  same_outside t d (final o).2 -> same_outside t d (final (leave t o)).
Proof.
  destruct o as [[s d']|[s d']|[s d']]; simpl; intros H; try exact H;
    (eapply same_outside_trans; [exact H | apply removeAll_outside]).
Qed.

Lemma GenerateLoad_outside (size : Z) (r : run) (d : fs) (t : nat) :
  tempDir r = Some t ->
  same_outside t d (final (GenerateLoad size r d)).
Proof.
  intros Ht. unfold GenerateLoad. rewrite Ht.
  destruct (size <? 0); apply leave_outside;
    (eapply same_outside_trans; [apply mkdirTemp_outside|]).
  - apply dynamic_outside.
  - apply static_outside.
Qed.

End FrameFacts.

(* ------------------------------------------------------------------ *)
(** ** Segment 0 *)

Module FloorFacts.
Import Controller FileSystem ControllerFacts Int64Facts.

(** The memory controller never lets go of its first buffer. *)
Lemma memory_tick_floor (percent : Float64.float64) (e : Memory.env)
    (st st' : Memory.state) (b : Z) :
  Invariant.memory st ->
  Memory.tick percent e st = Some st' ->
  Memory.buffers st !! O = Some b ->
  Memory.buffers st' !! O = Some b.
Proof.
  intros Hinv Ht Hb.
  destruct (MemoryFacts.tick_cases percent e st st' Hinv Ht)
    as [->|[(n & _ & Hl & _)|(k & Hk & Hl & _)]]; [exact Hb| |].
  - rewrite Hl. apply lookup_app_l_Some. exact Hb.
  - rewrite Hl, lookup_take_lt by lia. exact Hb.
Qed.

Lemma memory_loop_floor (percent : Float64.float64)
    (evs : list (event Memory.env)) (b : Z) :
  forall st st', Invariant.memory st ->
    Memory.buffers st !! O = Some b ->
    Memory.loop percent evs st = Running st' ->
    Memory.buffers st' !! O = Some b.
Proof.
  induction evs as [|[|e] evs IH]; intros st st' Hinv Hb; simpl.
  - intros [= <-]. exact Hb.
  - discriminate.
  - destruct (Memory.tick percent e st) as [st1|] eqn:Ht; [|discriminate].
    apply IH.
    + eapply MemoryFacts.tick_preserves; eassumption.
    + eapply memory_tick_floor; eassumption.
Qed.

Lemma first_le_sum (b : Z) (l : list Z) :
  Forall (fun n => 0 < n) l -> l !! O = Some b -> b <= sum_sizes l.
Proof.
  destruct l as [|x l]; [discriminate|]. simpl. intros H [= ->].
  inversion H as [|? ? _ Hl]; subst.
  pose proof (sum_sizes_pos l Hl). lia.
Qed.

Lemma memory_floor (percent : Float64.float64) (e0 : Memory.env)
    (evs : list (event Memory.env)) (st : Memory.state) (target : Z) :
  Memory.calculatePercentageSize percent (Memory.sys e0) = inr target ->
  Memory.generateDynamicLoad percent e0 evs = Running st ->
  Memory.buffers st !! O = Some target
  /\ target <= Memory.totalAllocated st.
Proof.
  intros Hcalc Hrun.
  assert (Hinv : Invariant.memory st).
  { revert Hrun. unfold Memory.generateDynamicLoad.
    destruct (Memory.initialize percent e0) as [err|[st0|]] eqn:Hinit;
      try discriminate.
    apply MemoryFacts.loop_preserves.
    eapply MemoryFacts.initialize_establishes. exact Hinit. }
  assert (Hb : Memory.buffers st !! O = Some target).
  { revert Hrun. unfold Memory.generateDynamicLoad.
    destruct (Memory.initialize percent e0) as [err|[st0|]] eqn:Hinit;
      try discriminate.
    pose proof (MemoryFacts.initialize_establishes _ _ _ Hinit) as Hinv0.
    apply memory_loop_floor; [exact Hinv0|].
    revert Hinit. unfold Memory.initialize. rewrite Hcalc.
    pose proof (MemoryFacts.mem_target_range _ _ _ Hcalc) as Ht.
    destruct (0 <? target) eqn:H0; [|apply Z.ltb_ge in H0; lia].
    unfold Memory.allocate. destruct (Memory.alloc_ok e0); [|discriminate].
    intros [= <-]. reflexivity. }
  split; [exact Hb|].
  destruct Hinv as [Htot Hpos _ _]. rewrite Htot.
  apply first_le_sum; assumption.
Qed.

Import Storage FileSystemFacts DynamicStorageFacts StorageInvariantFacts.

(** On a volume with less than 8 EiB free, a [writeFile] loop that
    reports no error has written exactly [size] bytes. *)
Lemma write_chunks_exact (fuel : nat) :
  forall (cap size written w' : Z),
    0 <= written <= size -> size <= Int64.max_int ->
    written + Z.max 0 cap + bufferSize <= Int64.max_int ->
    size - written < Z.of_nat fuel * bufferSize ->
    write_chunks fuel cap size written = (w', true) ->
    w' = size.
Proof.
  unfold bufferSize.
  induction fuel as [|fuel IH]; intros cap size written w' Hw Hs Hmax Hfuel.
  - simpl in Hfuel. lia.
  - cbn [write_chunks]. unfold bufferSize.
    destruct (written <? size) eqn:Hlt;
      [|apply Z.ltb_ge in Hlt; intros [= <-]; lia].
    apply Z.ltb_lt in Hlt.
    rewrite add_id
      by (unfold Int64.in_range, Int64.min_int, Int64.max_int in *; lia).
    rewrite sub_id
      by (unfold Int64.in_range, Int64.min_int, Int64.max_int in *; lia).
    set (writeSize := if size <? written + 64 * 1024
                      then size - written else 64 * 1024).
    assert (Hws : 0 < writeSize <= 64 * 1024
                  /\ written + writeSize <= size
                  /\ (written + writeSize = size
                      \/ size - (written + writeSize)
                         < Z.of_nat fuel * (64 * 1024))).
    { unfold writeSize. destruct (size <? written + 64 * 1024) eqn:Hc;
        [apply Z.ltb_lt in Hc | apply Z.ltb_ge in Hc]; lia. }
    destruct (writeSize <=? cap) eqn:Hcap; [|discriminate].
    apply Z.leb_le in Hcap.
    rewrite add_id
      by (unfold Int64.in_range, Int64.min_int, Int64.max_int in *; lia).
    destruct (Z.eq_dec (written + writeSize) size) as [Heq|Hne].
    + rewrite Heq. destruct fuel; simpl; [congruence|].
      rewrite Z.ltb_irrefl. congruence.
    + apply IH; lia.
Qed.

Lemma writeFile_exact (w : write_env) (p : path) (size : Z) (d d' : fs) :
  0 <= size <= Int64.max_int ->
  capacity w + bufferSize <= Int64.max_int ->
  writeFile w p size d = (d', true) ->
  d' = {| dirs := dirs d; files := <[p := size]> (files d) |}.
Proof.
  intros Hs Hcap. unfold writeFile.
  destruct (create_ok w && _); [|discriminate].
  destruct (write_chunks _ _ _ _) as [written ok] eqn:Hwc.
  destruct ok; simpl; [|discriminate].
  apply write_chunks_exact in Hwc;
    [subst written | lia | lia
     | unfold bufferSize, Int64.max_int in *; lia
     | pose proof (chunks_needed_enough size ltac:(lia)); lia].
  destruct (sync_ok w); [|discriminate]. congruence.
Qed.

Import Invariant.

Lemma adjust_floor (t : nat) (percent : Float64.float64) (e : env)
    (w : state * fs) (a : adjusted) (f0 : path) (least : Z) :
  Invariant.storage t w ->
  floor_held f0 least w ->
  adjust t percent e w = Some a ->
  floor_held f0 least (world_of a).
Proof.
  intros [Hdir _ Hnames Hnd Hfiles] Hfl.
  pose proof Hfl as [H0 (sz & Hsz & Hle)].
  destruct w as [st d]. simpl in *.
  assert (Hin0 : f0 ∈ currentFiles st)
    by (eapply list_elem_of_lookup_2; exact H0).
  unfold adjust.
  destruct (calculatePercentageSize _ _) as [err|target];
    [intros [= <-]; exact Hfl|].
  destruct (totalWritten st <? target).
  - destruct (0 <? _); [|intros [= <-]; exact Hfl].
    set (p := (t, dynamic_file (fileCounter st))).
    assert (Hne : f0 <> p).
    { intros ->. destruct (Hnames _ Hin0) as (i & Heq & Hi).
      unfold p, dynamic_file in Heq. injection Heq as Heq. lia. }
    match goal with |- context [writeFile ?v p ?n d] =>
      pose proof (writeFile_frame v p f0 n d Hne) as Hfr;
      destruct (writeFile v p n d) as [d' ok]
    end.
    simpl in Hfr. destruct ok; intros [= <-]; split; simpl;
      try (exists sz; rewrite Hfr; auto); try exact H0.
    apply lookup_app_l_Some. exact H0.
  - destruct (_ && _); [|intros [= <-]; exact Hfl].
    destruct (delete_files _ _ _ _ _) as [[[st' d'] del']|] eqn:Hdel;
      simpl; [|discriminate].
    intros [= <-]. simpl.
    destruct (delete_files_keeps _ _ _ _ _ _ _ _ _ Hnd Hdel)
      as ((k & Hk & Hpre) & _ & _ & Hkeep).
    assert (H0' : currentFiles st' !! O = Some f0)
      by (rewrite Hpre, lookup_take_lt by lia; exact H0).
    split; [exact H0'|]. exists sz. split; [|exact Hle].
    rewrite Hkeep; [exact Hsz|].
    eapply list_elem_of_lookup_2. exact H0'.
Qed.

Lemma liveness_floor (e : env) (w w' : state * fs) (f0 : path) (least : Z) :
  0 <= appended e ->
  floor_held f0 least w ->
  liveness e w = Some w' ->
  floor_held f0 least w'.
Proof.
  intros Happ [H0 (sz & Hsz & Hle)] Hlive.
  destruct (liveness_state _ _ _ Hlive) as [Hst _].
  destruct w as [st d], w' as [st' d']. simpl in *. subst st'.
  split; [exact H0|]. simpl.
  revert Hlive. unfold liveness. clear H0.
  destruct (currentFiles st) as [|p0 l]; [intros [= <-]; eauto|].
  destruct (_ <? 0); [discriminate|].
  match goal with |- context [?a !! ?i ≫= _] =>
    destruct (a !! i) as [x|] end; simpl; [|discriminate].
  intros [= <-]. unfold appendToFile.
  destruct (files d !! x) as [sx|] eqn:Hsx; [|eauto].
  simpl. destruct (decide (f0 = x)) as [->|Hne].
  - rewrite lookup_insert_eq. exists (sx + appended e).
    split; [reflexivity|]. rewrite Hsz in Hsx. injection Hsx as <-. lia.
  - rewrite lookup_insert_ne by congruence. eauto.
Qed.

Lemma loop_floor (t : nat) (percent : Float64.float64)
    (evs : list (event env)) (f0 : path) (least : Z) :
  (forall e, Tick e ∈ evs -> Invariant.sane_volume e) ->
  forall w w', Invariant.storage t w -> floor_held f0 least w ->
    loop t percent evs w = Running w' -> floor_held f0 least w'.
Proof.
  induction evs as [|[|e] evs IH]; intros Hsane w w' Hinv Hfl; simpl.
  - intros [= <-]. exact Hfl.
  - discriminate.
  - destruct (tick t percent e w) as [w1|] eqn:Ht; [|discriminate].
    destruct (Hsane e ltac:(elems)) as [Hcap Happ].
    apply IH.
    + intros e' He'. apply Hsane. elems.
    + eapply sto_tick_preserves; eassumption.
    + revert Ht. unfold tick.
      destruct (adjust t percent e w) as [a|] eqn:Ha; [|discriminate].
      pose proof (adjust_floor t percent e w a f0 least Hinv Hfl Ha) as Hfl'.
      destruct a as [w2|w2]; simpl in Hfl'.
      * intros [= <-]. exact Hfl'.
      * apply liveness_floor; assumption.
Qed.

(** Wherever the storage controller is observed in its loop, the file
    it wrote first is listed first and holds at least the initial
    target. *)
Lemma storage_floor (t : nat) (percent : Float64.float64) (e0 : env)
    (evs : list (event env)) (d : fs) (w : state * fs) (target : Z) :
  t ∈ dirs d ->
  Invariant.sane_volume e0 ->
  (forall e, Tick e ∈ evs -> Invariant.sane_volume e) ->
  calculatePercentageSize percent (freeSpace e0) = inr target ->
  performDynamicStorageOperations t percent e0 evs d = (Running w, None) ->
  floor_held (t, dynamic_file 0) target w.
Proof.
  intros Hdir [Hcap Happ0] Hsane Hcalc.
  unfold performDynamicStorageOperations.
  destruct (initialize t percent e0 d) as [[err d']|w0] eqn:Hinit;
    [discriminate|].
  intros [= Hloop].
  pose proof (sto_initialize_establishes _ _ _ _ _ Hcap Hdir Hinit) as Hinv.
  eapply loop_floor; [exact Hsane | exact Hinv | | exact Hloop].
  revert Hinit. unfold initialize. rewrite Hcalc.
  pose proof (sto_target_range _ _ _ Hcalc) as Ht.
  destruct (0 <? target) eqn:H0; [|apply Z.ltb_ge in H0; lia].
  destruct (writeFile _ _ _ _) as [d1 ok] eqn:Hw.
  destruct ok; [|discriminate]. intros [= <-].
  apply writeFile_exact in Hw; [|lia|exact Hcap]. subst d1.
  split; [reflexivity|]. exists target. simpl.
  split; [apply lookup_insert_eq | lia].
Qed.

End FloorFacts.

(* ------------------------------------------------------------------ *)
(** ** The static allocator's read/append loop *)

Module StaticLoopFacts.
Import Controller FileSystem Storage ControllerFacts StaticStorageFacts.
Import DynamicStorageFacts.

(** Appending to one of distinct files adds to what they take. *)
Lemma disk_usage_append (a : Z) (p : path) (d : fs) (l : list path) :
  NoDup l -> p ∈ l -> is_Some (files d !! p) ->
  disk_usage (appendToFile a p d) l = disk_usage d l + a.
Proof.
  intros Hnd Hin [sz Hsz]. unfold appendToFile. rewrite Hsz.
  induction l as [|q l IH]; [apply elem_of_nil in Hin; contradiction|].
  apply NoDup_cons in Hnd as [Hq Hnd].
  change (q :: l) with ([q] ++ l). rewrite !disk_usage_app.
  destruct (decide (q = p)) as [->|Hne].
  - rewrite (disk_usage_single _ p (sz + a)) by apply lookup_insert_eq.
    rewrite (disk_usage_single d p sz Hsz).
    rewrite (disk_usage_ext _ d l); [lia|].
    intros x Hx. simpl. apply lookup_insert_ne. intros ->. auto.
  - apply elem_of_cons in Hin as [->|Hin]; [contradiction|].
    rewrite (IH Hnd Hin).
    rewrite (disk_usage_ext _ d [q]); [lia|].
    intros x Hx. apply list_elem_of_singleton in Hx as ->.
    simpl. apply lookup_insert_ne. congruence.
Qed.

Lemma appendToFile_keeps (a : Z) (p q : path) (d : fs) :
  is_Some (files d !! q) -> is_Some (files (appendToFile a p d) !! q).
Proof.
  intros Hq. unfold appendToFile. destruct (files d !! p) as [sz|]; [|exact Hq].
  simpl. destruct (decide (q = p)) as [->|Hne].
  - rewrite lookup_insert_eq. eexists; reflexivity.
  - rewrite lookup_insert_ne by congruence. exact Hq.
Qed.

Lemma static_file_listed (t n : nat) :
  (t, static_file (n mod numFiles)) ∈ filePaths t.
Proof.
  unfold filePaths. apply list_elem_of_fmap. exists (n mod numFiles)%nat.
  split; [reflexivity|]. apply elem_of_seq.
  pose proof (Nat.mod_upper_bound n numFiles ltac:(discriminate)).
  unfold numFiles in *. lia.
Qed.

(** Every tick adds what it appends; the counter counts the ticks. *)
Lemma static_loop_usage (t : nat) (evs : list (event Z)) :
  forall (n : nat) (d : fs),
    (forall p, p ∈ filePaths t -> is_Some (files d !! p)) ->
    let w := final (static_loop t evs (n, d)) in
    w.1 = (n + length (ticks evs))%nat
    /\ disk_usage w.2 (filePaths t)
       = disk_usage d (filePaths t) + sum_sizes (ticks evs)
    /\ (forall p, p ∈ filePaths t -> is_Some (files w.2 !! p)).
Proof.
  induction evs as [|[|a] evs IH]; intros n d Hex; cbn [static_loop final ticks].
  - simpl. repeat split; [lia | lia | exact Hex].
  - simpl. repeat split; [lia | lia | exact Hex].
  - cbn [static_tick].
    set (p := (t, static_file (n mod numFiles))).
    destruct (IH (S n) (appendToFile a p d)) as (H1 & H2 & H3).
    { intros q Hq. apply appendToFile_keeps, Hex, Hq. }
    split; [rewrite H1; simpl; lia|]. split; [|exact H3].
    rewrite H2, disk_usage_append;
      [simpl; lia | apply filePaths_NoDup | apply static_file_listed
       | apply Hex, static_file_listed].
Qed.

End StaticLoopFacts.

(* ------------------------------------------------------------------ *)
(** ** A full volume, and what cannot go wrong *)

Module SafetyFacts.
Import Controller FileSystem ControllerFacts Int64Facts FileSystemFacts.

(** On a volume that takes fewer bytes than are left to write, the
    loop fills the volume and fails. *)
Lemma write_chunks_full (fuel : nat) :
  forall (cap size written : Z),
    0 <= written -> 0 <= cap < size - written ->
    size <= Int64.max_int ->
    written + cap + bufferSize <= Int64.max_int ->
    size - written < Z.of_nat fuel * bufferSize ->
    write_chunks fuel cap size written = (written + cap, false).
Proof.
  unfold bufferSize.
  induction fuel as [|fuel IH]; intros cap size written Hw Hcap Hs Hmax Hfuel.
  - simpl in Hfuel. lia.
  - cbn [write_chunks]. unfold bufferSize.
    destruct (written <? size) eqn:Hlt; [|apply Z.ltb_ge in Hlt; lia].
    rewrite add_id
      by (unfold Int64.in_range, Int64.min_int, Int64.max_int in *; lia).
    rewrite sub_id
      by (unfold Int64.in_range, Int64.min_int, Int64.max_int in *; lia).
    destruct (size <? written + 64 * 1024) eqn:Hc.
    + apply Z.ltb_lt in Hc.
      destruct (size - written <=? cap) eqn:Hle;
        [apply Z.leb_le in Hle; lia|].
      f_equal. lia.
    + apply Z.ltb_ge in Hc.
      destruct (64 * 1024 <=? cap) eqn:Hle.
      * apply Z.leb_le in Hle.
        rewrite add_id
          by (unfold Int64.in_range, Int64.min_int, Int64.max_int in *; lia).
        rewrite IH by lia. f_equal. lia.
      * f_equal. lia.
Qed.

Lemma writeFile_full (w : write_env) (p : path) (size : Z) (d : fs) :
  create_ok w = true -> p.1 ∈ dirs d ->
  0 <= capacity w < size -> size <= Int64.max_int ->
  capacity w + bufferSize <= Int64.max_int ->
  writeFile w p size d
  = ({| dirs := dirs d; files := <[p := capacity w]> (files d) |}, false).
Proof.
  intros Hc Hd Hcap Hs Hmax. unfold writeFile.
  rewrite Hc, bool_decide_eq_true_2 by exact Hd. simpl.
  rewrite write_chunks_full;
    [reflexivity | lia | lia | exact Hs | lia
     | pose proof (chunks_needed_enough size ltac:(lia)); lia].
Qed.

(** The deletion loop stays inside the list. *)
Lemma delete_files_total (e : Storage.env) (i : nat) :
  forall (excess deleted : Z) (st : Storage.state) (d : fs),
    (i < length (Storage.currentFiles st))%nat ->
    is_Some (Storage.delete_files e i excess deleted (st, d)).
Proof.
  induction i as [|i IH]; intros excess deleted st d Hi;
    cbn [Storage.delete_files]; [eexists; reflexivity|].
  destruct (deleted <? excess); [|eexists; reflexivity].
  destruct (lookup_lt_is_Some_2 (Storage.currentFiles st) (S i) Hi)
    as [x Hx].
  rewrite Hx. simpl.
  destruct (stat x d) as [sz|]; [destruct (Storage.remove_ok e x)|];
    try (apply IH; lia).
  apply IH. simpl. rewrite length_take. lia.
Qed.

(** With a clock that is not before 1970, a tick of the storage
    controller does not panic. *)
Lemma storage_tick_total (t : nat) (percent : Float64.float64)
    (e : Storage.env) (w : Storage.state * fs) :
  0 <= Storage.now e -> is_Some (Storage.tick t percent e w).
Proof.
  intros Hnow. unfold Storage.tick.
  assert (Ha : is_Some (Storage.adjust t percent e w)).
  { destruct w as [st d]. unfold Storage.adjust.
    destruct (Storage.calculatePercentageSize _ _) as [err|target];
      [eexists; reflexivity|].
    destruct (Storage.totalWritten st <? target).
    - destruct (0 <? _); [|eexists; reflexivity].
      destruct (writeFile _ _ _ _) as [d' ok].
      destruct ok; eexists; reflexivity.
    - destruct (_ <? _) eqn:H1; simpl; [|eexists; reflexivity].
      destruct (1 <? length (Storage.currentFiles st))%nat eqn:H2;
        [|eexists; reflexivity].
      apply Nat.ltb_lt in H2.
      destruct (delete_files_total e (length (Storage.currentFiles st) - 1)
                  (Int64.sub (Storage.totalWritten st) target) 0 st d
                  ltac:(lia)) as [r Hr].
      rewrite Hr. eexists; reflexivity. }
  destruct Ha as [[w1|w1] Ha]; rewrite Ha; [eexists; reflexivity|].
  apply DynamicStorageFacts.liveness_runs. exact Hnow.
Qed.

Lemma storage_loop_no_crash (t : nat) (percent : Float64.float64)
    (evs : list (event Storage.env)) :
  (forall e, Tick e ∈ evs -> 0 <= Storage.now e) ->
  forall w w', Storage.loop t percent evs w <> Crashed w'.
Proof.
  induction evs as [|[|e] evs IH]; intros Hnow w w'; simpl; try discriminate.
  destruct (storage_tick_total t percent e w (Hnow e ltac:(elems)))
    as [w1 Hw]. rewrite Hw.
  apply IH. intros e' He'. apply Hnow. elems.
Qed.

Lemma storage_static_loop_no_crash (t : nat) (evs : list (event Z)) :
  forall w w', Storage.static_loop t evs w <> Crashed w'.
Proof.
  induction evs as [|[|a] evs IH]; intros w w'; simpl; try discriminate.
  apply IH.
Qed.

Lemma GenerateLoad_no_crash (size : Z) (r : Storage.run) (d d' : fs) :
  (forall e, Tick e ∈ Storage.dynamic_events r -> 0 <= Storage.now e) ->
  Storage.GenerateLoad size r d <> Crashed d'.
Proof.
  intros Hnow. unfold Storage.GenerateLoad.
  destruct (Storage.tempDir r) as [t|]; [|discriminate].
  destruct (size <? 0).
  - unfold Storage.performDynamicStorageOperations.
    destruct (Storage.initialize _ _ _ _) as [[err d1]|w]; simpl;
      [discriminate|].
    destruct (Storage.loop _ _ _ w) as [[s1 d1]|[s1 d1]|[s1 d1]] eqn:Hl;
      simpl; try discriminate.
    exfalso. eapply storage_loop_no_crash; eassumption.
  - unfold Storage.performStorageOperations.
    destruct (Storage.write_phase _ _ _ _ _) as [d1 [| |]]; simpl;
      try discriminate.
    destruct (Storage.static_loop _ _ _) as [[s1 d2]|[s1 d2]|[s1 d2]] eqn:Hl;
      simpl; try discriminate.
    exfalso. eapply storage_static_loop_no_crash; eassumption.
Qed.

(** A tick of the memory controller ends the process only when an
    allocation it needs fails; otherwise it holds at most the larger
    of what it held and the target. *)
Lemma memory_tick_safe (percent : Float64.float64) (e : Memory.env)
    (st : Memory.state) :
  Invariant.memory st ->
  match Memory.tick percent e st with
  | None =>
      Memory.alloc_ok e = false
      /\ exists target,
          Memory.calculatePercentageSize percent (Memory.sys e) = inr target
          /\ Memory.totalAllocated st < target
  | Some st' =>
      forall target,
        Memory.calculatePercentageSize percent (Memory.sys e) = inr target ->
        Memory.totalAllocated st'
        <= Z.max (Memory.totalAllocated st) target
  end.
Proof.
  intros Hinv.
  destruct (Memory.calculatePercentageSize percent (Memory.sys e))
    as [err|target] eqn:Hcalc.
  { unfold Memory.tick. rewrite Hcalc. intros t' [=]. }
  destruct (Z.lt_trichotomy (Memory.totalAllocated st) target)
    as [Hlt|[Heq|Hgt]].
  - destruct (Memory.alloc_ok e) eqn:Hok.
    + rewrite (MemoryFacts.mem_tick_grow percent e st target Hinv Hcalc Hlt Hok).
      intros t' [= <-]. simpl. lia.
    + destruct (Memory.tick percent e st) as [st'|] eqn:Ht.
      * exfalso. revert Ht. unfold Memory.tick, Memory.allocate.
        rewrite Hcalc, Hok.
        destruct (Memory.totalAllocated st <? target) eqn:H1;
          [|apply Z.ltb_ge in H1; lia].
        destruct (0 <? _) eqn:H0; [discriminate|].
        destruct Hinv as [Htot Hpos _ Hmax].
        pose proof (sum_sizes_pos _ Hpos).
        pose proof (MemoryFacts.mem_target_range _ _ _ Hcalc).
        rewrite sub_id in H0
          by (unfold Int64.in_range, Int64.min_int, Int64.max_int in *; lia).
        apply Z.ltb_ge in H0. lia.
      * split; [reflexivity|]. exists target. auto.
  - assert (Ht : Memory.tick percent e st = Some st).
    { unfold Memory.tick. rewrite Hcalc, Heq, Z.ltb_irrefl. reflexivity. }
    rewrite Ht. intros t' [= <-]. lia.
  - destruct (le_lt_dec 2 (length (Memory.buffers st))) as [Hlen|Hlen].
    + destruct (MemoryFacts.mem_tick_shrink percent e st target Hinv Hcalc
                  Hgt Hlen)
        as (st2 & Hst2 & (k & Hk & Hpre & _) & Hsum & _).
      rewrite Hst2. intros t' [= <-].
      destruct Hinv as [Htot Hpos _ _].
      assert (Hd : 0 <= sum_sizes (drop k (Memory.buffers st)))
        by (apply sum_sizes_pos, Forall_drop; exact Hpos).
      assert (Hsplit : sum_sizes (Memory.buffers st)
                       = sum_sizes (take k (Memory.buffers st))
                         + sum_sizes (drop k (Memory.buffers st))).
      { rewrite <- sum_sizes_app, take_drop. reflexivity. }
      rewrite Hsum, Hpre. lia.
    + assert (Ht : Memory.tick percent e st = Some st).
      { unfold Memory.tick. rewrite Hcalc.
        destruct (_ <? target) eqn:H1; [apply Z.ltb_lt in H1; lia|].
        destruct (1 <? length (Memory.buffers st))%nat eqn:H3;
          [apply Nat.ltb_lt in H3; lia|].
        rewrite andb_false_r. reflexivity. }
      rewrite Ht. intros t' [= <-]. lia.
Qed.

End SafetyFacts.

(* ------------------------------------------------------------------ *)
(** ** initializeBuffer *)

Module BufferFacts.
Import Memory Int64Facts.

Lemma initialize_from_spec (fuel : nat) :
  forall (k : Z) (buffer : list Z),
    let size := Z.of_nat (length buffer) in
    0 <= k ->
    size + 4096 <= Int64.max_int ->
    size - 4096 * k < Z.of_nat fuel * 4096 ->
    length (initialize_from fuel size (4096 * k) buffer) = length buffer
    /\ forall j : nat,
        initialize_from fuel size (4096 * k) buffer !! j
        = if bool_decide (4096 * k <= Z.of_nat j < size
                          /\ Z.of_nat j mod 4096 = 0)
          then Some 0 else buffer !! j.
Proof.
  induction fuel as [|fuel IH]; intros k buffer size Hk Hmax Hfuel.
  - split; [reflexivity|]. intros j. simpl.
    rewrite bool_decide_eq_false_2; [reflexivity | lia].
  - cbn [initialize_from].
    destruct (4096 * k <? size) eqn:Hlt.
    + apply Z.ltb_lt in Hlt.
      rewrite add_id
        by (unfold Int64.in_range, Int64.min_int, Int64.max_int in *; lia).
      replace (4096 * k + 4096) with (4096 * (k + 1)) by lia.
      assert (Hz : Z.rem (4096 * k) 256 mod 256 = 0).
      { rewrite Z.rem_mod_nonneg by lia.
        replace (4096 * k) with (16 * k * 256) by lia.
        rewrite Z.mod_mul by lia. reflexivity. }
      rewrite Hz.
      set (buffer' := <[Z.to_nat (4096 * k) := 0]> buffer).
      assert (Hlen : length buffer' = length buffer)
        by apply length_insert.
      destruct (IH (k + 1) buffer') as [IHlen IHj]; fold size;
        rewrite ?Hlen; try lia.
      rewrite Hlen in IHlen, IHj. fold size in IHj.
      split; [exact IHlen|]. intros j. rewrite IHj.
      destruct (decide (j = Z.to_nat (4096 * k))) as [->|Hne].
      * unfold buffer'. rewrite list_lookup_insert_eq by lia.
        rewrite Z2Nat.id by lia.
        rewrite (bool_decide_eq_false_2 (4096 * (k + 1) <= _ < _ /\ _))
          by lia.
        rewrite bool_decide_eq_true_2;
          [|split; [lia|]; replace (4096 * k) with (k * 4096) by lia;
            apply Z.mod_mul; lia].
        reflexivity.
      * unfold buffer'. rewrite list_lookup_insert_ne by lia.
        apply (f_equal (fun b : bool => if b then Some 0 else buffer !! j)).
        apply bool_decide_ext. split; intros [H1 H2]; (split; [|exact H2]).
        -- lia.
        -- assert (Z.of_nat j <> 4096 * k) by lia.
           pose proof (Z.div_mod (Z.of_nat j) 4096 ltac:(lia)). lia.
    + apply Z.ltb_ge in Hlt. split; [reflexivity|]. intros j.
      rewrite bool_decide_eq_false_2; [reflexivity | lia].
Qed.

Lemma initializeBuffer_spec (buffer : list Z) :
  Z.of_nat (length buffer) + 4096 <= Int64.max_int ->
  length (initializeBuffer buffer) = length buffer
  /\ forall j : nat,
      initializeBuffer buffer !! j
      = if bool_decide (Z.of_nat j mod 4096 = 0 /\ (j < length buffer)%nat)
        then Some 0 else buffer !! j.
Proof.
  intros Hmax. unfold initializeBuffer.
  set (size := Z.of_nat (length buffer)).
  destruct (initialize_from_spec (Z.to_nat (size / 4096 + 1)) 0 buffer)
    as [Hlen Hj]; fold size; try lia.
  { pose proof (Z.div_pos size 4096 ltac:(lia) ltac:(lia)).
    rewrite Z2Nat.id by lia.
    pose proof (Z.mod_pos_bound size 4096 ltac:(lia)).
    pose proof (Z.div_mod size 4096 ltac:(lia)). lia. }
  fold size in Hlen, Hj. change (4096 * 0) with 0 in Hlen, Hj.
  split; [exact Hlen|]. intros j. rewrite Hj.
  apply (f_equal (fun b : bool => if b then Some 0 else buffer !! j)).
  apply bool_decide_ext. unfold size. lia.
Qed.

(** A buffer fresh from [make] comes out of [initializeBuffer] as it
    went in. *)
Lemma initializeBuffer_make (n : Z) :
  0 <= n -> n + 4096 <= Int64.max_int ->
  initializeBuffer (make n) = make n.
Proof.
  intros Hn Hmax.
  assert (Hlen : length (make n) = Z.to_nat n)
    by (unfold make; apply length_replicate).
  destruct (initializeBuffer_spec (make n)) as [Hl Hj];
    [rewrite Hlen; lia|].
  apply list_eq. intros j. rewrite Hj.
  case_bool_decide as Hc; [|reflexivity].
  destruct Hc as [_ Hc]. rewrite Hlen in Hc.
  unfold make. symmetry. apply lookup_replicate_2. exact Hc.
Qed.

End BufferFacts.

(* ------------------------------------------------------------------ *)
(** ** From the percentage to the controller *)

Module DispatchFacts.
Import GoString Float64 SizeParser Controller FileSystem.

Lemma neg_percent (k : Z) : 0 <= k <= 100 -> Int64.neg (- k) = k.
Proof.
  intros Hk. unfold Int64.neg. rewrite Z.opp_involutive.
  apply Int64Facts.wrap64_id.
  unfold Int64.in_range, Int64.min_int, Int64.max_int. lia.
Qed.

(** What [main] hands to the loads for a percentage, and which
    allocator they run. *)
Lemma percent_dispatch (ParseFloat : gostring -> option float64)
    (s r : gostring) (p : float64) (mr : Memory.run) (sr : Storage.run)
    (d : fs) :
  trim_space s = r ++ ["%"%char] ->
  ParseFloat r = Some p ->
  valid_binary prec emax p = true ->
  ltb p (of_Z 0) = false -> ltb (of_Z 100) p = false ->
  p <> S754_nan ->
  exists k,
    0 <= k <= 100 /\ trunc p = Some k
    /\ parseSize ParseFloat s = Ok (- k)
    /\ (k = 0 ->
        Memory.GenerateLoad (- k) mr
        = Memory.generateStaticLoad 0 (Memory.alloc_ok (Memory.first mr))
            (Memory.static_events mr)
        /\ Storage.GenerateLoad (- k) sr d
           = match Storage.tempDir sr with
             | None => Returned d
             | Some t =>
                 Storage.leave t
                   (Storage.performStorageOperations t 0 (Storage.turns sr)
                      (Storage.static_events sr) (mkdirTemp t d)).1
             end)
    /\ (1 <= k ->
        Memory.GenerateLoad (- k) mr
        = Memory.generateDynamicLoad (of_Z k) (Memory.first mr)
            (Memory.dynamic_events mr)
        /\ Storage.GenerateLoad (- k) sr d
           = match Storage.tempDir sr with
             | None => Returned d
             | Some t =>
                 Storage.leave t
                   (Storage.performDynamicStorageOperations t (of_Z k)
                      (Storage.first sr) (Storage.dynamic_events sr)
                      (mkdirTemp t d)).1
             end).
Proof.
  intros Ht HPF Hv H0 H100 Hnan.
  destruct (PercentFacts.to_int64_percent p Hv H0 H100 Hnan) as [Hr Htr].
  exists (- to_int64 (opp p)).
  split; [lia|]. split; [exact Htr|].
  split.
  { rewrite (ParserFacts.parseSize_percent ParseFloat s r Ht), HPF, H0, H100.
    simpl. f_equal. lia. }
  set (k := - to_int64 (opp p)) in *. assert (Hk : 0 <= k <= 100) by lia.
  clearbody k. clear Hr Htr.
  split; intros Hcase.
  - subst k. unfold Memory.GenerateLoad, Storage.GenerateLoad. simpl.
    split; [reflexivity|]. destruct (Storage.tempDir sr); reflexivity.
  - unfold Memory.GenerateLoad, Storage.GenerateLoad.
    destruct (- k <? 0) eqn:Hneg; [|apply Z.ltb_ge in Hneg; lia].
    rewrite (neg_percent k Hk).
    split; [reflexivity|]. destruct (Storage.tempDir sr); reflexivity.
Qed.

End DispatchFacts.

(* ------------------------------------------------------------------ *)
(** ** A write loop that is cut short *)

Module WritePhaseFacts.
Import Controller FileSystem Storage ControllerFacts FileSystemFacts.
Import StaticStorageFacts.

(** The write loop over two runs of paths is the loop over the first
    and, if that runs to its end, the loop over the second. *)
Lemma write_phase_app (fileSize : Z) (turns : nat -> write_turn)
    (l1 l2 : list path) :
  forall (i : nat) (d : fs),
    write_phase fileSize turns i (l1 ++ l2) d
    = match write_phase fileSize turns i l1 d with
      | (d1, Completed) =>
          write_phase fileSize turns (i + length l1) l2 d1
      | r => r
      end.
Proof.
  induction l1 as [|p l1 IH]; intros i d; cbn [app write_phase length].
  - rewrite Nat.add_0_r. reflexivity.
  - destruct (done_before (turns i)); [reflexivity|].
    destruct (writeFile _ _ _ _) as [d' ok]. destruct ok; [|reflexivity].
    rewrite IH. replace (S i + length l1)%nat with (i + S (length l1))%nat
      by lia. reflexivity.
Qed.

Lemma filePaths_split (t c : nat) :
  (c < numFiles)%nat ->
  filePaths t
  = map (fun i => (t, static_file i)) (seq 0 c)
    ++ (t, static_file c)
       :: map (fun i => (t, static_file i)) (seq (S c) (numFiles - S c)).
Proof.
  intros Hc. unfold filePaths.
  replace numFiles with (c + S (numFiles - S c))%nat at 1 by lia.
  rewrite seq_app, map_app. simpl. reflexivity.
Qed.

(** The loop stopped at file [c], the files before it going well:
    exactly the files before [c] are written. *)
Lemma write_phase_stopped (t c : nat) (fileSize : Z)
    (turns : nat -> write_turn) (d : fs) :
  (c < numFiles)%nat ->
  0 <= fileSize -> fileSize + bufferSize <= Int64.max_int ->
  t ∈ dirs d ->
  (forall i, (i < c)%nat -> Invariant.good_turn fileSize (turns i)) ->
  let before := map (fun i => (t, static_file i)) (seq 0 c) in
  let d1 := {| dirs := dirs d;
               files := Invariant.written fileSize before (files d) |} in
  write_phase fileSize turns 0 (filePaths t) d
  = if done_before (turns c) then (d1, Cancelled)
    else
      let '(d', ok) :=
        writeFile (volume (turns c)) (t, static_file c) fileSize d1 in
      if ok
      then write_phase fileSize turns (S c)
             (map (fun i => (t, static_file i)) (seq (S c) (numFiles - S c)))
             d'
      else (d', Failed).
Proof.
  intros Hc H0 Hmax Hdir Hgood before d1.
  rewrite (filePaths_split t c Hc), write_phase_app. fold before.
  rewrite (write_phase_ok fileSize turns before 0 d H0 Hmax).
  - fold d1. cbn [write_phase]. unfold before.
    rewrite length_map, length_seq. simpl.
    destruct (done_before (turns c)); [reflexivity|].
    destruct (writeFile _ _ _ _) as [d' ok]. destruct ok; reflexivity.
  - intros j Hj. apply Hgood. unfold before in Hj.
    rewrite length_map, length_seq in Hj. lia.
  - intros p Hp. unfold before in Hp.
    apply list_elem_of_fmap in Hp as (i & -> & _). exact Hdir.
Qed.

End WritePhaseFacts.

(* ------------------------------------------------------------------ *)
(** ** The sign of a float through the arithmetic *)

Module SignFacts.
Import Float64 Sign.

Lemma binary_round_aux_sign (s : bool) (m e : Z) (l : location) :
  match binary_round_aux prec emax s m e l with
  | S754_finite s' _ _ | S754_infinity s' => s' = s
  | _ => True
  end.
Proof.
  unfold binary_round_aux.
  destruct (shr_fexp prec emax m e l) as [mrs' e'].
  destruct (shr_fexp prec emax _ e' loc_Exact) as [mrs'' e''].
  destruct (shr_m mrs''); [exact I| |exact I].
  destruct (e'' <=? emax - prec); reflexivity.
Qed.

Lemma of_Z_sign (n : Z) :
  (0 <= n -> not_below (of_Z n)) /\ (n <= 0 -> not_above (of_Z n)).
Proof.
  unfold of_Z, binary_normalize. destruct n as [|p|p].
  - split; intros _; exact I.
  - split; [intros _|lia]. unfold binary_round.
    destruct (shl_align p 0 _) as [mz ez].
    pose proof (binary_round_aux_sign false (Zpos mz) ez loc_Exact) as H.
    unfold not_below. destruct (binary_round_aux _ _ _ _ _ _); auto.
  - split; [lia|intros _]. unfold binary_round.
    destruct (shl_align p 0 _) as [mz ez].
    pose proof (binary_round_aux_sign true (Zpos mz) ez loc_Exact) as H.
    unfold not_above. destruct (binary_round_aux _ _ _ _ _ _); auto.
Qed.

Lemma mul_sign (x y : float64) :
  (not_below x -> not_above y -> not_above (mul x y))
  /\ (not_above x -> not_below y -> not_above (mul x y)).
Proof.
  unfold mul, SFmul.
  destruct x as [sx|sx| |sx mx ex], y as [sy|sy| |sy my ey];
    simpl; try (split; intros; exact I);
    try (split; intros -> ->; reflexivity).
  pose proof (binary_round_aux_sign (xorb sx sy) (Zpos (mx * my)) (ex + ey)
                loc_Exact) as H.
  unfold not_above.
  destruct (binary_round_aux _ _ _ _ _ _); try (split; intros; exact I);
    subst; split; intros -> ->; reflexivity.
Qed.

Lemma div_sign (x : float64) (my : positive) (ey : Z) :
  not_above x -> not_above (div x (S754_finite false my ey)).
Proof.
  unfold div, SFdiv.
  destruct x as [sx|sx| |sx mx ex]; simpl;
    try (intros; exact I); try (intros ->; reflexivity).
  destruct (SFdiv_core_binary _ _ _ _ _ _) as [[mz ez] lz].
  pose proof (binary_round_aux_sign (xorb sx false) mz ez lz) as H.
  unfold not_above.
  destruct (binary_round_aux _ _ _ _ _ _); try (intros; exact I);
    subst; intros ->; reflexivity.
Qed.

Lemma to_int64_not_above (x : float64) : not_above x -> to_int64 x <= 0.
Proof.
  assert (Hmin : Int64.min_int <= 0) by (unfold Int64.min_int; lia).
  unfold not_above, to_int64, trunc.
  destruct x as [s|s| |s m e]; intros H; try exact Hmin.
  - destruct (_ && _); [apply Z.le_refl | exact Hmin].
  - subst s.
    assert (Ha : 0 <= match e with
                      | Z.neg _ => Z.shiftr (Z.pos m) (- e)
                      | _ => Z.shiftl (Z.pos m) e
                      end).
    { destruct e; [apply Z.shiftl_nonneg | apply Z.shiftl_nonneg
                   | apply Z.shiftr_nonneg]; lia. }
    destruct (_ && _); [lia | exact Hmin].
Qed.

Lemma safetyFactor_not_below :
  not_below Memory.safetyFactor /\ not_below Storage.safetyFactor.
Proof. split; vm_compute; reflexivity. Qed.

Lemma hundred_finite :
  of_Z 100 = S754_finite false 7036874417766400 (-46).
Proof. vm_compute. reflexivity. Qed.

(** The two steps of the target computation on a base that is not
    below zero and a percentage that is not above it. *)
Lemma target_not_above (base : Z) (percent safety : float64) :
  0 <= base -> not_above percent -> not_below safety ->
  to_int64
    (mul (of_Z (to_int64 (div (mul (of_Z base) percent) (of_Z 100))))
       safety) <= 0.
Proof.
  intros Hb Hp Hs. apply to_int64_not_above.
  apply (proj2 (mul_sign _ _)); [|exact Hs].
  apply (proj2 (of_Z_sign _)). apply to_int64_not_above.
  rewrite hundred_finite. apply div_sign.
  apply (proj1 (mul_sign _ _)); [|exact Hp].
  apply (proj1 (of_Z_sign _)). exact Hb.
Qed.

Lemma mul_not_below (x y : float64) :
  not_below x -> not_below y -> not_below (mul x y).
Proof.
  unfold mul, SFmul.
  destruct x as [sx|sx| |sx mx ex], y as [sy|sy| |sy my ey];
    simpl; try (intros; exact I); try (intros -> ->; reflexivity).
  pose proof (binary_round_aux_sign (xorb sx sy) (Zpos (mx * my)) (ex + ey)
                loc_Exact) as H.
  unfold not_below.
  destruct (binary_round_aux _ _ _ _ _ _); try (intros; exact I);
    subst; intros -> ->; reflexivity.
Qed.

Lemma trunc_not_below (x : float64) (z : Z) :
  not_below x -> trunc x = Some z -> 0 <= z.
Proof.
  unfold not_below, trunc.
  destruct x as [s|s| |s m e]; intros H; try discriminate.
  - intros [= <-]. lia.
  - subst s. intros [= <-].
    destruct e; [apply Z.shiftl_nonneg | apply Z.shiftl_nonneg
                 | apply Z.shiftr_nonneg]; lia.
Qed.

Lemma of_ratio_not_below (n d : positive) : not_below (of_ratio n d).
Proof.
  unfold of_ratio.
  destruct (SFdiv_core_binary _ _ _ _ _ _) as [[mz ez] lz].
  pose proof (binary_round_aux_sign false mz ez lz) as H.
  unfold not_below. destruct (binary_round_aux _ _ _ _ _ _); auto.
Qed.

Lemma parse_decimal_not_below (s : GoString.gostring) (value : float64) :
  SizeParser.parse_decimal s = Some value -> not_below value.
Proof.
  unfold SizeParser.parse_decimal.
  destruct (GoString.span GoString.is_digit s) as [ds r].
  destruct (SizeParser.digits_value _) as [|n]; [intros [= <-]; exact I|].
  pose proof (of_ratio_not_below n
                (Z.to_pos (10 ^ Z.of_nat
                             (length match r with
                                     | [] => []
                                     | _ :: fs => fs
                                     end)))) as H.
  destruct (of_ratio _ _); try discriminate; intros [= <-]; exact H.
Qed.

End SignFacts.

(* ------------------------------------------------------------------ *)
(** ** Whole numbers of any size *)

Module WholeFacts.
Import GoString Float64 SizeParser.

(** A whole number below 2^53 with a unit: the product is exact, and
    it is returned when it is an int64. *)
Lemma parseSize_whole_any (ParseFloat : gostring -> option float64)
    (s ds unit : gostring) :
  decimal_ParseFloat ParseFloat ->
  digits ds ->
  size_pattern (to_upper (trim_space s)) ds unit ->
  Z.of_N (digits_value ds) < 2 ^ 53 ->
  parseSize ParseFloat s
  = Ok (if Z.of_N (digits_value ds) * 1024 ^ unit_index unit <? 2 ^ 63
        then Z.of_N (digits_value ds) * 1024 ^ unit_index unit
        else - 2 ^ 63).
Proof.
  intros HPF Hds Hp Hn.
  destruct (Z.of_N (digits_value ds) * 1024 ^ unit_index unit <? 2 ^ 63)
    eqn:Hlt.
  - apply Z.ltb_lt in Hlt.
    apply IntegerFacts.parseSize_whole; assumption.
  - apply Z.ltb_ge in Hlt.
    rewrite (ParserFacts.parseSize_pattern ParseFloat s ds unit Hp).
    rewrite (HPF ds (or_introl Hds)),
      (IntegerFacts.parse_decimal_whole ds Hds).
    assert (Hk : 0 <= unit_index unit <= 4).
    { unfold unit_index. destruct unit as [|c u]; [lia|].
      repeat (match goal with
              | |- context [if ?b then _ else _] => destruct b
              end); lia. }
    destruct (digits_value ds) as [|n]; [simpl in Hlt; lia|].
    change (Z.of_N (Npos n)) with (Zpos n) in *.
    destruct (IntegerFacts.of_ratio_whole n Hn) as (m & Hr & Hd & Hm).
    rewrite Hr.
    pose proof (IntegerFacts.digits2_pos_lower n) as Hlow.
    assert (HD : 1 <= Zpos (digits2_pos n) <= 53).
    { split; [lia|].
      destruct (Z_le_gt_dec (Zpos (digits2_pos n)) 53) as [H|H]; [exact H|].
      exfalso.
      pose proof (Z.pow_le_mono_r 2 53 (Zpos (digits2_pos n) - 1)
                    ltac:(lia) ltac:(lia)). lia. }
    rewrite PowerFacts.mul_pow2 by (auto; lia).
    unfold to_int64.
    rewrite (IntegerFacts.trunc_whole m (Zpos n) (Zpos (digits2_pos n))
               (unit_index unit)) by (auto; lia).
    assert (Hr' : (Zpos n * 1024 ^ unit_index unit <=? Int64.max_int)
                  = false).
    { apply Z.leb_gt. unfold Int64.max_int. lia. }
    rewrite Hr', andb_false_r. reflexivity.
Qed.

(** [int64(x)] for a float that is not below zero. *)
Lemma to_int64_not_below (x : float64) :
  Sign.not_below x ->
  to_int64 x
  = match trunc x with
    | Some z => if z <? 2 ^ 63 then z else - 2 ^ 63
    | None => - 2 ^ 63
    end.
Proof.
  intros Hx. unfold to_int64.
  destruct (trunc x) as [z|] eqn:Hz; [|reflexivity].
  pose proof (SignFacts.trunc_not_below x z Hx Hz) as H0.
  assert (Hmin : (Int64.min_int <=? z) = true)
    by (apply Z.leb_le; unfold Int64.min_int; lia).
  rewrite Hmin. simpl.
  destruct (z <? 2 ^ 63) eqn:Hlt.
  - apply Z.ltb_lt in Hlt.
    assert (H : (z <=? Int64.max_int) = true)
      by (apply Z.leb_le; unfold Int64.max_int; lia).
    rewrite H. reflexivity.
  - apply Z.ltb_ge in Hlt.
    assert (H : (z <=? Int64.max_int) = false)
      by (apply Z.leb_gt; unfold Int64.max_int; lia).
    rewrite H. reflexivity.
Qed.

End WholeFacts.

(* ------------------------------------------------------------------ *)
(** ** The target of a cycle *)

Module Target.
Import Controller FileSystem Example TargetSpec.

Lemma leb_pos (z : Z) : 0 < z -> (z <=? 0) = false.
Proof. intros H. apply Z.leb_gt. exact H. Qed.

Lemma leb_nonpos (z : Z) : z <= 0 -> (z <=? 0) = true.
Proof. intros H. apply Z.leb_le. exact H. Qed.

(** The two computations, said with the formula. *)
Lemma storage_target (percent : Float64.float64) (free : Z) :
  Storage.calculatePercentageSize percent (Some free)
  = let t := twice_truncated free percent Storage.safetyFactor in
    if t <=? 0 then inl Storage.ErrInvalidSize else inr t.
Proof. reflexivity. Qed.

Lemma memory_target (percent : Float64.float64) (sys : Z) :
  let free := Int64.sub Memory.totalSystemMemory (Int64.wrap64 sys) in
  Memory.calculatePercentageSize percent sys
  = if free <=? 0 then inl Memory.ErrInsufficientFreeMemory
    else
      let t := twice_truncated free percent Memory.safetyFactor in
      if t <=? 0 then inl Memory.ErrInvalidSize else inr t.
Proof. reflexivity. Qed.

Lemma storage_target_inr (percent : Float64.float64) (e : Storage.env)
    (free : Z) :
  Storage.freeSpace e = Some free ->
  0 < twice_truncated free percent Storage.safetyFactor ->
  Storage.calculatePercentageSize percent (Storage.freeSpace e)
  = inr (twice_truncated free percent Storage.safetyFactor).
Proof.
  intros -> Hpos. rewrite storage_target. cbv zeta.
  rewrite (leb_pos _ Hpos). reflexivity.
Qed.

Lemma storage_target_inl (percent : Float64.float64) (e : Storage.env)
    (free : Z) :
  Storage.freeSpace e = Some free ->
  twice_truncated free percent Storage.safetyFactor <= 0 ->
  Storage.calculatePercentageSize percent (Storage.freeSpace e)
  = inl Storage.ErrInvalidSize.
Proof.
  intros -> Hle. rewrite storage_target. cbv zeta.
  rewrite (leb_nonpos _ Hle). reflexivity.
Qed.

Lemma memory_target_inr (percent : Float64.float64) (sys : Z) :
  let free := Int64.sub Memory.totalSystemMemory (Int64.wrap64 sys) in
  0 < free ->
  0 < twice_truncated free percent Memory.safetyFactor ->
  Memory.calculatePercentageSize percent sys
  = inr (twice_truncated free percent Memory.safetyFactor).
Proof.
  intros free Hfree Hpos. rewrite memory_target. fold free. cbv zeta.
  rewrite (leb_pos _ Hfree), (leb_pos _ Hpos). reflexivity.
Qed.

Lemma memory_target_inl (percent : Float64.float64) (sys : Z) :
  let free := Int64.sub Memory.totalSystemMemory (Int64.wrap64 sys) in
  0 < free ->
  twice_truncated free percent Memory.safetyFactor <= 0 ->
  Memory.calculatePercentageSize percent sys = inl Memory.ErrInvalidSize.
Proof.
  intros free Hfree Hle. rewrite memory_target. fold free. cbv zeta.
  rewrite (leb_pos _ Hfree), (leb_nonpos _ Hle). reflexivity.
Qed.

(** The cycles of the storage controller. *)
Lemma storage_initial_cycle (t : nat) (percent : Float64.float64)
    (e0 : Storage.env) (evs : list (event Storage.env)) (d : fs) (free : Z) :
  Storage.freeSpace e0 = Some free ->
  let target := twice_truncated free percent Storage.safetyFactor in
  (target <= 0 ->
   Storage.performDynamicStorageOperations t percent e0 evs d
   = (Returned (Storage.empty, d), Some Storage.ErrInvalidSize))
  /\ (0 < target ->
      (writeFile (Storage.wvolume e0) (t, dynamic_file 0) target d).2 = true ->
      Storage.initialize t percent e0 d
      = inr ({| Storage.currentFiles := [(t, dynamic_file 0)];
                Storage.totalWritten := target;
                Storage.fileCounter := 1 |},
             (writeFile (Storage.wvolume e0) (t, dynamic_file 0) target d).1)).
Proof.
  intros Hfree target. split.
  - intros Hle.
    unfold Storage.performDynamicStorageOperations, Storage.initialize.
    rewrite (storage_target_inl percent e0 free Hfree Hle). reflexivity.
  - intros Hpos Hw. unfold Storage.initialize.
    rewrite (storage_target_inr percent e0 free Hfree Hpos).
    fold target. apply Z.ltb_lt in Hpos. rewrite Hpos.
    destruct (writeFile _ _ _ _) as [d' ok]. simpl in Hw. subst ok.
    reflexivity.
Qed.

Lemma storage_tick_cycle (t : nat) (percent : Float64.float64)
    (e : Storage.env) (st : Storage.state) (d : fs) (free : Z) :
  Storage.freeSpace e = Some free ->
  let target := twice_truncated free percent Storage.safetyFactor in
  (target <= 0 -> Storage.tick t percent e (st, d) = Some (st, d))
  /\ (Storage.totalWritten st < target ->
      Invariant.storage t (st, d) ->
      0 <= Storage.totalWritten st -> 0 <= Storage.now e ->
      target + bufferSize <= Int64.max_int ->
      (writeFile (Storage.wvolume e)
         (t, dynamic_file (Storage.fileCounter st))
         (target - Storage.totalWritten st) d).2 = true ->
      exists d',
        Storage.tick t percent e (st, d)
        = Some ({| Storage.currentFiles :=
                     Storage.currentFiles st
                     ++ [(t, dynamic_file (Storage.fileCounter st))];
                   Storage.totalWritten := target;
                   Storage.fileCounter := S (Storage.fileCounter st) |}, d'))
  /\ (0 < target -> target < Storage.totalWritten st ->
      Invariant.storage t (st, d) -> Invariant.no_overflow (st, d) ->
      (forall p, p ∈ Storage.currentFiles st -> Storage.remove_ok e p = true) ->
      0 <= Storage.now e ->
      (2 <= length (Storage.currentFiles st))%nat ->
      exists st' d',
        Storage.tick t percent e (st, d) = Some (st', d')
        /\ (Storage.totalWritten st' <= target
            \/ length (Storage.currentFiles st') = 1%nat)
        /\ (length (Storage.currentFiles st')
            < length (Storage.currentFiles st))%nat)
  /\ (0 < target -> target = Storage.totalWritten st ->
      0 <= Storage.now e ->
      exists d', Storage.tick t percent e (st, d) = Some (st, d')).
Proof.
  intros Hfree target. split; [|split; [|split]].
  - intros Hle. unfold Storage.tick, Storage.adjust.
    rewrite (storage_target_inl percent e free Hfree Hle). reflexivity.
  - intros Hlt Hinv H0 Hnow Hmax Hw.
    assert (Hpos : 0 < target)
      by (eapply Z.le_lt_trans; [exact H0 | exact Hlt]).
    pose proof (storage_target_inr percent e free Hfree Hpos) as Hcalc.
    fold target in Hcalc.
    destruct (DynamicStorageFacts.sto_tick_grow t percent e st d target
                Hinv H0 Hnow Hcalc Hlt Hmax Hw)
      as (d1 & d' & _ & _ & _ & Htick & _).
    exists d'. exact Htick.
  - intros Hpos Hlt Hinv Hno Hrm Hnow Hlen.
    pose proof (storage_target_inr percent e free Hfree Hpos) as Hcalc.
    fold target in Hcalc.
    destruct (DynamicStorageFacts.sto_tick_shrink t percent e st d target
                Hinv Hno Hrm Hnow Hcalc Hlt Hlen)
      as (st' & d' & Htick & _ & Hstop & Hdec & _).
    exists st', d'. auto.
  - intros Hpos Heq Hnow.
    pose proof (storage_target_inr percent e free Hfree Hpos) as Hcalc.
    fold target in Hcalc.
    destruct (DynamicStorageFacts.liveness_runs e (st, d) Hnow)
      as [[st2 d'] Hlive].
    destruct (DynamicStorageFacts.liveness_state _ _ _ Hlive) as [Hst _].
    simpl in Hst. subst st2. exists d'.
    unfold Storage.tick, Storage.adjust. rewrite Hcalc, <- Heq.
    rewrite Z.ltb_irrefl. simpl. exact Hlive.
Qed.

(** The cycles of the memory controller. *)
Lemma memory_initial_cycle (percent : Float64.float64) (e0 : Memory.env)
    (evs : list (event Memory.env)) :
  let free :=
    Int64.sub Memory.totalSystemMemory (Int64.wrap64 (Memory.sys e0)) in
  let target := twice_truncated free percent Memory.safetyFactor in
  (free <= 0 \/ target <= 0 ->
   Memory.generateDynamicLoad percent e0 evs = Returned Memory.empty)
  /\ (0 < free -> 0 < target -> Memory.alloc_ok e0 = true ->
      Memory.initialize percent e0
      = inr (Some {| Memory.buffers := [target];
                     Memory.totalAllocated := target |})).
Proof.
  intros free target. split.
  - intros Hle. unfold Memory.generateDynamicLoad, Memory.initialize.
    rewrite memory_target. fold free. cbv zeta. fold target.
    destruct (free <=? 0) eqn:Hf; [reflexivity|].
    destruct Hle as [Hle|Hle].
    + apply Z.leb_gt in Hf. exfalso. exact (Z.lt_irrefl _ (Z.lt_le_trans _ _ _ Hf Hle)).
    + rewrite (leb_nonpos _ Hle). reflexivity.
  - intros Hfree Hpos Hok. unfold Memory.initialize.
    rewrite (memory_target_inr percent (Memory.sys e0) Hfree Hpos).
    fold free. fold target. apply Z.ltb_lt in Hpos. rewrite Hpos.
    unfold Memory.allocate. rewrite Hok. reflexivity.
Qed.

Lemma memory_tick_cycle (percent : Float64.float64) (e : Memory.env)
    (st : Memory.state) :
  let free :=
    Int64.sub Memory.totalSystemMemory (Int64.wrap64 (Memory.sys e)) in
  let target := twice_truncated free percent Memory.safetyFactor in
  (free <= 0 \/ target <= 0 -> Memory.tick percent e st = Some st)
  /\ (0 < free -> Memory.totalAllocated st < target ->
      Invariant.memory st -> Memory.alloc_ok e = true ->
      Memory.tick percent e st
      = Some {| Memory.buffers :=
                  Memory.buffers st ++ [target - Memory.totalAllocated st];
                Memory.totalAllocated := target |})
  /\ (0 < free -> 0 < target -> target < Memory.totalAllocated st ->
      Invariant.memory st ->
      (2 <= length (Memory.buffers st))%nat ->
      exists st',
        Memory.tick percent e st = Some st'
        /\ (Memory.totalAllocated st' <= target
            \/ length (Memory.buffers st') = 1%nat)
        /\ (length (Memory.buffers st') < length (Memory.buffers st))%nat)
  /\ (0 < free -> 0 < target -> target = Memory.totalAllocated st ->
      Memory.tick percent e st = Some st).
Proof.
  intros free target. split; [|split; [|split]].
  - intros Hle. unfold Memory.tick.
    rewrite memory_target. fold free. cbv zeta. fold target.
    destruct (free <=? 0) eqn:Hf; [reflexivity|].
    destruct Hle as [Hle|Hle].
    + apply Z.leb_gt in Hf. exfalso.
      exact (Z.lt_irrefl _ (Z.lt_le_trans _ _ _ Hf Hle)).
    + rewrite (leb_nonpos _ Hle). reflexivity.
  - intros Hfree Hlt Hinv Hok.
    assert (Hpos : 0 < target).
    { destruct Hinv as [Htot Hsz _ _].
      pose proof (ControllerFacts.sum_sizes_pos _ Hsz) as Hnn.
      rewrite <- Htot in Hnn.
      eapply Z.le_lt_trans; [exact Hnn | exact Hlt]. }
    pose proof (memory_target_inr percent (Memory.sys e) Hfree Hpos) as Hcalc.
    fold free in Hcalc. fold target in Hcalc.
    exact (MemoryFacts.mem_tick_grow percent e st target Hinv Hcalc Hlt Hok).
  - intros Hfree Hpos Hlt Hinv Hlen.
    pose proof (memory_target_inr percent (Memory.sys e) Hfree Hpos) as Hcalc.
    fold free in Hcalc. fold target in Hcalc.
    destruct (MemoryFacts.mem_tick_shrink percent e st target Hinv Hcalc Hlt
                Hlen) as (st' & Htick & _ & _ & Hstop & Hdec & _).
    exists st'. auto.
  - intros Hfree Hpos Heq.
    pose proof (memory_target_inr percent (Memory.sys e) Hfree Hpos) as Hcalc.
    fold free in Hcalc. fold target in Hcalc.
    unfold Memory.tick. rewrite Hcalc, <- Heq, Z.ltb_irrefl. reflexivity.
Qed.

(** Claim C4, as the code has it.  The target of a cycle is
    [int64(float64(int64(float64(free) * percent / 100)) *
    safetyFactor)], an integer being taken after the percentage and
    again after the safety factor, which is 0.95 for memory and 0.90
    for storage (the nearest float64 of each); the computation fails
    when that is not positive, so a target is positive.  With
    1000 MiB free, 80% gives 720 MiB; with 500 MiB free, 360 MiB.
    Every cycle acts on the target of its own reading.  Storage:
    [free] is what the probe answers in that cycle.  The initial cycle
    returns the error when the target is not positive, and otherwise
    writes file 0 with the target's bytes; a tick is skipped when the
    target is not positive or the probe fails, brings the tracked
    total up to the target when it is below, takes files away when it
    is above, and leaves the variables alone when it is the target.
    Memory: the same, [free] being what the controller works out from
    the runtime's reading in that cycle. *)
Theorem target_formula :
  (* the computation *)
  (forall (percent : Float64.float64) (free : Z),
      Storage.calculatePercentageSize percent (Some free)
      = let t := twice_truncated free percent Storage.safetyFactor in
        if t <=? 0 then inl Storage.ErrInvalidSize else inr t)
  /\ (forall percent : Float64.float64,
      Storage.calculatePercentageSize percent None = inl Storage.ErrProbe)
  /\ (forall (percent : Float64.float64) (sys : Z),
      let free := Int64.sub Memory.totalSystemMemory (Int64.wrap64 sys) in
      Memory.calculatePercentageSize percent sys
      = if free <=? 0 then inl Memory.ErrInsufficientFreeMemory
        else
          let t := twice_truncated free percent Memory.safetyFactor in
          if t <=? 0 then inl Memory.ErrInvalidSize else inr t)
  /\ Memory.safetyFactor = S754_finite false 8556839292003942 (-53)
  /\ Storage.safetyFactor = S754_finite false 8106479329266893 (-53)
  /\ Storage.calculatePercentageSize (Float64.of_Z 80)
       (Some (1000 * 1024 * 1024)) = inr (720 * 1024 * 1024)
  /\ Storage.calculatePercentageSize (Float64.of_Z 80)
       (Some (500 * 1024 * 1024)) = inr (360 * 1024 * 1024)
  /\ (forall (percent : Float64.float64) (f : option Z) (t : Z),
      Storage.calculatePercentageSize percent f = inr t -> 0 < t)
  /\ (forall (percent : Float64.float64) (sys t : Z),
      Memory.calculatePercentageSize percent sys = inr t -> 0 < t)
  (* the initial cycle of the storage controller *)
  /\ (forall (t : nat) (percent : Float64.float64) (e0 : Storage.env)
        (evs : list (event Storage.env)) (d : fs) (free : Z),
      Storage.freeSpace e0 = Some free ->
      let target := twice_truncated free percent Storage.safetyFactor in
      (target <= 0 ->
       Storage.performDynamicStorageOperations t percent e0 evs d
       = (Returned (Storage.empty, d), Some Storage.ErrInvalidSize))
      /\ (0 < target ->
          (writeFile (Storage.wvolume e0) (t, dynamic_file 0) target d).2
          = true ->
          Storage.initialize t percent e0 d
          = inr ({| Storage.currentFiles := [(t, dynamic_file 0)];
                    Storage.totalWritten := target;
                    Storage.fileCounter := 1 |},
                 (writeFile (Storage.wvolume e0) (t, dynamic_file 0)
                    target d).1)))
  (* a tick of the storage controller *)
  /\ (forall (t : nat) (percent : Float64.float64) (e : Storage.env)
        (st : Storage.state) (d : fs) (free : Z),
      Storage.freeSpace e = Some free ->
      let target := twice_truncated free percent Storage.safetyFactor in
      (target <= 0 -> Storage.tick t percent e (st, d) = Some (st, d))
      /\ (Storage.totalWritten st < target ->
          Invariant.storage t (st, d) ->
          0 <= Storage.totalWritten st -> 0 <= Storage.now e ->
          target + bufferSize <= Int64.max_int ->
          (writeFile (Storage.wvolume e)
             (t, dynamic_file (Storage.fileCounter st))
             (target - Storage.totalWritten st) d).2 = true ->
          exists d',
            Storage.tick t percent e (st, d)
            = Some ({| Storage.currentFiles :=
                         Storage.currentFiles st
                         ++ [(t, dynamic_file (Storage.fileCounter st))];
                       Storage.totalWritten := target;
                       Storage.fileCounter := S (Storage.fileCounter st) |},
                    d'))
      /\ (0 < target -> target < Storage.totalWritten st ->
          Invariant.storage t (st, d) -> Invariant.no_overflow (st, d) ->
          (forall p, p ∈ Storage.currentFiles st ->
                     Storage.remove_ok e p = true) ->
          0 <= Storage.now e ->
          (2 <= length (Storage.currentFiles st))%nat ->
          exists st' d',
            Storage.tick t percent e (st, d) = Some (st', d')
            /\ (Storage.totalWritten st' <= target
                \/ length (Storage.currentFiles st') = 1%nat)
            /\ (length (Storage.currentFiles st')
                < length (Storage.currentFiles st))%nat)
      /\ (0 < target -> target = Storage.totalWritten st ->
          0 <= Storage.now e ->
          exists d', Storage.tick t percent e (st, d) = Some (st, d')))
  (* a tick whose probe fails *)
  /\ (forall (t : nat) (percent : Float64.float64) (e : Storage.env)
        (w : Storage.state * fs),
      Storage.freeSpace e = None -> Storage.tick t percent e w = Some w)
  (* the initial cycle of the memory controller *)
  /\ (forall (percent : Float64.float64) (e0 : Memory.env)
        (evs : list (event Memory.env)),
      let free :=
        Int64.sub Memory.totalSystemMemory (Int64.wrap64 (Memory.sys e0)) in
      let target := twice_truncated free percent Memory.safetyFactor in
      (free <= 0 \/ target <= 0 ->
       Memory.generateDynamicLoad percent e0 evs = Returned Memory.empty)
      /\ (0 < free -> 0 < target -> Memory.alloc_ok e0 = true ->
          Memory.initialize percent e0
          = inr (Some {| Memory.buffers := [target];
                         Memory.totalAllocated := target |})))
  (* a tick of the memory controller *)
  /\ (forall (percent : Float64.float64) (e : Memory.env)
        (st : Memory.state),
      let free :=
        Int64.sub Memory.totalSystemMemory (Int64.wrap64 (Memory.sys e)) in
      let target := twice_truncated free percent Memory.safetyFactor in
      (free <= 0 \/ target <= 0 -> Memory.tick percent e st = Some st)
      /\ (0 < free -> Memory.totalAllocated st < target ->
          Invariant.memory st -> Memory.alloc_ok e = true ->
          Memory.tick percent e st
          = Some {| Memory.buffers :=
                      Memory.buffers st
                      ++ [target - Memory.totalAllocated st];
                    Memory.totalAllocated := target |})
      /\ (0 < free -> 0 < target -> target < Memory.totalAllocated st ->
          Invariant.memory st ->
          (2 <= length (Memory.buffers st))%nat ->
          exists st',
            Memory.tick percent e st = Some st'
            /\ (Memory.totalAllocated st' <= target
                \/ length (Memory.buffers st') = 1%nat)
            /\ (length (Memory.buffers st') < length (Memory.buffers st))%nat)
      /\ (0 < free -> 0 < target -> target = Memory.totalAllocated st ->
          Memory.tick percent e st = Some st)).
Proof.
  split; [exact storage_target|].
  split; [reflexivity|].
  split; [exact memory_target|].
  split; [reflexivity|]. split; [reflexivity|].
  split; [reflexivity|]. split; [reflexivity|].
  split.
  { intros percent f t H.
    apply (DynamicStorageFacts.sto_target_range percent f t H). }
  split.
  { intros percent sys t H.
    apply (MemoryFacts.mem_target_range percent sys t H). }
  split; [exact storage_initial_cycle|].
  split; [exact storage_tick_cycle|].
  split.
  { intros t percent e [st d] Hnone.
    unfold Storage.tick, Storage.adjust. rewrite Hnone. reflexivity. }
  split; [exact memory_initial_cycle | exact memory_tick_cycle].
Qed.

(** [target_formula] at work: with 3000 bytes free at a tick, 50%
    gives 1350 and the storage controller goes from 450 bytes to that;
    with nothing in use by the runtime, the memory controller goes
    from 3570191564 bytes to 4080218931. *)
Lemma target_formula_witness :
  (exists d',
      Storage.tick 7 percent50 (sto_env 3000) sto_one
      = Some ({| Storage.currentFiles := [file0; file1];
                 Storage.totalWritten := 1350;
                 Storage.fileCounter := 2 |}, d'))
  /\ Memory.tick percent50 (mem_env 0)
       {| Memory.buffers := [3570191564];
          Memory.totalAllocated := 3570191564 |}
     = Some {| Memory.buffers := [3570191564; 510027367];
               Memory.totalAllocated := 4080218931 |}.
Proof.
  destruct target_formula
    as (_ & _ & _ & _ & _ & _ & _ & _ & _ & _ & Hsto & _ & _ & Hmem).
  split.
  - destruct (Hsto 7%nat percent50 (sto_env 3000) sto_one.1 sto_one.2 3000
                eq_refl) as (_ & Hgrow & _).
    apply Hgrow.
    + reflexivity.
    + apply DynamicController.sto_invariant. left. reflexivity.
    + simpl. lia.
    + simpl. lia.
    + vm_compute. discriminate.
    + vm_compute. reflexivity.
  - destruct (Hmem percent50 (mem_env 0)
                {| Memory.buffers := [3570191564];
                   Memory.totalAllocated := 3570191564 |})
      as (_ & Hgrow & _).
    apply Hgrow.
    + reflexivity.
    + reflexivity.
    + split; simpl;
        [reflexivity | repeat constructor | eexists; reflexivity
         | unfold Int64.max_int; lia].
    + reflexivity.
Defined.

(** Claim C4 as stated fails: with 250 bytes free and 1%, the
    specification's product is 2.25, that is 2 bytes; the code takes
    the integer 2 of 2.5 first, and 0.9 of that gives 1 byte. *)
Lemma target_truncated_twice :
  Storage.calculatePercentageSize (Float64.of_Z 1) (Some 250) = inr 1
  /\ spec_target 250 (Float64.of_Z 1) Storage.safetyFactor = 2.
Proof. split; vm_compute; reflexivity. Qed.

End Target.

(* ------------------------------------------------------------------ *)
(** ** The size parser *)

Module Parser.
Import GoString Float64 SizeParser PatternFacts ParserFacts.

Lemma unit_index_range (unit : gostring) : 0 <= unit_index unit <= 4.
Proof.
  unfold unit_index. destruct unit as [|c u]; [lia|].
  repeat (match goal with |- context [if ?b then _ else _] => destruct b end);
    lia.
Qed.

(** Claim C7, as the code has it.  On every string that, trimmed and
    in upper case, matches [<number>[white space][unit]] with the unit
    one of "", B, K, KB, M, MB, G, GB, T, TB, the parser takes [value],
    the float64 nearest to the number, and the float64 product
    [value * 1024^i], where [i] is 0 for no unit or B, 1 for K, 2 for
    M, 3 for G, 4 for T; it returns ParseFloat's error when the number
    is beyond float64.  The product is not below zero, and the parser
    returns its integer part, cut toward zero and not rounded, when
    that is below 2^63; when it is not, or the product is infinite, the
    conversion to int64 is out of range and gives -2^63.  For a normal
    [value = m * 2^e] the product is exact, [m * 2^(e + 10 i)]; for a
    whole number [n < 2^53] the parser returns [n * 1024^i] itself when
    that is below 2^63. *)
Theorem absolute_size (ParseFloat : gostring -> option float64)
    (s num unit : gostring) :
  decimal_ParseFloat ParseFloat ->
  size_pattern (to_upper (trim_space s)) num unit ->
  0 <= unit_index unit <= 4
  /\ parseSize ParseFloat s
     = match parse_decimal num with
       | None => Err (ErrParseFloat num)
       | Some value =>
           match trunc (mul value (of_Z (1024 ^ unit_index unit))) with
           | Some z => Ok (if z <? 2 ^ 63 then z else - 2 ^ 63)
           | None => Ok (- 2 ^ 63)
           end
       end
  /\ (forall (value : float64) (z : Z),
        parse_decimal num = Some value ->
        trunc (mul value (of_Z (1024 ^ unit_index unit))) = Some z ->
        0 <= z /\ (z < 2 ^ 63 -> parseSize ParseFloat s = Ok z))
  /\ (forall (sgn : bool) (m : positive) (e : Z),
        parse_decimal num = Some (S754_finite sgn m e) ->
        digits2_pos m = 53%positive ->
        -1074 <= e -> e + 10 * unit_index unit <= 971 ->
        mul (S754_finite sgn m e) (of_Z (1024 ^ unit_index unit))
        = S754_finite sgn m (e + 10 * unit_index unit))
  /\ (digits num -> Z.of_N (digits_value num) < 2 ^ 53 ->
      parseSize ParseFloat s
      = Ok (if Z.of_N (digits_value num) * 1024 ^ unit_index unit <? 2 ^ 63
            then Z.of_N (digits_value num) * 1024 ^ unit_index unit
            else - 2 ^ 63)).
Proof.
  intros HPF Hp.
  pose proof (unit_index_range unit) as Hk.
  assert (Hmain : parseSize ParseFloat s
                  = match parse_decimal num with
                    | None => Err (ErrParseFloat num)
                    | Some value =>
                        match trunc (mul value
                                       (of_Z (1024 ^ unit_index unit))) with
                        | Some z => Ok (if z <? 2 ^ 63 then z else - 2 ^ 63)
                        | None => Ok (- 2 ^ 63)
                        end
                    end).
  { rewrite (parseSize_pattern ParseFloat s num unit Hp).
    destruct Hp as (Hnum & _). rewrite (HPF num Hnum).
    destruct (parse_decimal num) as [value|] eqn:Hv; [|reflexivity].
    rewrite WholeFacts.to_int64_not_below.
    - destruct (trunc _); reflexivity.
    - apply SignFacts.mul_not_below.
      + eapply SignFacts.parse_decimal_not_below. exact Hv.
      + apply (proj1 (SignFacts.of_Z_sign _)).
        apply Z.pow_nonneg. lia. }
  split; [exact Hk|]. split; [exact Hmain|]. split; [|split].
  - intros value z Hv Hz. split.
    + eapply SignFacts.trunc_not_below; [|exact Hz].
      apply SignFacts.mul_not_below.
      * eapply SignFacts.parse_decimal_not_below. exact Hv.
      * apply (proj1 (SignFacts.of_Z_sign _)). apply Z.pow_nonneg. lia.
    + intros Hlt. rewrite Hmain, Hv, Hz.
      apply Z.ltb_lt in Hlt. rewrite Hlt. reflexivity.
  - intros sgn m e Hv Hd Hlo Hhi.
    apply PowerFacts.mul_pow2; auto.
  - intros Hds Hn.
    apply WholeFacts.parseSize_whole_any; assumption.
Qed.

(** Plain digit strings, for the examples. *)
Ltac digits_ok := split; [intros H; discriminate H | repeat constructor].

(** [absolute_size] at work: "1GB" is 1073741824 bytes, "500MB" is
    524288000, " 1.5 kb " is 1536 and "1.7KB" is 1740; "8388608T" is
    2^63 bytes, which is no int64, and comes out as -2^63. *)
Lemma absolute_size_witness :
  parseSize ParseFloat_decimal (str "1GB") = Ok 1073741824
  /\ parseSize ParseFloat_decimal (str "500MB") = Ok 524288000
  /\ parseSize ParseFloat_decimal (str " 1.5 kb ") = Ok 1536
  /\ parseSize ParseFloat_decimal (str "1.7KB") = Ok 1740
  /\ parseSize ParseFloat_decimal (str "8388608T")
     = Ok (-9223372036854775808).
Proof.
  split; [|split; [|split; [|split]]].
  - destruct (absolute_size ParseFloat_decimal (str "1GB") (str "1")
                (str "GB")) as (_ & H & _).
    + exact ParseFloat_decimal_ok.
    + split; [left; digits_ok|]. split; [reflexivity|].
      exists []. split; [constructor | reflexivity].
    + rewrite H. reflexivity.
  - destruct (absolute_size ParseFloat_decimal (str "500MB") (str "500")
                (str "MB")) as (_ & H & _).
    + exact ParseFloat_decimal_ok.
    + split; [left; digits_ok|]. split; [reflexivity|].
      exists []. split; [constructor | reflexivity].
    + rewrite H. reflexivity.
  - destruct (absolute_size ParseFloat_decimal (str " 1.5 kb ") (str "1.5")
                (str "KB")) as (_ & H & _).
    + exact ParseFloat_decimal_ok.
    + split; [right; exists (str "1"), (str "5");
              split; [digits_ok | split; [digits_ok | reflexivity]]|].
      split; [reflexivity|].
      exists (str " "). split; [repeat constructor | reflexivity].
    + rewrite H. reflexivity.
  - destruct (absolute_size ParseFloat_decimal (str "1.7KB") (str "1.7")
                (str "KB")) as (_ & H & _).
    + exact ParseFloat_decimal_ok.
    + split; [right; exists (str "1"), (str "7");
              split; [digits_ok | split; [digits_ok | reflexivity]]|].
      split; [reflexivity|].
      exists []. split; [constructor | reflexivity].
    + rewrite H. reflexivity.
  - destruct (absolute_size ParseFloat_decimal (str "8388608T")
                (str "8388608") (str "T")) as (_ & _ & _ & _ & Hwhole).
    + exact ParseFloat_decimal_ok.
    + split; [left; digits_ok|]. split; [reflexivity|].
      exists []. split; [constructor | reflexivity].
    + rewrite Hwhole; [reflexivity | digits_ok | vm_compute; reflexivity].
Defined.

(** Claim C7 as stated fails: "1.7KB" is 1740.8 bytes, which rounds to
    1741; the parser returns 1740. *)
Lemma absolute_size_not_rounded :
  parseSize ParseFloat_decimal (str "1.7KB") = Ok 1740
  /\ spec_bytes 17 10 1024 = 1741.
Proof. split; vm_compute; reflexivity. Qed.

(** Claim C8, as the code has it.  On a string that, trimmed, ends in
    [%], the parser hands what is before the [%] to ParseFloat.  It
    fails with "invalid percentage" when ParseFloat fails.  When
    ParseFloat gives a float that is a number (not NaN), the parser
    fails with "percentage must be in range 0-100" when the float
    compares below 0 or above 100, and does not fail otherwise; the
    float then has an integer part [k] from 0 to 100, and for
    [k >= 1] the parser returns [-k], the percentage cut toward zero
    and negated, from which both loads take the percentage
    [float64(k)] for their dynamic controllers.  No string that does
    not end in [%] fails in either of the two ways. *)
Theorem percentage :
  (forall (ParseFloat : gostring -> option float64) (s r : gostring),
      trim_space s = r ++ ["%"%char] ->
      ParseFloat r = None ->
      parseSize ParseFloat s = Err (ErrInvalidPercentage r))
  /\ (forall (ParseFloat : gostring -> option float64) (s r : gostring)
        (percent : float64),
        trim_space s = r ++ ["%"%char] ->
        ParseFloat r = Some percent ->
        percent <> S754_nan ->
        (ltb percent (of_Z 0) || ltb (of_Z 100) percent = true ->
         parseSize ParseFloat s = Err (ErrPercentageRange percent))
        /\ (ltb percent (of_Z 0) || ltb (of_Z 100) percent = false ->
            valid_binary prec emax percent = true ->
            exists k,
              0 <= k <= 100 /\ trunc percent = Some k
              /\ is_InvalidPercentage (parseSize ParseFloat s) = false
              /\ (1 <= k ->
                  parseSize ParseFloat s = Ok (- k)
                  /\ forall (mr : Memory.run) (sr : Storage.run)
                       (d : FileSystem.fs),
                      Memory.GenerateLoad (- k) mr
                      = Memory.generateDynamicLoad (of_Z k)
                          (Memory.first mr) (Memory.dynamic_events mr)
                      /\ Storage.GenerateLoad (- k) sr d
                         = match Storage.tempDir sr with
                           | None => Controller.Returned d
                           | Some t =>
                               Storage.leave t
                                 (Storage.performDynamicStorageOperations t
                                    (of_Z k) (Storage.first sr)
                                    (Storage.dynamic_events sr)
                                    (FileSystem.mkdirTemp t d)).1
                           end)))
  /\ (forall (ParseFloat : gostring -> option float64) (s : gostring),
        is_InvalidPercentage (parseSize ParseFloat s) = true ->
        exists r, trim_space s = r ++ ["%"%char]).
Proof.
  split; [|split].
  - intros ParseFloat s r Ht HPF.
    rewrite (parseSize_percent ParseFloat s r Ht), HPF. reflexivity.
  - intros ParseFloat s r percent Ht HPF Hnan. split.
    + intros Hout.
      rewrite (parseSize_percent ParseFloat s r Ht), HPF, Hout. reflexivity.
    + intros Hin Hv. apply orb_false_iff in Hin as [H0 H100].
      destruct (PercentFacts.to_int64_percent percent Hv H0 H100 Hnan)
        as [Hr Htr].
      exists (- to_int64 (opp percent)).
      assert (Hparse : parseSize ParseFloat s
                       = Ok (- - to_int64 (opp percent))).
      { rewrite (parseSize_percent ParseFloat s r Ht), HPF, H0, H100.
        simpl. f_equal. lia. }
      split; [lia|]. split; [exact Htr|].
      split; [rewrite Hparse; reflexivity|].
      intros Hk. split; [exact Hparse|]. intros mr sr d.
      destruct (DispatchFacts.percent_dispatch ParseFloat s r percent mr sr d
                  Ht HPF Hv H0 H100 Hnan)
        as (k & _ & Hk' & _ & _ & Hdyn).
      assert (k = - to_int64 (opp percent)) as -> by congruence.
      apply Hdyn. exact Hk.
  - intros ParseFloat s H. apply has_suffix_percent_inv.
    eapply parseSize_invalid_percentage. exact H.
Qed.

(** [percentage] at work: "80%" is returned as -80, which the memory
    load reads as 80 percent; "100.5%" is out of range, and "x%" is no
    percentage. *)
Lemma percentage_witness :
  parseSize ParseFloat_decimal (str "80%") = Ok (-80)
  /\ Memory.GenerateLoad (-80) Example.mem_run
     = Memory.generateDynamicLoad (of_Z 80)
         (Memory.first Example.mem_run)
         (Memory.dynamic_events Example.mem_run)
  /\ parseSize ParseFloat_decimal (str "100.5%")
     = Err (ErrPercentageRange
              (S754_finite false 7072058789855232 (-46)))
  /\ parseSize ParseFloat_decimal (str "x%")
     = Err (ErrInvalidPercentage (str "x")).
Proof.
  destruct percentage as (Hbad & Hnum & _).
  split; [|split; [|split]].
  - destruct (Hnum ParseFloat_decimal (str "80%") (str "80")
                (S754_finite false 5629499534213120 (-46)))
      as [_ Hin]; [reflexivity | reflexivity | discriminate |].
    destruct (Hin eq_refl eq_refl) as (k & _ & Hk & _ & Hrun).
    assert (k = 80) as -> by (vm_compute in Hk; congruence).
    destruct (Hrun ltac:(lia)) as [Hp _]. exact Hp.
  - destruct (Hnum ParseFloat_decimal (str "80%") (str "80")
                (S754_finite false 5629499534213120 (-46)))
      as [_ Hin]; [reflexivity | reflexivity | discriminate |].
    destruct (Hin eq_refl eq_refl) as (k & _ & Hk & _ & Hrun).
    assert (k = 80) as -> by (vm_compute in Hk; congruence).
    destruct (Hrun ltac:(lia)) as [_ Hl].
    exact (proj1 (Hl Example.mem_run Example.sto_run Example.disk_empty)).
  - destruct (Hnum ParseFloat_decimal (str "100.5%") (str "100.5")
                (S754_finite false 7072058789855232 (-46)))
      as [Hout _]; [reflexivity | reflexivity | discriminate |].
    apply Hout. reflexivity.
  - apply (Hbad ParseFloat_decimal (str "x%") (str "x")); reflexivity.
Defined.

(** Claim C8 as stated fails: 80.5 and 0.5 are floats between 0 and
    100, but "80.5%" is returned as -80, which is what "80%" gives, and
    "0.5%" as 0, which is what the absolute size "0" gives. *)
Lemma percentage_truncated :
  parse_decimal (str "80.5") = Some (S754_finite false 5664683906301952 (-46))
  /\ parseSize ParseFloat_decimal (str "80.5%") = Ok (-80)
  /\ parseSize ParseFloat_decimal (str "80%") = Ok (-80)
  /\ parse_decimal (str "0.5") = Some (S754_finite false 4503599627370496 (-53))
  /\ parseSize ParseFloat_decimal (str "0.5%") = Ok 0
  /\ parseSize ParseFloat_decimal (str "0") = Ok 0.
Proof. repeat split; vm_compute; reflexivity. Qed.

(** Claim C9, as the code has it.  A string that does not end in [%]
    and does not match the size pattern fails with "invalid size
    format"; so do "abc" and "10XB", whatever ParseFloat is.  The
    pattern lets no unit through that the [switch] does not know:
    no string at all fails with "unsupported unit". *)
Theorem malformed_size :
  (forall (ParseFloat : gostring -> option float64) (s : gostring),
      has_suffix_percent (trim_space s) = false ->
      (forall num unit, ~ size_pattern (to_upper (trim_space s)) num unit) ->
      parseSize ParseFloat s = Err (ErrInvalidSizeFormat (trim_space s)))
  /\ (forall (ParseFloat : gostring -> option float64) (s : gostring),
        is_UnsupportedUnit (parseSize ParseFloat s) = false)
  /\ (forall ParseFloat : gostring -> option float64,
        parseSize ParseFloat (str "abc")
        = Err (ErrInvalidSizeFormat (str "abc"))
        /\ parseSize ParseFloat (str "10XB")
           = Err (ErrInvalidSizeFormat (str "10XB"))).
Proof.
  split; [|split].
  - apply parseSize_no_match.
  - apply parseSize_never_unsupported.
  - intros ParseFloat. split; reflexivity.
Qed.

(** [malformed_size] at work on "12 34". *)
Lemma malformed_size_witness :
  parseSize ParseFloat_decimal (str "12 34")
  = Err (ErrInvalidSizeFormat (str "12 34")).
Proof.
  apply (proj1 malformed_size ParseFloat_decimal (str "12 34")).
  - reflexivity.
  - intros num unit H. apply find_submatch_complete in H.
    revert H. vm_compute. discriminate.
Defined.

(** Claim C9 as stated fails: "10XB" fails with "invalid size format",
    not with "unsupported unit", and nothing fails with the latter. *)
Lemma unsupported_unit_unreachable :
  parseSize ParseFloat_decimal (str "10XB")
  = Err (ErrInvalidSizeFormat (str "10XB"))
  /\ ~ exists s, is_UnsupportedUnit (parseSize ParseFloat_decimal s) = true.
Proof.
  split; [reflexivity|].
  intros [s H]. rewrite parseSize_never_unsupported in H. discriminate.
Qed.

End Parser.

(* ------------------------------------------------------------------ *)
(** ** What the deletion loop takes from the volume *)

Module DeletionFacts.
Import Controller FileSystem Storage.

(** A file the deletion loop changes is a file it removed. *)
Lemma delete_files_removes_only (e : env) (i : nat) :
  forall (excess deleted : Z) (st st' : state) (d d' : fs) (del' : Z),
    delete_files e i excess deleted (st, d) = Some (st', d', del') ->
    forall q, files d' !! q = files d !! q
              \/ (files d' !! q = None /\ remove_ok e q = true).
Proof.
  induction i as [|i IH]; intros excess deleted st st' d d' del';
    cbn [delete_files].
  - intros [= <- <- <-] q. left. reflexivity.
  - destruct (deleted <? excess); [|intros [= <- <- <-] q; left; reflexivity].
    destruct (currentFiles st !! S i) as [x|]; simpl; [|discriminate].
    destruct (stat x d) as [sz|]; [destruct (remove_ok e x) eqn:Hrm|];
      try (apply IH).
    intros H q. destruct (IH _ _ _ _ _ _ _ H q) as [Hq|Hq]; [|right; exact Hq].
    destruct (decide (q = x)) as [->|Hne].
    + right. split; [|exact Hrm]. rewrite Hq. simpl. apply lookup_delete_eq.
    + left. rewrite Hq. simpl. apply lookup_delete_ne. congruence.
Qed.

End DeletionFacts.

(* ------------------------------------------------------------------ *)
(** ** Further properties of the storage package *)

Module StorageProperties.
Import Controller FileSystem Storage Example Scenario.

(** X1.  [writeFile] on a volume with less than 8 EiB free: when it
    returns no error, the file holds exactly [size] bytes, no other file
    has changed and no directory has; and it returns no error when the
    file can be created in an existing directory, the volume takes
    [size] bytes and the sync works. *)
Theorem writeFile_result (w : write_env) (p : path) (size : Z) (d : fs) :
  0 <= size <= Int64.max_int ->
  capacity w + bufferSize <= Int64.max_int ->
  ((writeFile w p size d).2 = true ->
   files (writeFile w p size d).1 !! p = Some size
   /\ (forall q, q <> p ->
         files (writeFile w p size d).1 !! q = files d !! q)
   /\ dirs (writeFile w p size d).1 = dirs d)
  /\ (create_ok w = true -> p.1 ∈ dirs d -> size <= capacity w ->
      sync_ok w = true ->
      (writeFile w p size d).2 = true).
Proof.
  intros Hs Hcap. split.
  - intros Hok. destruct (writeFile w p size d) as [d' ok] eqn:Hw.
    simpl in Hok. subst ok.
    pose proof (FloorFacts.writeFile_exact w p size d d' Hs Hcap Hw) as ->.
    simpl. split; [apply lookup_insert_eq|].
    split; [|reflexivity]. intros q Hq. apply lookup_insert_ne. congruence.
  - intros Hc Hd Hle Hsync.
    rewrite FileSystemFacts.writeFile_ok; try assumption; [reflexivity|lia|lia].
Qed.

(** [writeFile_result] at work: 100000 bytes for file 0 of the
    temporary directory. *)
Lemma writeFile_result_witness :
  files (writeFile good_volume file0 100000 disk0).1 !! file0 = Some 100000.
Proof.
  destruct (writeFile_result good_volume file0 100000 disk0) as [H1 H2].
  - unfold Int64.max_int. lia.
  - vm_compute. discriminate.
  - apply H1. apply H2; [reflexivity | reflexivity | | reflexivity].
    vm_compute. discriminate.
Defined.

(** X2.  [writeFile] on a volume that takes fewer bytes than asked
    for: it returns an error and leaves the file with as many bytes as
    the volume took. *)
Theorem writeFile_volume_full (w : write_env) (p : path) (size : Z)
    (d : fs) :
  create_ok w = true -> p.1 ∈ dirs d ->
  0 <= capacity w < size -> size <= Int64.max_int ->
  capacity w + bufferSize <= Int64.max_int ->
  (writeFile w p size d).2 = false
  /\ files (writeFile w p size d).1 !! p = Some (capacity w)
  /\ (forall q, q <> p ->
        files (writeFile w p size d).1 !! q = files d !! q).
Proof.
  intros Hc Hd Hcap Hs Hmax.
  rewrite (SafetyFacts.writeFile_full w p size d Hc Hd Hcap Hs Hmax). simpl.
  split; [reflexivity|]. split; [apply lookup_insert_eq|].
  intros q Hq. apply lookup_insert_ne. congruence.
Qed.

(** [writeFile_volume_full] at work: 100000 bytes asked of a volume
    that takes 1000. *)
Lemma writeFile_volume_full_witness :
  (writeFile small_volume file0 100000 disk0).2 = false
  /\ files (writeFile small_volume file0 100000 disk0).1 !! file0 = Some 1000.
Proof.
  destruct (writeFile_volume_full small_volume file0 100000 disk0)
    as (H1 & H2 & _).
  - reflexivity.
  - reflexivity.
  - simpl. lia.
  - unfold Int64.max_int. lia.
  - vm_compute. discriminate.
  - split; [exact H1 | exact H2].
Defined.

(** X3.  The static allocator, its write loop going well: it returns
    no error; its ten files take [10 * fileSize] bytes and then grow by
    what the ticks append; the operation counter counts the ticks. *)
Theorem static_load_grows (t : nat) (totalSize : Z)
    (turns : nat -> write_turn) (evs : list (event Z)) (d : fs) :
  0 <= totalSize <= Int64.max_int ->
  t ∈ dirs d ->
  (forall i, (i < numFiles)%nat ->
     Invariant.good_turn (fileSize_of totalSize) (turns i)) ->
  let r := performStorageOperations t totalSize turns evs d in
  r.2 = None
  /\ (final r.1).1 = length (ticks evs)
  /\ disk_usage (final r.1).2 (filePaths t)
     = 10 * fileSize_of totalSize + sum_sizes (ticks evs).
Proof.
  intros Hsize Hdir Hgood.
  pose proof (StaticStorageFacts.fileSize_of_max totalSize Hsize) as Hmax.
  pose proof (Z.div_le_upper_bound totalSize 10 totalSize
                ltac:(lia) ltac:(lia)) as Hq1.
  pose proof (Z.div_pos totalSize 10 ltac:(lia) ltac:(lia)) as Hq0.
  pose proof (Z.mod_pos_bound totalSize 10 ltac:(lia)) as Hm.
  pose proof (Z.div_mod totalSize 10 ltac:(lia)) as Hdm.
  remember (fileSize_of totalSize) as fileSize eqn:Hfs.
  unfold performStorageOperations. rewrite <- Hfs.
  rewrite (StaticStorageFacts.write_phase_ok fileSize turns (filePaths t) 0 d).
  - set (d1 := {| dirs := dirs d; files := _ |}).
    assert (Hall : forall p, p ∈ filePaths t -> files d1 !! p = Some fileSize).
    { intros p Hp. unfold d1. cbn [files].
      rewrite StaticStorageFacts.written_lookup.
      rewrite bool_decide_eq_true_2 by exact Hp. reflexivity. }
    destruct (StaticLoopFacts.static_loop_usage t evs 0 d1) as (H1 & H2 & _).
    { intros p Hp. rewrite (Hall p Hp). eexists; reflexivity. }
    cbn [fst snd]. split; [reflexivity|]. split; [exact H1|].
    rewrite H2, (StaticStorageFacts.disk_usage_const _ fileSize) by exact Hall.
    rewrite StaticStorageFacts.filePaths_length.
    change (Z.of_nat 10) with 10. reflexivity.
  - lia.
  - unfold bufferSize, Int64.max_int in *. lia.
  - intros j Hj. apply Hgood.
    rewrite StaticStorageFacts.filePaths_length in Hj. unfold numFiles. lia.
  - intros p Hp. unfold filePaths in Hp.
    apply list_elem_of_fmap in Hp as (i & -> & _). exact Hdir.
Qed.

(** [static_load_grows] at work: 5000000 bytes requested, two ticks
    that append 256 KiB each. *)
Lemma static_load_grows_witness :
  let r := performStorageOperations 7 5000000 good_turns
             [Tick 262144; Tick 262144; Done] disk0 in
  r.2 = None /\ (final r.1).1 = 2%nat
  /\ disk_usage (final r.1).2 (filePaths 7) = 11010048.
Proof.
  apply (static_load_grows 7 5000000 good_turns
           [Tick 262144; Tick 262144; Done] disk0).
  - unfold Int64.max_int. lia.
  - reflexivity.
  - intros i _. split; [reflexivity | reflexivity | | reflexivity].
    vm_compute. discriminate.
Defined.

(** X4.  The static write loop stopped at file [c], the files before
    it going well.  If the context is done there, the allocator
    returns nil; if the write of file [c] fails, it returns the error.
    Either way the files before [c] are written in full and stay, and
    no other file but file [c] has changed. *)
Theorem static_write_stopped (t c : nat) (totalSize : Z)
    (turns : nat -> write_turn) (evs : list (event Z)) (d : fs) :
  (c < numFiles)%nat ->
  0 <= totalSize <= Int64.max_int ->
  t ∈ dirs d ->
  (forall i, (i < c)%nat ->
     Invariant.good_turn (fileSize_of totalSize) (turns i)) ->
  let r := performStorageOperations t totalSize turns evs d in
  let stopped (d' : fs) (p : path) :=
    files d' !! p
    = if bool_decide (p ∈ take c (filePaths t))
      then Some (fileSize_of totalSize) else files d !! p in
  (done_before (turns c) = true ->
   exists d', r = (Returned (O, d'), None) /\ forall p, stopped d' p)
  /\ (done_before (turns c) = false ->
      (writeFile (volume (turns c)) (t, static_file c)
         (fileSize_of totalSize) d).2 = false ->
      exists d', r = (Returned (O, d'), Some ErrFileWrite)
                 /\ forall p, p <> (t, static_file c) -> stopped d' p).
Proof.
  intros Hc Hsize Hdir Hgood r stopped.
  pose proof (StaticStorageFacts.fileSize_of_max totalSize Hsize) as Hmax.
  pose proof (Z.div_le_upper_bound totalSize 10 totalSize
                ltac:(lia) ltac:(lia)) as Hq1.
  pose proof (Z.div_pos totalSize 10 ltac:(lia) ltac:(lia)) as Hq0.
  pose proof (Z.mod_pos_bound totalSize 10 ltac:(lia)) as Hm.
  pose proof (Z.div_mod totalSize 10 ltac:(lia)) as Hdm.
  remember (fileSize_of totalSize) as fileSize eqn:Hfs.
  assert (Htake : take c (filePaths t)
                  = map (fun i => (t, static_file i)) (seq 0 c)).
  { unfold filePaths. rewrite <- fmap_take, take_seq.
    rewrite Nat.min_l by lia. reflexivity. }
  pose proof (WritePhaseFacts.write_phase_stopped t c fileSize turns d Hc
                ltac:(lia)
                ltac:(unfold bufferSize, Int64.max_int in *; lia)
                Hdir Hgood) as Hw.
  cbv zeta in Hw. rewrite <- Htake in Hw.
  set (d1 := {| dirs := dirs d; files := _ |}) in Hw.
  assert (H1 : forall p, stopped d1 p).
  { intros p. unfold stopped, d1. cbn [files].
    apply StaticStorageFacts.written_lookup. }
  split.
  - intros Hdone. rewrite Hdone in Hw. exists d1. split; [|exact H1].
    unfold r, performStorageOperations. rewrite <- Hfs, Hw.
    reflexivity.
  - intros Hdone Hfail. rewrite Hdone in Hw.
    assert (Hfail1 : (writeFile (volume (turns c)) (t, static_file c)
                        fileSize d1).2 = false).
    { revert Hfail. unfold writeFile. unfold d1 at 1. cbn [dirs].
      destruct (create_ok _ && _); [|reflexivity].
      destruct (write_chunks _ _ _ _) as [written ok]. auto. }
    pose proof (FileSystemFacts.writeFile_frame (volume (turns c))
                  (t, static_file c)) as Hfr.
    specialize (fun q => Hfr q fileSize d1).
    destruct (writeFile (volume (turns c)) (t, static_file c) fileSize d1)
      as [d' ok].
    simpl in Hfail1. subst ok. exists d'. split.
    + unfold r, performStorageOperations. rewrite <- Hfs, Hw.
      reflexivity.
    + intros p Hp. unfold stopped. simpl in Hfr. rewrite (Hfr p Hp).
      apply H1.
Qed.

(** [static_write_stopped] at work: the context is done before
    file 3. *)
Lemma static_write_stopped_witness :
  exists d',
    performStorageOperations 7 5000000 (cancel_turns 3) [Tick 262144] disk0
    = (Returned (O, d'), None)
    /\ files d' !! (7%nat, static_file 2) = Some 1048576
    /\ files d' !! (7%nat, static_file 3) = None.
Proof.
  destruct (static_write_stopped 7 3 5000000 (cancel_turns 3)
              [Tick 262144] disk0) as [H _].
  - unfold numFiles. lia.
  - unfold Int64.max_int. lia.
  - reflexivity.
  - intros i Hi. split; [| reflexivity | | reflexivity].
    + cbn [cancel_turns done_before]. apply Nat.leb_gt. exact Hi.
    + vm_compute. discriminate.
  - destruct (H eq_refl) as (d' & Hr & Hst). exists d'.
    split; [exact Hr|]. split; rewrite Hst; reflexivity.
Defined.

(** X5.  The deletion loop of a tick, the last listed file being one
    that cannot be removed and the one before it (not file 0) one that
    can: both leave the list, the later one because the list is cut at
    the earlier one's index, though it stays on the volume as it
    was. *)
Theorem failed_removal_leaves_file (e : env) (st : state) (d : fs)
    (l : list path) (p q : path) (sz excess : Z) :
  currentFiles st = l ++ [p; q] ->
  l <> [] ->
  NoDup (currentFiles st) ->
  remove_ok e q = false ->
  files d !! p = Some sz ->
  remove_ok e p = true ->
  0 < excess ->
  exists st' d' deleted,
    delete_files e (length (currentFiles st) - 1) excess 0 (st, d)
    = Some (st', d', deleted)
    /\ (q ∉ currentFiles st')
    /\ (p ∉ currentFiles st')
    /\ files d' !! q = files d !! q
    /\ files d' !! p = None.
Proof.
  intros Hl Hne Hnd Hq Hp Hrm Hex.
  destruct l as [|f0 l]; [contradiction|]. clear Hne.
  assert (Hlen : (length (currentFiles st) - 1 = S (S (length l)))%nat).
  { rewrite Hl. simpl. rewrite length_app. simpl. lia. }
  rewrite Hlen.
  assert (Hiq : currentFiles st !! S (S (length l)) = Some q).
  { rewrite Hl. change (f0 :: l ++ [p; q]) with ((f0 :: l) ++ [p; q]).
    rewrite lookup_app_r by (simpl; lia).
    replace (S (S (length l)) - length (f0 :: l))%nat with 1%nat
      by (simpl; lia).
    reflexivity. }
  assert (Hip : currentFiles st !! S (length l) = Some p).
  { rewrite Hl. change (f0 :: l ++ [p; q]) with ((f0 :: l) ++ [p; q]).
    rewrite lookup_app_r by (simpl; lia).
    replace (S (length l) - length (f0 :: l))%nat with 0%nat by (simpl; lia).
    reflexivity. }
  assert (Htake : take (S (length l)) (currentFiles st) = f0 :: l).
  { rewrite Hl. change (f0 :: l ++ [p; q]) with ((f0 :: l) ++ [p; q]).
    apply take_app_length'. reflexivity. }
  assert (Hstep :
    delete_files e (S (S (length l))) excess 0 (st, d)
    = delete_files e (length l) excess (Int64.add 0 sz)
        ({| currentFiles := f0 :: l;
            totalWritten := Int64.sub (totalWritten st) sz;
            fileCounter := fileCounter st |}, remove p d)).
  { cbn [delete_files]. apply Z.ltb_lt in Hex. rewrite Hex.
    rewrite Hiq. simpl. rewrite Hq.
    assert (Hsame : forall r : option (state * fs * Z),
              match stat q d with Some _ => r | None => r end = r)
      by (intros r; destruct (stat q d); reflexivity).
    rewrite Hsame, Hip. simpl. unfold stat at 1. rewrite Hp, Hrm, Htake.
    reflexivity. }
  rewrite Hstep.
  destruct (SafetyFacts.delete_files_total e (length l) excess
              (Int64.add 0 sz)
              {| currentFiles := f0 :: l;
                 totalWritten := Int64.sub (totalWritten st) sz;
                 fileCounter := fileCounter st |} (remove p d))
    as [[[st' d'] del'] Hdel]; [simpl; lia|].
  rewrite Hdel. exists st', d', del'. split; [reflexivity|].
  rewrite Hl in Hnd. change (f0 :: l ++ [p; q]) with ((f0 :: l) ++ [p; q])
    in Hnd.
  apply NoDup_app in Hnd as (_ & Hdisj & Hpq).
  destruct (DynamicStorageFacts.delete_files_prefix _ _ _ _ _ _ _ _ _ Hdel)
    as (k & _ & Hk).
  simpl in Hk.
  assert (Hsub : forall x, x ∈ currentFiles st' -> x ∈ f0 :: l).
  { intros x Hx. rewrite Hk in Hx.
    eapply StorageInvariantFacts.elem_take. exact Hx. }
  pose proof (DeletionFacts.delete_files_removes_only _ _ _ _ _ _ _ _ _ Hdel)
    as Honly.
  split; [intros Hin; apply (Hdisj q (Hsub q Hin)); set_solver|].
  split; [intros Hin; apply (Hdisj p (Hsub p Hin)); set_solver|].
  split.
  - destruct (Honly q) as [H|[_ H]]; [|congruence].
    rewrite H. simpl. apply lookup_delete_ne.
    apply NoDup_cons in Hpq as [Hpq _]. set_solver.
  - destruct (Honly p) as [H|[H _]]; [|exact H].
    rewrite H. simpl. apply lookup_delete_eq.
Qed.

(** [failed_removal_leaves_file] at work: three files held, file 2
    cannot be removed, 500 bytes are to go. *)
Lemma failed_removal_leaves_file_witness :
  exists st' d' deleted,
    delete_files (sto_env_locked 1000) 2 500 0 sto_three
    = Some (st', d', deleted)
    /\ (file2 ∉ currentFiles st')
    /\ files d' !! file2 = Some 100.
Proof.
  destruct (failed_removal_leaves_file (sto_env_locked 1000)
              sto_three.1 sto_three.2 [file0] file1 file2 900 500)
    as (st' & d' & deleted & H & Hq & _ & Hf & _).
  - reflexivity.
  - discriminate.
  - apply (bool_decide_unpack (NoDup [file0; file1; file2])).
    vm_compute. exact I.
  - reflexivity.
  - reflexivity.
  - reflexivity.
  - lia.
  - exists st', d', deleted. split; [exact H|]. split; [exact Hq|].
    rewrite Hf. reflexivity.
Defined.

Lemma sane_sto_env (free : Z) : Invariant.sane_volume (sto_env free).
Proof. split; vm_compute; discriminate. Qed.

Lemma sane_one_tick (free : Z) (e : env) :
  Tick e ∈ [Tick (sto_env free)] -> Invariant.sane_volume e.
Proof.
  intros He. apply list_elem_of_singleton in He. injection He as ->.
  apply sane_sto_env.
Qed.

(** X6.  Wherever the dynamic storage controller is observed in its
    loop, on volumes with less than 8 EiB free: the temporary directory
    exists, file 0 is listed, the listed files are distinct files
    [dynamic-stress-file-<i>.dat] of that directory with [i] below the
    counter, and each is on the volume. *)
Theorem storage_list_invariant (t : nat) (percent : Float64.float64)
    (e0 : env) (evs : list (event env)) (d : fs) (w : state * fs) :
  t ∈ dirs d ->
  Invariant.sane_volume e0 ->
  (forall e, Tick e ∈ evs -> Invariant.sane_volume e) ->
  performDynamicStorageOperations t percent e0 evs d = (Running w, None) ->
  t ∈ dirs w.2
  /\ is_Some (currentFiles w.1 !! O)
  /\ NoDup (currentFiles w.1)
  /\ (forall p, p ∈ currentFiles w.1 ->
        (exists i, p = (t, dynamic_file i) /\ (i < fileCounter w.1)%nat)
        /\ exists sz, files w.2 !! p = Some sz /\ 0 <= sz).
Proof.
  intros Hdir H0 Hsane Hrun.
  destruct (StorageInvariantFacts.storage_invariant t percent e0 evs d w
              Hdir H0 Hsane Hrun) as [H1 H2 H3 H4 H5].
  split; [exact H1|]. split; [exact H2|]. split; [exact H4|].
  intros p Hp. split; [apply H3 | apply H5]; exact Hp.
Qed.

(** [storage_list_invariant] at work: [--storage 50%], 1000 bytes free
    at the start and 3000 at the first tick. *)
Lemma storage_list_invariant_witness :
  exists w,
    performDynamicStorageOperations 7 percent50 (sto_env 1000)
      [Tick (sto_env 3000)] disk0 = (Running w, None)
    /\ NoDup (currentFiles w.1).
Proof.
  destruct (performDynamicStorageOperations 7 percent50 (sto_env 1000)
              [Tick (sto_env 3000)] disk0) as [[w|w|w] [err|]] eqn:Hrun;
    try (exfalso; revert Hrun; vm_compute; discriminate).
  exists w. split; [reflexivity|].
  apply (storage_list_invariant 7 percent50 (sto_env 1000)
           [Tick (sto_env 3000)] disk0 w).
  - reflexivity.
  - apply sane_sto_env.
  - apply sane_one_tick.
  - exact Hrun.
Defined.

(** X7.  Wherever the dynamic storage controller is observed in its
    loop, the file it wrote first, [dynamic-stress-file-0.dat], is
    listed first and holds at least the bytes of the initial target:
    no tick deletes or shortens it. *)
Theorem storage_first_file_stays (t : nat) (percent : Float64.float64)
    (e0 : env) (evs : list (event env)) (d : fs) (w : state * fs)
    (target : Z) :
  t ∈ dirs d ->
  Invariant.sane_volume e0 ->
  (forall e, Tick e ∈ evs -> Invariant.sane_volume e) ->
  calculatePercentageSize percent (freeSpace e0) = inr target ->
  performDynamicStorageOperations t percent e0 evs d = (Running w, None) ->
  currentFiles w.1 !! O = Some (t, dynamic_file 0)
  /\ exists sz, files w.2 !! (t, dynamic_file 0) = Some sz /\ target <= sz.
Proof.
  intros Hdir H0 Hsane Hcalc Hrun.
  exact (FloorFacts.storage_floor t percent e0 evs d w target
           Hdir H0 Hsane Hcalc Hrun).
Qed.

(** [storage_first_file_stays] at work: the target falls from 450
    bytes to 45 at the first tick. *)
Lemma storage_first_file_stays_witness :
  exists w,
    performDynamicStorageOperations 7 percent50 (sto_env 1000)
      [Tick (sto_env 100)] disk0 = (Running w, None)
    /\ currentFiles w.1 !! O = Some file0
    /\ exists sz, files w.2 !! file0 = Some sz /\ 450 <= sz.
Proof.
  destruct (performDynamicStorageOperations 7 percent50 (sto_env 1000)
              [Tick (sto_env 100)] disk0) as [[w|w|w] [err|]] eqn:Hrun;
    try (exfalso; revert Hrun; vm_compute; discriminate).
  exists w. split; [reflexivity|].
  apply (storage_first_file_stays 7 percent50 (sto_env 1000)
           [Tick (sto_env 100)] disk0 w 450).
  - reflexivity.
  - apply sane_sto_env.
  - apply sane_one_tick.
  - vm_compute. reflexivity.
  - exact Hrun.
Defined.

(** X8.  A run of the storage load, however it ends, leaves every
    file and directory outside its temporary directory as it was. *)
Theorem load_stays_in_tempdir (size : Z) (r : run) (d : fs) (t : nat) :
  tempDir r = Some t ->
  let d' := final (GenerateLoad size r d) in
  (forall q : path, q.1 <> t -> files d' !! q = files d !! q)
  /\ (forall t' : nat, t' <> t -> (t' ∈ dirs d' <-> t' ∈ dirs d)).
Proof.
  intros Ht.
  destruct (FrameFacts.GenerateLoad_outside size r d t Ht) as [H1 H2].
  split; [exact H1 | exact H2].
Qed.

(** [load_stays_in_tempdir] at work: a file of directory 3 after a run
    in directory 7. *)
Lemma load_stays_in_tempdir_witness :
  files (final (GenerateLoad (-50) sto_run disk_other)) !! other_file
  = Some 7.
Proof.
  destruct (load_stays_in_tempdir (-50) sto_run disk_other 7) as [H _].
  - reflexivity.
  - rewrite H; [reflexivity | discriminate].
Defined.

(** X9.  With a clock that is not before 1970, a run of the storage
    load does not panic: the indexes into the list of files stay in
    range. *)
Theorem storage_load_no_panic (size : Z) (r : run) (d d' : fs) :
  (forall e, Tick e ∈ dynamic_events r -> 0 <= now e) ->
  GenerateLoad size r d <> Crashed d'.
Proof.
  intros Hnow. apply SafetyFacts.GenerateLoad_no_crash. exact Hnow.
Qed.

(** [storage_load_no_panic] at work on a run of [--storage 50%]. *)
Lemma storage_load_no_panic_witness :
  GenerateLoad (-50) sto_run disk_empty <> Crashed disk_empty.
Proof.
  apply (storage_load_no_panic (-50) sto_run disk_empty disk_empty).
  intros e He. cbn [sto_run dynamic_events] in He.
  apply elem_of_cons in He as [He|He].
  - injection He as ->. vm_compute. discriminate.
  - apply list_elem_of_singleton in He. discriminate He.
Defined.

(** X10.  A tick of the storage controller that has to write more
    than the volume takes: the list, the tracked total and the counter
    stay as they were, the rest of the tick is left out, and the file
    that was begun stays on the volume, unlisted, with the bytes the
    volume took. *)
Theorem failed_growth_keeps_state (t : nat) (percent : Float64.float64)
    (e : env) (st : state) (d : fs) (target : Z) :
  calculatePercentageSize percent (freeSpace e) = inr target ->
  totalWritten st < target ->
  target - totalWritten st <= Int64.max_int ->
  create_ok (wvolume e) = true ->
  t ∈ dirs d ->
  0 <= capacity (wvolume e) < target - totalWritten st ->
  capacity (wvolume e) + bufferSize <= Int64.max_int ->
  tick t percent e (st, d)
  = Some (st, {| dirs := dirs d;
                 files := <[(t, dynamic_file (fileCounter st))
                            := capacity (wvolume e)]> (files d) |}).
Proof.
  intros Hcalc Hlt Hmax Hc Hdir Hcap Hbuf.
  unfold tick, adjust. rewrite Hcalc.
  apply Z.ltb_lt in Hlt as Hlt'. rewrite Hlt'.
  assert (Hsub : Int64.sub target (totalWritten st)
                 = target - totalWritten st).
  { apply Int64Facts.wrap64_id.
    unfold Int64.in_range, Int64.min_int, Int64.max_int in *. lia. }
  rewrite Hsub.
  assert (Hpos : (0 <? target - totalWritten st) = true)
    by (apply Z.ltb_lt; lia).
  rewrite Hpos.
  rewrite (SafetyFacts.writeFile_full (wvolume e)
             (t, dynamic_file (fileCounter st)) (target - totalWritten st) d
             Hc Hdir Hcap Hmax Hbuf).
  reflexivity.
Qed.

(** [failed_growth_keeps_state] at work: one file of 450 bytes held,
    3000 bytes reported free, and a volume that takes 500 bytes. *)
Lemma failed_growth_keeps_state_witness :
  tick 7 percent50 (sto_env_full 3000) sto_one
  = Some (sto_one.1,
          {| dirs := dirs sto_one.2;
             files := <[file1 := 500]> (files sto_one.2) |}).
Proof.
  apply (failed_growth_keeps_state 7 percent50 (sto_env_full 3000)
           sto_one.1 sto_one.2 1350).
  - vm_compute. reflexivity.
  - vm_compute. reflexivity.
  - vm_compute. discriminate.
  - reflexivity.
  - reflexivity.
  - split; [vm_compute; discriminate | vm_compute; reflexivity].
  - vm_compute. discriminate.
Defined.

End StorageProperties.

(* ------------------------------------------------------------------ *)
(** ** Further properties of the memory package *)

Module MemoryProperties.
Import Controller Memory Example.

(** X11.  Wherever the dynamic memory controller is observed in its
    loop, the tracked total is the sum of the lengths of the buffers it
    holds, every buffer is non-empty, buffer 0 is held, and the total
    is an int64 that has not wrapped around. *)
Theorem memory_total_is_sum (percent : Float64.float64) (e0 : env)
    (evs : list (event env)) (st : state) :
  generateDynamicLoad percent e0 evs = Running st ->
  totalAllocated st = sum_sizes (buffers st)
  /\ Forall (fun n => 0 < n) (buffers st)
  /\ is_Some (buffers st !! O)
  /\ totalAllocated st <= Int64.max_int.
Proof.
  intros Hrun.
  destruct (TrackedTotal.memory_invariant percent e0 evs st Hrun)
    as [H1 H2 H3 H4].
  split; [exact H1|]. split; [exact H2|]. split; [exact H3 | exact H4].
Qed.

(** [memory_total_is_sum] at work: [--memory 50%], 1 GiB in use at the
    start and none at the first tick. *)
Lemma memory_total_is_sum_witness :
  exists st,
    generateDynamicLoad percent50 (mem_env GiB) [Tick (mem_env 0)]
    = Running st
    /\ totalAllocated st = sum_sizes (buffers st).
Proof.
  destruct (generateDynamicLoad percent50 (mem_env GiB) [Tick (mem_env 0)])
    as [st|st|st] eqn:Hrun;
    try (exfalso; revert Hrun; vm_compute; discriminate).
  exists st. split; [reflexivity|].
  apply (memory_total_is_sum percent50 (mem_env GiB) [Tick (mem_env 0)] st).
  exact Hrun.
Defined.

(** X12.  Wherever the dynamic memory controller is observed in its
    loop, buffer 0 is the buffer of the initial target, and at least
    that much is held: no tick releases it. *)
Theorem memory_first_buffer_stays (percent : Float64.float64) (e0 : env)
    (evs : list (event env)) (st : state) (target : Z) :
  calculatePercentageSize percent (sys e0) = inr target ->
  generateDynamicLoad percent e0 evs = Running st ->
  buffers st !! O = Some target /\ target <= totalAllocated st.
Proof.
  intros Hcalc Hrun.
  exact (FloorFacts.memory_floor percent e0 evs st target Hcalc Hrun).
Qed.

(** [memory_first_buffer_stays] at work: the runtime takes all but
    1 GiB at the first tick, and the target falls below what is
    held. *)
Lemma memory_first_buffer_stays_witness :
  exists st,
    generateDynamicLoad percent50 (mem_env GiB) [Tick (mem_env (7 * GiB))]
    = Running st
    /\ buffers st !! O = Some 3570191564.
Proof.
  destruct (generateDynamicLoad percent50 (mem_env GiB)
              [Tick (mem_env (7 * GiB))]) as [st|st|st] eqn:Hrun;
    try (exfalso; revert Hrun; vm_compute; discriminate).
  exists st. split; [reflexivity|].
  apply (memory_first_buffer_stays percent50 (mem_env GiB)
           [Tick (mem_env (7 * GiB))] st 3570191564).
  - vm_compute. reflexivity.
  - exact Hrun.
Defined.

(** X13.  A tick of the memory controller in a state of its loop: the
    process ends only when the target is above what is held and the
    allocation of the difference fails; otherwise the tick leaves at
    most the larger of what was held and the target. *)
Theorem memory_tick_bounded (percent : Float64.float64) (e : env)
    (st : state) :
  Invariant.memory st ->
  match tick percent e st with
  | None =>
      alloc_ok e = false
      /\ exists target,
          calculatePercentageSize percent (sys e) = inr target
          /\ totalAllocated st < target
  | Some st' =>
      forall target,
        calculatePercentageSize percent (sys e) = inr target ->
        totalAllocated st' <= Z.max (totalAllocated st) target
  end.
Proof.
  intros Hinv. exact (SafetyFacts.memory_tick_safe percent e st Hinv).
Qed.

(** [memory_tick_bounded] at work: two buffers held, 1 GiB in use at
    the tick. *)
Lemma memory_tick_bounded_witness :
  exists st',
    tick percent50 (mem_env GiB) mem_two = Some st'
    /\ totalAllocated st' <= 4080218931.
Proof.
  pose proof (memory_tick_bounded percent50 (mem_env GiB) mem_two
                DynamicController.mem_two_invariant) as H.
  destruct (tick percent50 (mem_env GiB) mem_two) as [st'|] eqn:Ht.
  - exists st'. split; [reflexivity|].
    apply (H 3570191564). vm_compute. reflexivity.
  - exfalso. destruct H as [H _]. discriminate H.
Defined.

(** X14.  [initializeBuffer] on a buffer of less than 8 EiB keeps the
    length, writes 0 at every index that is a multiple of 4096 and
    nothing elsewhere; a buffer fresh from [make] comes out as it went
    in. *)
Theorem initializeBuffer_writes_zeros (buffer : list Z) :
  Z.of_nat (length buffer) + 4096 <= Int64.max_int ->
  length (initializeBuffer buffer) = length buffer
  /\ (forall j : nat,
        initializeBuffer buffer !! j
        = if bool_decide (Z.of_nat j mod 4096 = 0 /\ (j < length buffer)%nat)
          then Some 0 else buffer !! j)
  /\ (forall n, buffer = make n -> initializeBuffer buffer = buffer).
Proof.
  intros Hmax.
  destruct (BufferFacts.initializeBuffer_spec buffer Hmax) as [H1 H2].
  split; [exact H1|]. split; [exact H2|].
  intros n ->.
  assert (Hm : make n = make (Z.of_nat (Z.to_nat n)))
    by (unfold make; rewrite Nat2Z.id; reflexivity).
  rewrite Hm in *. unfold make in Hmax at 1.
  rewrite length_replicate, Nat2Z.id in Hmax.
  apply BufferFacts.initializeBuffer_make; lia.
Qed.

(** [initializeBuffer_writes_zeros] at work: a buffer of 5000 bytes
    of value 7. *)
Lemma initializeBuffer_writes_zeros_witness :
  initializeBuffer (replicate 5000 7) !! 4096%nat = Some 0
  /\ initializeBuffer (replicate 5000 7) !! 4097%nat = Some 7.
Proof.
  destruct (initializeBuffer_writes_zeros (replicate 5000 7))
    as (_ & H & _).
  - vm_compute. discriminate.
  - rewrite !H. split; vm_compute; reflexivity.
Defined.

End MemoryProperties.

(* ------------------------------------------------------------------ *)
(** ** Further properties of the size parser *)

Module SizeProperties.
Import GoString Float64 SizeParser Controller FileSystem Example.

(** X15.  A percentage that is not above zero (negative, a zero or
    NaN) gets no target: both [calculatePercentageSize] return an
    error, whatever the runtime uses and whatever is free on the
    volume, and the dynamic controllers return at once, holding
    nothing. *)
Theorem percentage_not_above_zero (percent : float64) :
  Sign.not_above percent ->
  (forall sys, exists err,
      Memory.calculatePercentageSize percent sys = inl err)
  /\ (forall free, (forall f, free = Some f -> 0 <= f) ->
        exists err, Storage.calculatePercentageSize percent free = inl err)
  /\ (forall e0 evs,
        Memory.generateDynamicLoad percent e0 evs = Returned Memory.empty)
  /\ (forall t e0 evs d,
        (forall f, Storage.freeSpace e0 = Some f -> 0 <= f) ->
        exists err,
          Storage.performDynamicStorageOperations t percent e0 evs d
          = (Returned (Storage.empty, d), Some err)).
Proof.
  intros Hp.
  assert (Hm : forall sys, exists err,
             Memory.calculatePercentageSize percent sys = inl err).
  { intros sys. unfold Memory.calculatePercentageSize.
    destruct (_ <=? 0) eqn:Hfree; [eexists; reflexivity|].
    apply Z.leb_gt in Hfree.
    pose proof (SignFacts.target_not_above _ percent Memory.safetyFactor
                  (Z.lt_le_incl _ _ Hfree) Hp
                  (proj1 SignFacts.safetyFactor_not_below)) as Ht.
    apply Z.leb_le in Ht. rewrite Ht. eexists; reflexivity. }
  assert (Hs : forall free, (forall f, free = Some f -> 0 <= f) ->
             exists err,
               Storage.calculatePercentageSize percent free = inl err).
  { intros free Hfree. unfold Storage.calculatePercentageSize.
    destruct free as [f|]; [|eexists; reflexivity].
    pose proof (SignFacts.target_not_above f percent Storage.safetyFactor
                  (Hfree f eq_refl) Hp
                  (proj2 SignFacts.safetyFactor_not_below)) as Ht.
    apply Z.leb_le in Ht. rewrite Ht. eexists; reflexivity. }
  split; [exact Hm|]. split; [exact Hs|]. split.
  - intros e0 evs. unfold Memory.generateDynamicLoad, Memory.initialize.
    destruct (Hm (Memory.sys e0)) as [err ->]. reflexivity.
  - intros t e0 evs d Hfree.
    unfold Storage.performDynamicStorageOperations, Storage.initialize.
    destruct (Hs _ Hfree) as [err ->]. exists err. reflexivity.
Qed.

(** [percentage_not_above_zero] at work on the percentage -50. *)
Lemma percentage_not_above_zero_witness :
  Memory.generateDynamicLoad (of_Z (-50)) (mem_env GiB) [Tick (mem_env 0)]
  = Returned Memory.empty.
Proof.
  destruct (percentage_not_above_zero (of_Z (-50))) as (_ & _ & H & _).
  - vm_compute. reflexivity.
  - apply H.
Defined.

(** X16.  The size -2^63, which the parser returns for a size beyond
    int64, is read as a percentage by both loads, and as one that is
    not above zero: the memory load returns holding nothing, and the
    storage load returns having written nothing. *)
Theorem overflowed_size_loads_nothing (mr : Memory.run) (sr : Storage.run)
    (d : fs) (t : nat) :
  Storage.tempDir sr = Some t ->
  (forall f, Storage.freeSpace (Storage.first sr) = Some f -> 0 <= f) ->
  Memory.GenerateLoad Int64.min_int mr = Returned Memory.empty
  /\ Storage.GenerateLoad Int64.min_int sr d
     = Returned (removeAll t (mkdirTemp t d)).
Proof.
  intros Ht Hfree.
  assert (Hp : Sign.not_above (of_Z (Int64.neg Int64.min_int)))
    by (vm_compute; reflexivity).
  split.
  - unfold Memory.GenerateLoad.
    change (Int64.min_int <? 0) with true. cbv iota.
    unfold Memory.generateDynamicLoad, Memory.initialize,
      Memory.calculatePercentageSize.
    destruct (_ <=? 0) eqn:Hf; [reflexivity|].
    apply Z.leb_gt in Hf.
    pose proof (SignFacts.target_not_above _ _ Memory.safetyFactor
                  (Z.lt_le_incl _ _ Hf) Hp
                  (proj1 SignFacts.safetyFactor_not_below)) as Hle.
    apply Z.leb_le in Hle. rewrite Hle. reflexivity.
  - unfold Storage.GenerateLoad. rewrite Ht.
    change (Int64.min_int <? 0) with true. cbv iota.
    unfold Storage.performDynamicStorageOperations, Storage.initialize,
      Storage.calculatePercentageSize.
    destruct (Storage.freeSpace (Storage.first sr)) as [f|] eqn:Hf;
      [|reflexivity].
    pose proof (SignFacts.target_not_above f _ Storage.safetyFactor
                  (Hfree f eq_refl) Hp
                  (proj2 SignFacts.safetyFactor_not_below)) as Hle.
    apply Z.leb_le in Hle. rewrite Hle. reflexivity.
Qed.

(** [overflowed_size_loads_nothing] at work on the runs of the
    examples. *)
Lemma overflowed_size_loads_nothing_witness :
  Memory.GenerateLoad Int64.min_int mem_run = Returned Memory.empty
  /\ Storage.GenerateLoad Int64.min_int sto_run disk_empty
     = Returned (removeAll 7 (mkdirTemp 7 disk_empty)).
Proof.
  apply (overflowed_size_loads_nothing mem_run sto_run disk_empty 7).
  - reflexivity.
  - intros f Hf. injection Hf as <-. lia.
Defined.

(** X17.  From the flag to the allocator, for a percentage below 1
    that passes the range check ("0%", "0.5%"): the parser returns
    the size 0, which is no percentage any more, and both loads run
    their static allocators with 0 bytes; the storage one then writes
    files of 1 MiB each. *)
Theorem percentage_below_one (ParseFloat : gostring -> option float64)
    (s r : gostring) (p : float64) (mr : Memory.run) (sr : Storage.run)
    (d : fs) :
  trim_space s = r ++ ["%"%char] ->
  ParseFloat r = Some p ->
  valid_binary prec emax p = true ->
  ltb p (of_Z 0) = false -> ltb (of_Z 100) p = false ->
  trunc p = Some 0 ->
  parseSize ParseFloat s = Ok 0
  /\ Memory.GenerateLoad 0 mr
     = Memory.generateStaticLoad 0 (Memory.alloc_ok (Memory.first mr))
         (Memory.static_events mr)
  /\ Storage.GenerateLoad 0 sr d
     = match Storage.tempDir sr with
       | None => Returned d
       | Some t =>
           Storage.leave t
             (Storage.performStorageOperations t 0 (Storage.turns sr)
                (Storage.static_events sr) (mkdirTemp t d)).1
       end
  /\ Storage.fileSize_of 0 = 1024 * 1024.
Proof.
  intros Ht HPF Hv H0 H100 Htr.
  assert (Hnan : p <> S754_nan) by (intros ->; discriminate Htr).
  destruct (DispatchFacts.percent_dispatch ParseFloat s r p mr sr d
              Ht HPF Hv H0 H100 Hnan)
    as (k & _ & Hk & Hparse & Hzero & _).
  assert (k = 0) as -> by congruence.
  destruct (Hzero eq_refl) as [Hm Hs].
  split; [exact Hparse|]. split; [exact Hm|]. split; [exact Hs|].
  reflexivity.
Qed.

(** [percentage_below_one] at work on "0.5%". *)
Lemma percentage_below_one_witness :
  parseSize ParseFloat_decimal (str "0.5%") = Ok 0
  /\ Memory.GenerateLoad 0 mem_run
     = Memory.generateStaticLoad 0 true [Done].
Proof.
  destruct (percentage_below_one ParseFloat_decimal (str "0.5%") (str "0.5")
              (S754_finite false 4503599627370496 (-53)) mem_run sto_run
              disk_empty) as (Hparse & Hmem & _).
  - reflexivity.
  - vm_compute. reflexivity.
  - vm_compute. reflexivity.
  - vm_compute. reflexivity.
  - vm_compute. reflexivity.
  - vm_compute. reflexivity.
  - split; [exact Hparse | exact Hmem].
Defined.

(** X18.  The size pattern
    [^(\d+(?:\.\d+)?)\s*([KMGT]?B?)?$]: a string matches with the
    groups [num] and [unit] exactly when it is the number [num], then
    white space, then the unit [unit]; so a string has at most one
    such reading. *)
Theorem size_pattern_matched (u num unit : gostring) :
  (find_submatch u = Some (num, unit) <-> size_pattern u num unit)
  /\ (forall num' unit',
        size_pattern u num unit -> size_pattern u num' unit' ->
        num' = num /\ unit' = unit).
Proof.
  split.
  - split; [apply PatternFacts.find_submatch_sound
           | apply PatternFacts.find_submatch_complete].
  - intros num' unit' H1 H2.
    apply PatternFacts.find_submatch_complete in H1, H2.
    rewrite H1 in H2. injection H2 as <- <-. split; reflexivity.
Qed.

End SizeProperties.
